(** * uHashFS: a content-addressable file store

    A shallow embedding of [uhashfs/uhashfs.py] together with the parts of
    the Python runtime it calls ([int], [str.split], [os.path.join],
    [os.link], [os.unlink], [os.makedirs], [NamedTemporaryFile], file
    handles and [hashlib]), and the properties of the store proved on it.

    Conventions.
    - A Python [str] is a [list ascii]; a character stands for the code point
      of the same number, so the model covers the strings whose code points
      are below 256.  A Python [bytes] is a [list byte].
    - Paths are compared as strings, the way the store itself builds and
      compares them: two spellings of one file (doubled separators, dot
      segments, symbolic links) are different keys.
    - An exception does not roll the file system back: every effectful
      function returns its outcome together with the file system it leaves. *)

From Stdlib Require Import Ascii String ZArith Lia.
From stdpp Require Import base option list gmap strings.

Abbreviation str := (list ascii).
Abbreviation bytes := (list Byte.byte).

(** Literals are written as Rocq strings. *)
Definition s2l (s : string) : str := list_ascii_of_string s.

(** ** Exceptions and outcomes *)

(** The exceptions of Python that the store meets.  [OutOfFuel] is not one
    of them: it is what a loop of the model gives when its bound on the
    number of rounds was too small. *)
Inductive exn :=
  | TypeError
  | ValueError
  | AssertionError
  | AttributeError
  | IndexError
  | FileExistsError
  | FileNotFoundError
  | NotADirectoryError
  | IsADirectoryError
  | PermissionError
  | RecursionError
  | OutOfFuel.

Inductive outcome (A : Type) :=
  | Ok (a : A)
  | Raise (e : exn).
Arguments Ok {A} a.
Arguments Raise {A} e.

Definition is_ok {A} (r : outcome A) : bool :=
  match r with Ok _ => true | Raise _ => false end.

(** ** The Python builtins the store uses *)

Module Py.

Definition sep : ascii := "/"%char.

Definition is_sep (c : ascii) : bool := bool_decide (c = sep).

(** Whitespace as [int()] sees it: the C-locale blanks, and the two
    Unicode spaces below 256 (NEL and NBSP). *)
Definition is_space (c : ascii) : bool :=
  match c with
  | "009" | "010" | "011" | "012" | "013" | " " | "133" | "160" => true
  | _ => false
  end%char.

(** The value of a digit in base 16, by its code point: [0-9] from 48,
    [A-F] from 65, [a-f] from 97. *)
Definition hex_value (c : ascii) : option Z :=
  let n := Z.of_N (N_of_ascii c) in
  if (48 <=? n)%Z && (n <=? 57)%Z then Some (n - 48)%Z
  else if (65 <=? n)%Z && (n <=? 70)%Z then Some (n - 55)%Z
  else if (97 <=? n)%Z && (n <=? 102)%Z then Some (n - 87)%Z
  else None.

(** A hexadecimal character: one of 0-9, a-f, A-F. *)
Definition is_hexdigit (c : ascii) : bool :=
  match hex_value c with Some _ => true | None => false end.

Fixpoint lstrip (s : str) : str :=
  match s with
  | c :: r => if is_space c then lstrip r else s
  | [] => []
  end.

Definition strip_sign (s : str) : bool * str :=
  match s with
  | "+"%char :: r => (false, r)
  | "-"%char :: r => (true, r)
  | _ => (false, s)
  end.

(** With base 16 a leading [0x] or [0X] is skipped, and one underscore
    after it. *)
Definition strip_prefix16 (s : str) : str :=
  match s with
  | "0"%char :: x :: r =>
      if bool_decide (x = "x"%char) || bool_decide (x = "X"%char)
      then match r with
           | "_"%char :: r' => r'
           | _ => r
           end
      else s
  | _ => s
  end.

(** The digit scan: hexadecimal digits with single underscores between
    them.  It stops at the first other character and hands back the
    value, the number of digits read and the rest; two underscores in a
    row or a trailing underscore are an error. *)
Fixpoint scan_digits (prev_us : bool) (acc : Z) (ndig : nat) (s : str)
  : option (Z * nat * str) :=
  match s with
  | c :: r =>
      if bool_decide (c = "_"%char)
      then (if prev_us then None else scan_digits true acc ndig r)
      else match hex_value c with
           | Some v => scan_digits false (16 * acc + v)%Z (S ndig) r
           | None => if prev_us then None else Some (acc, ndig, s)
           end
  | [] => if prev_us then None else Some (acc, ndig, [])
  end.

(** [int(s, 16)], for the strings of this model, whose code points are
    below 256.  Above U+00FF, [int] also takes the decimal digits and the
    spaces of Unicode, which have no character here. *)
Definition int16 (s : str) : outcome Z :=
  let '(neg, s1) := strip_sign (lstrip s) in
  let s2 := strip_prefix16 s1 in
  match s2 with
  | "_"%char :: _ => Raise ValueError
  | _ =>
      match scan_digits false 0%Z 0 s2 with
      | Some (v, S _, rest) =>
          match lstrip rest with
          | [] => Ok (if neg then (- v)%Z else v)
          | _ :: _ => Raise ValueError
          end
      | _ => Raise ValueError
      end
  end.

(** [s.split('/')]: never empty. *)
Fixpoint split (s : str) : list str :=
  match s with
  | [] => [[]]
  | c :: r =>
      if is_sep c then [] :: split r
      else match split r with
           | h :: t => (c :: h) :: t
           | [] => [[c]]
           end
  end.

(** [sep in s]. *)
Definition contains_sep (s : str) : bool := existsb is_sep s.

(** [s[i:j]] for indices that are not negative. *)
Definition slice (s : str) (i j : nat) : str := take (j - i) (drop i s).

(** [s.startswith(p)]. *)
Fixpoint startswith (s p : str) {struct p} : bool :=
  match p, s with
  | [], _ => true
  | c :: p', d :: s' => bool_decide (c = d) && startswith s' p'
  | _ :: _, [] => false
  end.

(** [s.endswith('/')]. *)
Definition endswith_sep (s : str) : bool :=
  match last s with Some c => is_sep c | None => false end.

(** [l[-1]]. *)
Definition last_item {A} (l : list A) : outcome A :=
  match last l with Some x => Ok x | None => Raise IndexError end.

End Py.

(** ** [posixpath] *)

Module PosixPath.
Import Py.

(** One round of the loop of [os.path.join]. *)
Definition join_step (path b : str) : str :=
  match b with
  | c :: _ =>
      if is_sep c then b
      else if bool_decide (path = []) || endswith_sep path then path ++ b
      else path ++ sep :: b
  | [] =>
      if bool_decide (path = []) || endswith_sep path then path
      else path ++ [sep]
  end.

(** [os.path.join(a, *ps)]. *)
Definition join (a : str) (ps : list str) : str := foldl join_step a ps.

(** The place of the last separator: [p = h ++ t] where [h] ends in the
    last separator of [p]; [None] when [p] has no separator. *)
Fixpoint cut_last_sep (p : str) : option (str * str) :=
  match p with
  | [] => None
  | c :: r =>
      match cut_last_sep r with
      | Some (h, t) => Some (c :: h, t)
      | None => if is_sep c then Some ([c], r) else None
      end
  end.

Fixpoint lstrip_sep (s : str) : str :=
  match s with
  | c :: r => if is_sep c then lstrip_sep r else s
  | [] => []
  end.

(** [s.rstrip('/')]. *)
Definition rstrip_sep (s : str) : str := reverse (lstrip_sep (reverse s)).

(** [os.path.split(p)]: the head loses its trailing separators unless it
    is made of separators only. *)
Definition path_split (p : str) : str * str :=
  match cut_last_sep p with
  | None => ([], p)
  | Some (h, t) => (if forallb is_sep h then h else rstrip_sep h, t)
  end.

(** [os.path.dirname(p)]. *)
Definition dirname (p : str) : str := (path_split p).1.

(** [os.path.isabs(p)]. *)
Definition isabs (p : str) : bool :=
  match p with c :: _ => is_sep c | [] => false end.

(** The order of Python on strings (by code point) and on lists of
    strings (lexicographic). *)
Fixpoint str_compare (a b : str) : comparison :=
  match a, b with
  | [], [] => Eq
  | [], _ :: _ => Lt
  | _ :: _, [] => Gt
  | x :: a', y :: b' =>
      match N.compare (N_of_ascii x) (N_of_ascii y) with
      | Eq => str_compare a' b'
      | o => o
      end
  end.

Fixpoint seq_compare (a b : list str) : comparison :=
  match a, b with
  | [], [] => Eq
  | [], _ :: _ => Lt
  | _ :: _, [] => Gt
  | x :: a', y :: b' =>
      match str_compare x y with
      | Eq => seq_compare a' b'
      | o => o
      end
  end.

(** [min] and [max] keep the first of equal elements. *)
Definition py_min (x : list str) (xs : list (list str)) : list str :=
  foldl (λ m y, if decide (seq_compare y m = Lt) then y else m) x xs.

Definition py_max (x : list str) (xs : list (list str)) : list str :=
  foldl (λ m y, if decide (seq_compare y m = Gt) then y else m) x xs.

(** The loop of [commonpath]: the part of [s1] before the first place
    where it differs from [s2]; [s2[i]] raises when [s2] is too short. *)
Fixpoint common_loop (s1 s2 : list str) : outcome (list str) :=
  match s1 with
  | [] => Ok []
  | c :: r1 =>
      match s2 with
      | [] => Raise IndexError
      | c2 :: r2 =>
          if decide (c ≠ c2) then Ok []
          else match common_loop r1 r2 with
               | Ok l => Ok (c :: l)
               | Raise e => Raise e
               end
      end
  end.

(** [sep.join(l)]. *)
Fixpoint sep_join (l : list str) : str :=
  match l with
  | [] => []
  | [x] => x
  | x :: r => x ++ sep :: sep_join r
  end.

(** The segments [commonpath] compares: not empty and not [.]. *)
Definition segments (p : str) : list str :=
  filter (λ c, c ≠ [] ∧ c ≠ ["."%char]) (Py.split p).

(** [os.path.commonpath(paths)]. *)
Definition commonpath (paths : list str) : outcome str :=
  match paths with
  | [] => Raise ValueError
  | p :: ps =>
      if negb (forallb (λ q, bool_decide (isabs q = isabs p)) ps)
      then Raise ValueError
      else
        let s1 := py_min (segments p) (map segments ps) in
        let s2 := py_max (segments p) (map segments ps) in
        match common_loop s1 s2 with
        | Raise e => Raise e
        | Ok common =>
            Ok ((if isabs p then [sep] else []) ++ sep_join common)
        end
  end.

End PosixPath.

(** ** [pathlib] *)

Module Pathlib.

(** [PurePath.name] of the path written [p]: its last component, and the
    empty string when it has none (the root, the current directory).  The
    components are what [pathlib] parses a path into: the pieces between
    separators that are not empty and not [.]. *)
Definition name (p : str) : str := default [] (last (PosixPath.segments p)).

End Pathlib.


(** ** Python values that reach the store as a source *)

(** [VFile fd] is an open file object.  [VPath p] is a [pathlib.Path]
    object; [p] is its string, what [str] and [os.fspath] give for it. *)
Inductive pyval :=
  | VNone
  | VInt (z : Z)
  | VStr (s : str)
  | VBytes (b : bytes)
  | VFile (fd : nat)
  | VPath (p : str).

(** ** The file system and the open files *)

Module World.
Import Py PosixPath.

Record inode := { i_data : bytes; i_mode : Z }.

(** An open file object: the name it was opened under, the inode it
    reads and writes, its offset, whether it is in binary mode, and
    whether it was closed. *)
Record handle := {
  h_name : str;
  h_ino : nat;
  h_pos : nat;
  h_binary : bool;
  h_closed : bool
}.

(** Directory entries of the regular files (path to inode number: two
    hard links of one file share the number), the directories with
    their mode, the inode table, and the open file objects.  The working
    directory and the paths made of separators only are directories that
    always exist. *)
Record world := {
  w_files : gmap str nat;
  w_dirs : gmap str Z;
  w_inodes : gmap nat inode;
  w_handles : gmap nat handle
}.

Definition set_files (f : gmap str nat) (w : world) : world :=
  {| w_files := f; w_dirs := w_dirs w; w_inodes := w_inodes w;
     w_handles := w_handles w |}.
Definition set_dirs (d : gmap str Z) (w : world) : world :=
  {| w_files := w_files w; w_dirs := d; w_inodes := w_inodes w;
     w_handles := w_handles w |}.
Definition set_inodes (i : gmap nat inode) (w : world) : world :=
  {| w_files := w_files w; w_dirs := w_dirs w; w_inodes := i;
     w_handles := w_handles w |}.
Definition set_handles (h : gmap nat handle) (w : world) : world :=
  {| w_files := w_files w; w_dirs := w_dirs w; w_inodes := w_inodes w;
     w_handles := h |}.

Definition is_file (w : world) (p : str) : bool :=
  bool_decide (is_Some (w_files w !! p)).
Definition is_dir (w : world) (p : str) : bool :=
  forallb is_sep p || bool_decide (is_Some (w_dirs w !! p)).
Definition path_exists (w : world) (p : str) : bool :=
  is_file w p || is_dir w p.

(** The bytes of the file behind an inode number. *)
Definition data_of (w : world) (ino : nat) : bytes :=
  match w_inodes w !! ino with Some i => i_data i | None => [] end.

End World.
Export World.

(** ** Effects: a state and exception monad over the world *)

Definition io (A : Type) : Type := world → outcome A * world.

Definition ret {A} (a : A) : io A := λ w, (Ok a, w).
Definition raise {A} (e : exn) : io A := λ w, (Raise e, w).
Definition bind {A B} (m : io A) (k : A → io B) : io B :=
  λ w, match m w with
       | (Ok a, w') => k a w'
       | (Raise e, w') => (Raise e, w')
       end.
Definition lift {A} (r : outcome A) : io A := λ w, (r, w).
Definition get_world : io world := λ w, (Ok w, w).

(** [try: m  except e: handler e]; a handler that is [None] lets the
    exception pass. *)
Definition try_except {A} (m : io A) (handler : exn → option (io A)) : io A :=
  λ w, match m w with
       | (Ok a, w') => (Ok a, w')
       | (Raise e, w') =>
           match handler e with
           | Some h => h w'
           | None => (Raise e, w')
           end
       end.

(** [try: m  finally: fin]. *)
Definition try_finally {A} (m : io A) (fin : io unit) : io A :=
  λ w, match m w with
       | (r, w') =>
           match fin w' with
           | (Ok _, w'') => (r, w'')
           | (Raise e, w'') => (Raise e, w'')
           end
       end.

Notation "x <- m ;; k" := (bind m (λ x, k))
  (at level 100, m at next level, right associativity).
Notation "m ;;; k" := (bind m (λ _, k))
  (at level 100, right associativity).

(** ** System calls *)

Module OS.
Import Py PosixPath.

(** The directory a new entry goes into has to exist.  A missing parent
    is reported as such whatever lies above it. *)
Definition check_parent (p : str) : io unit := λ w,
  let d := dirname p in
  if is_dir w d then (Ok tt, w)
  else if is_file w d then (Raise NotADirectoryError, w)
  else (Raise FileNotFoundError, w).

(** [os.link(src, dst)]: a second name for the file [src]. *)
Definition link (src dst : str) : io unit := λ w,
  if negb (path_exists w src) then (Raise FileNotFoundError, w)
  else match check_parent dst w with
       | (Raise e, w') => (Raise e, w')
       | (Ok _, _) =>
           if path_exists w dst then (Raise FileExistsError, w)
           else match w_files w !! src with
                | Some ino => (Ok tt, set_files (<[dst := ino]> (w_files w)) w)
                | None => (Raise PermissionError, w)
                end
       end.

(** [os.unlink(p)], which is also [os.remove(p)]. *)
Definition unlink (p : str) : io unit := λ w,
  match w_files w !! p with
  | Some _ => (Ok tt, set_files (delete p (w_files w)) w)
  | None =>
      if is_dir w p then (Raise IsADirectoryError, w)
      else if is_file w (dirname p) then (Raise NotADirectoryError, w)
      else (Raise FileNotFoundError, w)
  end.

(** [os.mkdir(p, mode)]. *)
Definition mkdir (p : str) (mode : Z) : io unit := λ w,
  if bool_decide (p = []) then (Raise FileNotFoundError, w)
  else match check_parent p w with
       | (Raise e, w') => (Raise e, w')
       | (Ok _, _) =>
           if path_exists w p then (Raise FileExistsError, w)
           else (Ok tt, set_dirs (<[p := mode]> (w_dirs w)) w)
       end.

(** [os.makedirs(name, mode)]: the missing ancestors first, with the
    default mode, then [name] itself.  The recursion of the library is
    on the head of the path, which is shorter than the path. *)
Fixpoint makedirs_rec (fuel : nat) (name : str) (mode : Z) : io unit :=
  match fuel with
  | 0 => raise RecursionError
  | S fuel' =>
      let '(head, tail) := path_split name in
      let '(head, tail) :=
        if bool_decide (tail = []) then path_split head else (head, tail) in
      w <- get_world ;;
      if bool_decide (head ≠ []) && bool_decide (tail ≠ [])
         && negb (path_exists w head)
      then
        (try_except (makedirs_rec fuel' head 511)
           (λ e, match e with
                 | FileExistsError => Some (ret tt)
                 | _ => None
                 end)) ;;;
        if bool_decide (tail = ["."%char]) then ret tt
        else mkdir name mode
      else mkdir name mode
  end.

Definition makedirs (name : str) (mode : Z) : io unit :=
  makedirs_rec (S (length name)) name mode.

(** [os.chmod(p, mode)]. *)
Definition chmod (p : str) (mode : Z) : io unit := λ w,
  match w_files w !! p with
  | Some ino =>
      (Ok tt,
       set_inodes (alter (λ i, {| i_data := i_data i; i_mode := mode |})
                         ino (w_inodes w)) w)
  | None =>
      if bool_decide (is_Some (w_dirs w !! p))
      then (Ok tt, set_dirs (<[p := mode]> (w_dirs w)) w)
      else if is_dir w p then (Raise PermissionError, w)
      else (Raise FileNotFoundError, w)
  end.

(** [os.path.getsize(p)]. *)
Definition getsize (p : str) : io nat := λ w,
  match w_files w !! p with
  | Some ino => (Ok (length (data_of w ino)), w)
  | None =>
      if is_dir w p then (Ok 0, w) else (Raise FileNotFoundError, w)
  end.

(** [os.path.isfile(p)]. *)
Definition isfile (p : str) : io bool := λ w, (Ok (is_file w p), w).

(** The prefix every path below [top] starts with. *)
Definition below (top : str) : str :=
  if bool_decide (top = []) || endswith_sep top then top else top ++ [sep].

(** The regular files that [os.walk(top)] finds, each joined to its
    folder: the files whose path lies below [top]. *)
Definition walk_files (top : str) (w : world) : list str :=
  filter (λ p, startswith p (below top) = true)
         (map fst (map_to_list (w_files w))).

End OS.

(** ** File objects *)

Module File.

Definition new_handle (h : handle) : io nat := λ w,
  let fd := fresh (dom (w_handles w)) in
  (Ok fd, set_handles (<[fd := h]> (w_handles w)) w).

(** [open(p, 'rb')] ([binary = true]) and [open(p, 'r')]. *)
Definition open_read (p : str) (binary : bool) : io nat := λ w,
  match w_files w !! p with
  | Some ino =>
      new_handle {| h_name := p; h_ino := ino; h_pos := 0;
                    h_binary := binary; h_closed := false |} w
  | None =>
      if is_dir w p then (Raise IsADirectoryError, w)
      else if is_file w (PosixPath.dirname p) then (Raise NotADirectoryError, w)
      else (Raise FileNotFoundError, w)
  end.

(** Creating a file that must not exist yet, open for writing. *)
Definition open_excl (p : str) : io nat := λ w,
  match OS.check_parent p w with
  | (Raise e, w') => (Raise e, w')
  | (Ok _, _) =>
      if path_exists w p then (Raise FileExistsError, w)
      else
        let ino := fresh (dom (w_inodes w)) in
        new_handle {| h_name := p; h_ino := ino; h_pos := 0;
                      h_binary := true; h_closed := false |}
          (set_files (<[p := ino]> (w_files w))
             (set_inodes (<[ino := {| i_data := []; i_mode := 384 |}]>
                            (w_inodes w)) w))
  end.

(** An open file object, or [ValueError] (I/O operation on closed file). *)
Definition opened (fd : nat) : io handle := λ w,
  match w_handles w !! fd with
  | Some h => if h_closed h then (Raise ValueError, w) else (Ok h, w)
  | None => (Raise AttributeError, w)
  end.

Definition with_pos (h : handle) (pos : nat) : handle :=
  {| h_name := h_name h; h_ino := h_ino h; h_pos := pos;
     h_binary := h_binary h; h_closed := h_closed h |}.

Definition set_pos (fd : nat) (h : handle) (pos : nat) : io unit := λ w,
  (Ok tt, set_handles (<[fd := with_pos h pos]> (w_handles w)) w).

(** [f.read(n)]: up to [n] bytes from the offset on; a text-mode file
    gives a [str] (its decoding is not modelled further: the store only
    looks at the type). *)
Definition read (fd : nat) (n : nat) : io pyval :=
  h <- opened fd ;;
  w <- get_world ;;
  let chunk := take n (drop (h_pos h) (data_of w (h_ino h))) in
  set_pos fd h (h_pos h + length chunk) ;;;
  ret (if h_binary h then VBytes chunk
       else VStr (map ascii_of_byte chunk)).

(** [f.write(b)]: at the offset, over what is there. *)
Definition write (fd : nat) (b : bytes) : io unit :=
  h <- opened fd ;;
  (λ w,
     let old := data_of w (h_ino h) in
     let data := take (h_pos h) old ++ b ++ drop (h_pos h + length b) old in
     (Ok tt,
      set_inodes (alter (λ i, {| i_data := data; i_mode := i_mode i |})
                        (h_ino h) (w_inodes w)) w)) ;;;
  set_pos fd h (h_pos h + length b).

(** [f.close()]; closing twice is allowed. *)
Definition close (fd : nat) : io unit := λ w,
  match w_handles w !! fd with
  | Some h =>
      (Ok tt,
       set_handles (<[fd := {| h_name := h_name h; h_ino := h_ino h;
                               h_pos := h_pos h; h_binary := h_binary h;
                               h_closed := true |}]> (w_handles w)) w)
  | None => (Raise AttributeError, w)
  end.

(** [f.tell()] and [f.seek(pos)]. *)
Definition tell (fd : nat) : io nat :=
  h <- opened fd ;; ret (h_pos h).

Definition seek (fd : nat) (pos : nat) : io unit :=
  h <- opened fd ;; set_pos fd h pos.

End File.

(** ** [tempfile] *)

(** What the store keeps of a [NamedTemporaryFile]: the file object and
    its [name]. *)
Record tmpfile := { tmp_fd : nat; tmp_name : str }.

Module Tempfile.

(** [NamedTemporaryFile(delete=False, dir=dir, prefix=prefix)].  [name]
    is the random part of the file name; the library draws names until
    one is unused, the model is given the one name to try and fails as
    the library does when it runs out of names. *)
Definition NamedTemporaryFile (dir prefix name : str) : io tmpfile :=
  let file := PosixPath.join dir [prefix ++ name] in
  fd <- File.open_excl file ;;
  ret {| tmp_fd := fd; tmp_name := file |}.

End Tempfile.


(** ** The store: configuration and path derivation *)

(** What [hashlib.new(name)] gives: the size of the digest in bytes and the
    hexadecimal digest of a byte string. *)
Record hash_algo := {
  digest_size : nat;
  hexdigest_of : bytes → str
}.

(** The contract of [hashlib] for the fixed-length algorithms: the digest is
    [digest_size] bytes, printed as twice as many lowercase hexadecimal
    characters, and it is not empty. *)
Definition is_lower_hex (c : ascii) : bool :=
  match c with
  | "0" | "1" | "2" | "3" | "4" | "5" | "6" | "7" | "8" | "9"
  | "a" | "b" | "c" | "d" | "e" | "f" => true
  | _ => false
  end%char.

Record hashlib_contract (alg : hash_algo) : Prop := {
  digest_size_pos : 0 < digest_size alg;
  hexdigest_length : ∀ b, length (hexdigest_of alg b) = digest_size alg * 2;
  hexdigest_hex : ∀ b, forallb is_lower_hex (hexdigest_of alg b) = true
}.

(** The attributes of [uHashFS].  [root] is the resolved path of the storage
    tree.  [depth] and [width] are natural numbers: the constructor refuses
    the integers that are not positive. *)
Record uHashFS := {
  root : str;
  tmproot : str;
  depth : nat;
  width : nat;
  algorithm : hash_algo;
  fmode : option Z;
  dmode : Z;
  digestlen : nat;
  emptydigest : str
}.

(** [__attrs_post_init__], on the attributes given to the constructor. *)
Definition attrs_post_init (root_ tmproot_ : str) (depth_ width_ : nat)
    (algorithm_ : hash_algo) (fmode_ : option Z) (dmode_ : Z)
  : outcome uHashFS :=
  let digestlen_ := digest_size algorithm_ * 2 in
  let emptydigest_ := hexdigest_of algorithm_ [] in
  if negb (bool_decide (length emptydigest_ = digestlen_)) then
    Raise AssertionError
  else if negb (bool_decide (0 < depth_)) then Raise AssertionError
  else if negb (bool_decide (0 < width_)) then Raise AssertionError
  else Ok {| root := root_; tmproot := tmproot_; depth := depth_;
             width := width_; algorithm := algorithm_; fmode := fmode_;
             dmode := dmode_; digestlen := digestlen_;
             emptydigest := emptydigest_ |}.

(** [compact]: only the truthy (non-empty) elements. *)
Definition compact (items : list str) : list str :=
  filter (λ item, item ≠ []) items.

(** [unshard]. *)
Definition unshard (path : str) : outcome str :=
  if negb (Py.contains_sep path) then Raise ValueError
  else Py.last_item (Py.split path).

(** [uHashFS.shard]. *)
Definition shard (self : uHashFS) (digest : str) : list str :=
  compact (map (λ i, Py.slice digest (i * width self) (width self * (i + 1)))
               (seq 0 (depth self))
           ++ [digest]).

(** [uHashFS.digestpath]. *)
Definition digestpath (self : uHashFS) (digest : str) : outcome str :=
  if negb (bool_decide (length digest = digestlen self)) then Raise ValueError
  else match Py.int16 digest with
       | Raise _ => Raise ValueError
       | Ok _ => Ok (PosixPath.join (root self) (shard self digest))
       end.

(** A store that the constructor returned. *)
Definition constructed (self : uHashFS) : Prop :=
  attrs_post_init (root self) (tmproot self) (depth self) (width self)
    (algorithm self) (fmode self) (dmode self) = Ok self.

(** A well-formed digest in the words of the specification: the right
    length, hexadecimal characters only. *)
Definition valid_digest (self : uHashFS) (d : str) : Prop :=
  length d = digestlen self ∧ forallb Py.is_hexdigit d = true.

(** ** Hashing *)

(** A [hashlib] object is the bytes it was fed so far; [hexdigest] is the
    digest of all of them. *)
Definition hasher := bytes.
Definition update (h : hasher) (chunk : bytes) : hasher := h ++ chunk.

(** [bytes(s, 'UTF8')] for code points below 256. *)
Definition utf8_char (c : ascii) : bytes :=
  let n := N_of_ascii c in
  if (n <? 128)%N then [byte_of_ascii c]
  else [byte_of_ascii (ascii_of_N (192 + n / 64));
        byte_of_ascii (ascii_of_N (128 + n mod 64))].

Definition utf8 (s : str) : bytes := concat (map utf8_char s).

(** What iterating over an [io.StringIO] or an [io.BytesIO] gives: the
    lines, each with its newline. *)
Fixpoint lines {A} (is_nl : A → bool) (l : list A) : list (list A) :=
  match l with
  | [] => []
  | c :: r =>
      if is_nl c then [c] :: lines is_nl r
      else match lines is_nl r with
           | [] => [[c]]
           | h :: t => (c :: h) :: t
           end
  end.

Inductive stream :=
  | StringIO (s : str)
  | BytesIO (b : bytes).

Definition iter_stream (s : stream) : list pyval :=
  match s with
  | StringIO s => map VStr (lines (λ c, bool_decide (c = "010"%char)) s)
  | BytesIO b => map VBytes (lines (λ c, Byte.eqb c Byte.x0a) b)
  end.

(** [io.StringIO(v)] and [io.BytesIO(v)]. *)
Definition new_StringIO (v : pyval) : outcome stream :=
  match v with
  | VStr s => Ok (StringIO s)
  | VNone => Ok (StringIO [])
  | _ => Raise TypeError
  end.

Definition new_BytesIO (v : pyval) : outcome stream :=
  match v with
  | VBytes b => Ok (BytesIO b)
  | VNone => Ok (BytesIO [])
  | _ => Raise TypeError
  end.

Definition block_size : nat := 256 * 128 * 2.

(** [if tmp: tmp.write(chunk)] and [if tmp: tmp.close()]. *)
Definition tmp_write (tmp : option tmpfile) (chunk : bytes) : io unit :=
  match tmp with
  | Some t => File.write (tmp_fd t) chunk
  | None => ret tt
  end.

Definition tmp_close (tmp : option tmpfile) : io unit :=
  match tmp with
  | Some t => File.close (tmp_fd t)
  | None => ret tt
  end.

(** The loop of [hash_readable]: blocks are read until the empty one. *)
Fixpoint read_loop (fuel : nat) (handle : nat) (tmp : option tmpfile)
    (h : hasher) : io hasher :=
  match fuel with
  | 0 => raise OutOfFuel
  | S fuel' =>
      chunk <- File.read handle block_size ;;
      match chunk with
      | VBytes [] => ret h
      | VBytes b =>
          tmp_write tmp b ;;;
          read_loop fuel' handle tmp (update h b)
      | _ => raise TypeError
      end
  end.

(** [hash_readable].  The loop ends after at most one round for each byte
    of the file and one more. *)
Definition hash_readable (handle : nat) (algorithm : hash_algo)
    (tmp : option tmpfile) : io str :=
  w <- get_world ;;
  let size :=
    match w_handles w !! handle with
    | Some h => length (data_of w (h_ino h))
    | None => 0
    end in
  h <- read_loop (S size) handle tmp [] ;;
  tmp_close tmp ;;;
  ret (hexdigest_of algorithm h).

(** [open(path, 'rb')] on a Python value: only a path, as a [str] or as
    a [pathlib.Path], can be opened.  (Integers and bytes, which [open]
    also takes, do not get here: [Path] refuses them before.) *)
Definition open_rb (path : pyval) : io nat :=
  match path with
  | VStr p | VPath p => File.open_read p true
  | _ => raise TypeError
  end.

(** [hash_file]: the [with] block closes the file on every way out. *)
Definition hash_file (path : pyval) (algorithm : hash_algo)
    (tmp : option tmpfile) : io str :=
  handle <- open_rb path ;;
  try_finally (hash_readable handle algorithm tmp) (File.close handle).

(** [hash_file_handle]. *)
Definition hash_file_handle (handle : pyval) (algorithm : hash_algo)
    (tmp : option tmpfile) : io str :=
  match handle with
  | VFile fd =>
      pos <- File.tell fd ;;
      digest <- hash_readable fd algorithm tmp ;;
      File.seek fd pos ;;;
      ret digest
  | _ => raise AttributeError
  end.

(** ** The methods of the store *)

(** [HashAddress]. *)
Record HashAddress := {
  digest : str;
  fs : uHashFS;
  abspath : str;
  is_duplicate : bool
}.

Section Methods.

(** [Path.expanduser().resolve()]: the absolute path without dot
    segments and symbolic links.  It depends on the working directory,
    the home directory and the links of the machine, and is taken as a
    function of the path. *)
Variable resolve : str → str.

(** [path_is_parent]. *)
Definition path_is_parent (parent child : str) : outcome bool :=
  let parent := resolve parent in
  let child := resolve child in
  match PosixPath.commonpath [parent] with
  | Raise e => Raise e
  | Ok c1 =>
      match PosixPath.commonpath [parent; child] with
      | Raise e => Raise e
      | Ok c2 => Ok (bool_decide (c1 = c2))
      end
  end.

(** [uHashFS._mktemp].  [name] is the random part of the name of the
    temporary file.  The process umask is not modelled. *)
Definition _mktemp (self : uHashFS) (name : str) : io tmpfile :=
  tmp <- try_except
           (Tempfile.NamedTemporaryFile (tmproot self) (s2l "_tmp") name)
           (λ e, match e with
                 | FileNotFoundError =>
                     Some (OS.makedirs (tmproot self) 511 ;;;
                           Tempfile.NamedTemporaryFile
                             (tmproot self) (s2l "_tmp") name)
                 | _ => None
                 end) ;;
  match fmode self with
  | Some mode => OS.chmod (tmp_name tmp) mode
  | None => ret tt
  end ;;;
  ret tmp.

(** [uHashFS._mvtemp].  The handlers give [Some b] where the source
    returns [b] from inside the [try] statement. *)
Definition _mvtemp (self : uHashFS) (tmp filepath : str) : io bool :=
  returned <- try_except
                (OS.link tmp filepath ;;; ret None)
                (λ e, match e with
                      | FileExistsError =>
                          Some (OS.unlink tmp ;;; ret (Some true))
                      | FileNotFoundError =>
                          Some (OS.makedirs (PosixPath.dirname filepath)
                                  (dmode self) ;;;
                                OS.link tmp filepath ;;;
                                ret None)
                      | _ => None
                      end) ;;
  match returned with
  | Some b => ret b
  | None => OS.unlink tmp ;;; ret false
  end.

(** [uHashFS._print_status] returns at once. *)
Definition _print_status (name : str) (current_size : nat) (end_ : bool)
  : io unit := ret tt.

(** The loop of [uHashFS.computehash] over the chunks of the stream. *)
Fixpoint computehash_loop (chunks : list pyval) (tmp : option tmpfile)
    (hashobj : hasher) : io hasher :=
  match chunks with
  | [] => ret hashobj
  | chunk :: rest =>
      b <- lift (match chunk with
                 | VStr s => Ok (utf8 s)
                 | VBytes b => Ok b
                 | _ => Raise TypeError
                 end) ;;
      match tmp with
      | Some t =>
          File.write (tmp_fd t) b ;;;
          file_size <- OS.getsize (tmp_name t) ;;
          _print_status (tmp_name t) file_size false
      | None => ret tt
      end ;;;
      computehash_loop rest tmp (update hashobj b)
  end.

(** [uHashFS.computehash].  A stream of the [io] module has no
    [headers]: [header_size] is [False]. *)
Definition computehash (self : uHashFS) (stream_ : stream)
    (tmp : option tmpfile) : io str :=
  hashobj <- computehash_loop (iter_stream stream_) tmp [] ;;
  match tmp with
  | Some t =>
      File.close (tmp_fd t) ;;;
      file_size <- OS.getsize (tmp_name t) ;;
      _print_status (tmp_name t) file_size true
  | None => ret tt
  end ;;;
  ret (hexdigest_of (algorithm self) hashobj).

(** [uHashFS.putstr]. *)
Definition putstr (self : uHashFS) (string : pyval) (name : str)
  : io HashAddress :=
  stream_ <- lift (match new_StringIO string with
                   | Raise TypeError => new_BytesIO string
                   | r => r
                   end) ;;
  tmp <- _mktemp self name ;;
  digest <- computehash self stream_ (Some tmp) ;;
  filepath <- lift (digestpath self digest) ;;
  is_duplicate <- _mvtemp self (tmp_name tmp) filepath ;;
  ret {| digest := digest; fs := self; abspath := filepath;
         is_duplicate := is_duplicate |}.

(** [Path(file.name)] when [file] has a [name], else [Path(file)]: the
    path the guard of [putfile] is given.  A file object has a [name], the
    one it was opened under.  A [pathlib.Path] has a [name] too, its last
    component: of a [Path] source the guard is given the last component
    alone.  A [str] has none and is taken whole; [None], an [int] and
    [bytes] have none either, and [Path] refuses them.  (A file object
    made from a descriptor, whose name is an integer, is not modelled.) *)
Definition source_name (file : pyval) : io str :=
  w <- get_world ;;
  match file with
  | VFile fd =>
      match w_handles w !! fd with
      | Some h => ret (h_name h)
      | None => raise TypeError
      end
  | VPath p => ret (Pathlib.name p)
  | VStr s => ret s
  | _ => raise TypeError
  end.

(** [uHashFS.putfile] after its guard: staging, hashing and commit. *)
Definition putfile_store (self : uHashFS) (file : pyval) (tmpname : str)
  : io HashAddress :=
  tmp <- _mktemp self tmpname ;;
  digest <- try_except
              (hash_file file (algorithm self) (Some tmp))
              (λ e, match e with
                    | TypeError =>
                        Some (hash_file_handle file (algorithm self)
                                (Some tmp))
                    | _ => None
                    end) ;;
  filepath <- lift (digestpath self digest) ;;
  is_duplicate <- _mvtemp self (tmp_name tmp) filepath ;;
  ret {| digest := digest; fs := self; abspath := filepath;
         is_duplicate := is_duplicate |}.

(** [uHashFS.putfile]: the guard, then the rest. *)
Definition putfile (self : uHashFS) (file : pyval) (tmpname : str)
  : io HashAddress :=
  name <- source_name file ;;
  inside <- lift (path_is_parent (root self) name) ;;
  if (inside : bool) then raise ValueError
  else putfile_store self file tmpname.

(** [uHashFS.get]. *)
Definition get (self : uHashFS) (digest : str) : io HashAddress :=
  realpath <- lift (digestpath self digest) ;;
  isfile <- OS.isfile realpath ;;
  if (isfile : bool)
  then ret {| digest := digest; fs := self; abspath := realpath;
              is_duplicate := false |}
  else raise FileNotFoundError.

(** [uHashFS.delete]. *)
Definition delete (self : uHashFS) (digest : str) : io bool :=
  realpath <- lift (digestpath self digest) ;;
  if negb (Py.startswith realpath (root self)) then raise AssertionError
  else OS.unlink realpath ;;; ret true.

(** [uHashFS.files], as the list of what the generator yields. *)
Definition files (self : uHashFS) : io (list str) :=
  w <- get_world ;; ret (OS.walk_files (root self) w).

(** [uHashFS.exists]. *)
Definition exists_ (self : uHashFS) (digest : str) : io bool :=
  realpath <- lift (digestpath self digest) ;;
  OS.isfile realpath.

(** One round of the loop of [uHashFS.corrupted]: what it yields for
    [path], if anything. *)
Definition corrupted_step (self : uHashFS) (path : str)
  : io (option (str * HashAddress)) :=
  digest <- hash_file (VStr path) (algorithm self) None ;;
  name <- lift (Py.last_item (Py.split path)) ;;
  if negb (bool_decide (length digest = length name))
  then raise AssertionError
  else
    expected_path <- lift (digestpath self digest) ;;
    if bool_decide (expected_path ≠ path)
    then ret (Some (path, {| digest := digest; fs := self;
                             abspath := expected_path;
                             is_duplicate := false |}))
    else ret None.

(** The generator run over [paths]: what it yields, in order, and how it
    ends: exhausted ([Ok]) or with an exception. *)
Fixpoint corrupted_loop (self : uHashFS) (paths : list str) (w : world)
  : list (str * HashAddress) * outcome unit * world :=
  match paths with
  | [] => ([], Ok tt, w)
  | path :: rest =>
      match corrupted_step self path w with
      | (Raise e, w') => ([], Raise e, w')
      | (Ok y, w') =>
          let '(ys, r, w'') := corrupted_loop self rest w' in
          (from_option (λ x, [x]) [] y ++ ys, r, w'')
      end
  end.

(** [uHashFS.corrupted], consumed to its end. *)
Definition corrupted (self : uHashFS) (w : world)
  : list (str * HashAddress) * outcome unit * world :=
  corrupted_loop self (OS.walk_files (root self) w) w.

End Methods.

(** [uHashFS.open], for the reading modes: ['rb'] ([binary = true]) and
    ['r']. *)
Definition open_ (self : uHashFS) (digest : str) (binary : bool) : io nat :=
  realpath <- lift (digestpath self digest) ;;
  File.open_read realpath binary.

(** ** Relations between worlds used in the statements *)

(** The worlds that differ in their directories only, the later one
    having more of them. *)
Definition grows (w w' : world) : Prop :=
  w_files w' = w_files w ∧ w_inodes w' = w_inodes w ∧
  w_handles w' = w_handles w ∧ w_dirs w ⊆ w_dirs w'.

(** The worlds with the same names: the same directory entries and the
    same directories; the contents of files and the open file objects may
    differ. *)
Definition same_tree (w w' : world) : Prop :=
  w_files w' = w_files w ∧ w_dirs w' = w_dirs w.

(** A staged file that can be written: its file object is open and its
    name is in the file system. *)
Definition tmp_ready (t : tmpfile) (w : world) : Prop :=
  (∃ h, w_handles w !! tmp_fd t = Some h ∧ h_closed h = false) ∧
  is_Some (w_files w !! tmp_name t).

(** The bytes a stream of the [io] module is read as. *)
Definition stream_bytes (s : stream) : bytes :=
  match s with
  | StringIO s => utf8 s
  | BytesIO b => b
  end.

(** The bytes a chunk of a stream stands for. *)
Definition chunk_bytes (chunk : pyval) : bytes :=
  match chunk with
  | VStr s => utf8 s
  | VBytes b => b
  | _ => []
  end.

Definition is_data (chunk : pyval) : bool :=
  match chunk with
  | VStr _ | VBytes _ => true
  | _ => false
  end.

(** The path of the staged file whose random part is [name]. *)
Definition tmppath (self : uHashFS) (name : str) : str :=
  PosixPath.join (tmproot self) [s2l "_tmp" ++ name].

(** The staging file, if there is one, is another open file than the one
    that is read ([fd], with the state [hsrc]), on another inode. *)
Definition reads_apart (tmp : option tmpfile) (fd : nat) (hsrc : handle)
    (w : world) : Prop :=
  match tmp with
  | None => True
  | Some t =>
      tmp_fd t ≠ fd ∧
      ∃ ht, w_handles w !! tmp_fd t = Some ht ∧ h_closed ht = false ∧
            h_ino ht ≠ h_ino hsrc
  end.

(** The open file objects other than [fd] and the staging file. *)
Definition other_handle (tmp : option tmpfile) (fd fd' : nat) : Prop :=
  fd' ≠ fd ∧ match tmp with Some t => fd' ≠ tmp_fd t | None => True end.

(** The bytes a source of [putstr] stands for. *)
Definition source_bytes (v : pyval) : option bytes :=
  match v with
  | VStr s => Some (utf8 s)
  | VBytes b => Some b
  | VNone => Some []
  | _ => None
  end.

(** The last segment of a path. *)
Definition basename (p : str) : str := default [] (last (Py.split p)).

(** A resolved path lies inside the tree of [top]: it is [top] or below
    it. *)
Definition within (resolve : str → str) (top child : str) : Prop :=
  PosixPath.segments (resolve top)
    `prefix_of` PosixPath.segments (resolve child).

(** The characters [int(_, 16)] can take: blanks, a sign, the [x] of the
    prefix, underscores and hexadecimal digits. *)
Definition int_char (c : ascii) : bool :=
  Py.is_space c || Py.is_hexdigit c
  || bool_decide (c ∈ [ "+"; "-"; "x"; "X"; "_" ]%char).


(** The staged file [t] is being written: its name is that of the inode
    [ino], which its file object, open, is at the end of. *)
Definition staging (t : tmpfile) (ino : nat) (w : world) : Prop :=
  ∃ h, w_handles w !! tmp_fd t = Some h ∧ h_closed h = false ∧
       h_ino h = ino ∧ h_pos h = length (data_of w ino) ∧
       is_Some (w_inodes w !! ino) ∧ w_files w !! tmp_name t = Some ino.

(** The permission bits of the file behind an inode number. *)
Definition mode_of (w : world) (ino : nat) : option Z :=
  i_mode <$> w_inodes w !! ino.

(** The worlds that differ at most in the bytes of the inode [ino] and in
    the file objects [fds]. *)
Definition differ_at (ino : option nat) (fds : list nat) (w w' : world)
  : Prop :=
  same_tree w w' ∧
  (∀ i, Some i ≠ ino → w_inodes w' !! i = w_inodes w !! i) ∧
  (∀ i, mode_of w' i = mode_of w i) ∧
  (∀ fd, fd ∉ fds → w_handles w' !! fd = w_handles w !! fd).

(** The bytes [putfile] is given to store: those of the file at a path
    (a [str] or a [pathlib.Path]), or what is left to read from a file
    object. *)
Definition file_bytes (w : world) (file : pyval) : option bytes :=
  match file with
  | VStr p | VPath p =>
      ino ← w_files w !! p; i ← w_inodes w !! ino; Some (i_data i)
  | VFile fd =>
      h ← w_handles w !! fd; i ← w_inodes w !! h_ino h;
      Some (drop (h_pos h) (i_data i))
  | _ => None
  end.

(** What a put that returned the address [a] for [content] has made of
    the world [w]: directories are kept, the files that were there are
    kept as they were, and either nothing is added (a duplicate) or the
    address is a new name for a new file that holds [content]. *)
Definition put_effect (self : uHashFS) (content : bytes) (a : HashAddress)
    (w w' : world) : Prop :=
  fs a = self ∧ digest a = hexdigest_of (algorithm self) content ∧
  digestpath self (digest a) = Ok (abspath a) ∧
  w_dirs w ⊆ w_dirs w' ∧
  (∀ i, is_Some (w_inodes w !! i) → w_inodes w' !! i = w_inodes w !! i) ∧
  if is_duplicate a then w_files w' = w_files w
  else
    path_exists w (abspath a) = false ∧
    ∃ ino, w_inodes w !! ino = None ∧
           w_files w' = <[abspath a := ino]> (w_files w) ∧
           data_of w' ino = content ∧
           mode_of w' ino = Some (default 384%Z (fmode self)).


(** What the scan has to say about the file at [p]: nothing when the
    path of the digest of its bytes is [p], else [p] with the address
    its bytes belong at. *)
Definition mismatch (self : uHashFS) (w : world) (p : str)
  : option (str * HashAddress) :=
  ino ← w_files w !! p;
  let d := hexdigest_of (algorithm self) (data_of w ino) in
  let e := PosixPath.join (root self) (shard self d) in
  if bool_decide (e ≠ p)
  then Some (p, {| digest := d; fs := self; abspath := e;
                   is_duplicate := false |})
  else None.

(** ** A small store to run the model on *)

Module Example.

Definition hex_digit (n : N) : ascii :=
  nth (N.to_nat n) (s2l "0123456789abcdef") "0"%char.

(** [x] printed with [k] hexadecimal digits. *)
Fixpoint hex_fixed (k : nat) (x : N) : str :=
  match k with
  | 0 => []
  | S k' => hex_fixed k' (x / 16) ++ [hex_digit (x mod 16)]
  end.

(** A checksum that stands for the hash function: any function of the
    bytes with a digest of the right shape will do. *)
Definition checksum (b : bytes) : N :=
  foldl (λ acc x, (acc * 31 + Byte.to_N x + 1) mod 65536)%N 7%N b.

Definition toy_hash (size : nat) : hash_algo :=
  {| digest_size := size;
     hexdigest_of := λ b, hex_fixed (size * 2) (checksum b) |}.

(** The default shape of the store (depth 3, width 1, modes 0o664 and
    0o755) with a digest of four characters. *)
Definition store : uHashFS :=
  {| root := s2l "/srv/store"; tmproot := s2l "/srv/tmp";
     depth := 3; width := 1; algorithm := toy_hash 2;
     fmode := Some 436%Z; dmode := 493%Z;
     digestlen := 4; emptydigest := hexdigest_of (toy_hash 2) [] |}.

(** The same with a digest as long as that of SHA-256. *)
Definition store64 : uHashFS :=
  {| root := s2l "/srv/store"; tmproot := s2l "/srv/tmp";
     depth := 3; width := 1; algorithm := toy_hash 32;
     fmode := Some 436%Z; dmode := 493%Z;
     digestlen := 64; emptydigest := hexdigest_of (toy_hash 32) [] |}.

(** A store whose shards are wider than its digest is long. *)
Definition store_wide : uHashFS :=
  {| root := s2l "/srv/store"; tmproot := s2l "/srv/tmp";
     depth := 3; width := 2; algorithm := toy_hash 2;
     fmode := Some 436%Z; dmode := 493%Z;
     digestlen := 4; emptydigest := hexdigest_of (toy_hash 2) [] |}.

Definition foo : bytes := [Byte.x66; Byte.x6f; Byte.x6f].

(** A machine with an empty store, a staging directory, and one file
    [/data/foo.txt] that holds [foo]. *)
Definition world0 : world :=
  {| w_files := {[ s2l "/data/foo.txt" := 1 ]};
     w_dirs := list_to_map [(s2l "/srv", 493%Z); (s2l "/srv/store", 493%Z);
                            (s2l "/srv/tmp", 493%Z); (s2l "/data", 493%Z)];
     w_inodes := {[ 1 := {| i_data := foo; i_mode := 420 |} ]};
     w_handles := ∅ |}.

(** No links, no dot segments: paths are resolved already. *)
Definition resolve (p : str) : str := p.

(** The same on a machine whose working directory is [cwd]: a relative
    path is taken from there. *)
Definition resolve_from (cwd p : str) : str :=
  if PosixPath.isabs p then p else PosixPath.join cwd [p].

(** Random parts of the names of staged files. *)
Definition name1 : str := s2l "k3x9ab12".
Definition name2 : str := s2l "p0q8zz7_".
Definition name3 : str := s2l "m5n6o7p8".

(** The final path of the digest [bf40]. *)
Definition final : str := s2l "/srv/store/b/f/4/bf40".

(** The world after staging an empty file, and after committing it to
    [final]. *)
Definition staged (name : str) (w : world) : world :=
  (_mktemp store name w).2.

Definition committed (name : str) (w : world) : world :=
  (_mvtemp store (tmppath store name) final (staged name w)).2.

(** The world after a commit and the deletion of what it stored: the
    shard directories are there, the file is not. *)
Definition emptied : world :=
  (delete store (s2l "bf40") (committed name1 world0)).2.

(** The machine with [/data/foo.txt] open in binary mode, one byte
    read. *)
Definition foo_rb : handle :=
  {| h_name := s2l "/data/foo.txt"; h_ino := 1; h_pos := 1;
     h_binary := true; h_closed := false |}.

Definition world_rb : world := set_handles {[ 0 := foo_rb ]} world0.

(** The same with nothing read yet. *)
Definition world_rb0 : world :=
  set_handles {[ 0 := File.with_pos foo_rb 0 ]} world0.

(** The machine with [/data/foo.txt] open in text mode. *)
Definition foo_r : handle :=
  {| h_name := s2l "/data/foo.txt"; h_ino := 1; h_pos := 0;
     h_binary := false; h_closed := false |}.

Definition world_r : world := set_handles {[ 0 := foo_r ]} world0.

(** A machine where a staged file was left in the store: the same store
    with its staging root inside the root. *)
Definition store_tmp_inside : uHashFS :=
  {| root := s2l "/srv/store"; tmproot := s2l "/srv/store";
     depth := 3; width := 1; algorithm := toy_hash 2;
     fmode := Some 436%Z; dmode := 493%Z;
     digestlen := 4; emptydigest := hexdigest_of (toy_hash 2) [] |}.

Definition world_leftover : world :=
  (putfile resolve store_tmp_inside (VStr (s2l "/data/missing")) name2
     (committed name1 world0)).2.

(** A machine where the address of [foo] is taken by a directory. *)
Definition world_taken : world :=
  set_dirs (foldr (λ p, <[p := 493%Z]>) (w_dirs world0)
              [s2l "/srv/store/b"; s2l "/srv/store/b/f";
               s2l "/srv/store/b/f/4"; final]) world0.

(** A machine where the store holds the bytes of [foo] under the name of
    another digest. *)
Definition world_bad : world :=
  set_files (<[s2l "/srv/store/0/0/0/0000" := 1]> (w_files world0))
    (set_dirs (foldr (λ p, <[p := 493%Z]>) (w_dirs world0)
                 [s2l "/srv/store/0"; s2l "/srv/store/0/0";
                  s2l "/srv/store/0/0/0"]) world0).

(** A machine where a file is in the way of the shard directories of
    [foo]. *)
Definition world_blocked : world :=
  set_files (<[s2l "/srv/store/b" := 1]> (w_files world0)) world0.

End Example.


(** * Properties *)

(** ** Facts about the builtins *)

Section PyFacts.
Import Py.

Lemma is_sep_true c : is_sep c = true ↔ c = sep.
Proof. unfold is_sep. by rewrite bool_decide_eq_true. Qed.

Lemma is_sep_false c : is_sep c = false ↔ c ≠ sep.
Proof. unfold is_sep. by rewrite bool_decide_eq_false. Qed.

Lemma hexdigit_not_sep c : is_hexdigit c = true → is_sep c = false.
Proof.
  intros H. apply is_sep_false. intros ->. by vm_compute in H.
Qed.

Lemma hexdigit_not_space c : is_hexdigit c = true → is_space c = false.
Proof.
  destruct (is_space c) eqn:E; [|done].
  destruct c as [[] [] [] [] [] [] [] []]; by vm_compute in E |- *.
Qed.

Lemma lower_hex_hexdigit c : is_lower_hex c = true → is_hexdigit c = true.
Proof. destruct c as [[] [] [] [] [] [] [] []]; by vm_compute. Qed.

Lemma contains_sep_false s :
  contains_sep s = false ↔ Forall (λ c, c ≠ sep) s.
Proof.
  unfold contains_sep. induction s as [|c s IH]; simpl.
  - split; [constructor | done].
  - rewrite orb_false_iff, IH, is_sep_false, Forall_cons. tauto.
Qed.

Lemma contains_sep_app s t :
  contains_sep (s ++ t) = contains_sep s || contains_sep t.
Proof. unfold contains_sep. apply existsb_app. Qed.

Lemma hex_no_sep s :
  forallb is_hexdigit s = true → contains_sep s = false.
Proof.
  intros H. apply contains_sep_false.
  induction s as [|c s IH]; [constructor|].
  simpl in H. apply andb_true_iff in H as [Hc Hs].
  constructor; [|auto]. by apply is_sep_false, hexdigit_not_sep.
Qed.

(** What [lstrip] removes is whitespace. *)
Lemma lstrip_spec s :
  ∃ ws, s = ws ++ lstrip s ∧ forallb is_space ws = true.
Proof.
  induction s as [|c s (ws & Hs & Hws)]; simpl.
  - by exists [].
  - destruct (is_space c) eqn:E.
    + exists (c :: ws). simpl. rewrite E, Hws. split; [by f_equal | done].
    + by exists [].
Qed.

Lemma lstrip_nil s : lstrip s = [] → forallb is_space s = true.
Proof.
  destruct (lstrip_spec s) as (ws & Hs & Hws). intros E.
  rewrite E, app_nil_r in Hs. by subst.
Qed.

Lemma space_not_sep c : is_space c = true → c ≠ sep.
Proof. intros H ->. by vm_compute in H. Qed.

Lemma spaces_no_sep s : forallb is_space s = true → contains_sep s = false.
Proof.
  intros H. apply contains_sep_false.
  induction s as [|c s IH]; [constructor|].
  simpl in H. apply andb_true_iff in H as [Hc Hs].
  constructor; auto using space_not_sep.
Qed.

(** What [scan_digits] reads is digits and underscores. *)
Lemma scan_digits_spec prev acc n s v m rest :
  scan_digits prev acc n s = Some (v, m, rest) →
  ∃ ds, s = ds ++ rest ∧ contains_sep ds = false.
Proof.
  revert prev acc n. induction s as [|c s IH]; intros prev acc n; simpl.
  - destruct prev; [done|]. intros [= <- <- <-]. by exists [].
  - case_bool_decide as Hus.
    + destruct prev; [done|]. intros (ds & -> & Hds)%IH.
      exists (c :: ds). split; [done|]. subst c.
      unfold contains_sep in *. simpl. by rewrite Hds.
    + destruct (hex_value c) as [d|] eqn:Hc.
      * intros (ds & -> & Hds)%IH. exists (c :: ds). split; [done|].
        unfold contains_sep in *. simpl. rewrite Hds, orb_false_r.
        apply hexdigit_not_sep. unfold is_hexdigit. by rewrite Hc.
      * destruct prev; [done|]. intros [= <- <- <-]. by exists [].
Qed.

Lemma strip_sign_spec s neg r :
  strip_sign s = (neg, r) → contains_sep s = contains_sep r.
Proof.
  unfold strip_sign. destruct s as [|c s]; [by intros [= <- <-]|].
  destruct (decide (c = "+"%char)) as [->|H1]; [by intros [= <- <-]|].
  destruct (decide (c = "-"%char)) as [->|H2]; [by intros [= <- <-]|].
  destruct c as [[] [] [] [] [] [] [] []]; try by intros [= <- <-].
Qed.

Lemma strip_prefix16_spec s :
  contains_sep (strip_prefix16 s) = false → contains_sep s = false.
Proof.
  unfold strip_prefix16.
  destruct s as [|c s]; [done|].
  destruct (decide (c = "0"%char)) as [->|H0].
  2:{ destruct c as [[] [] [] [] [] [] [] []]; try done. }
  destruct s as [|x r]; [done|].
  destruct (bool_decide (x = "x"%char) || bool_decide (x = "X"%char)) eqn:Ex;
    [|done].
  assert (is_sep x = false) as Hx.
  { apply orb_true_iff in Ex
      as [->%bool_decide_eq_true| ->%bool_decide_eq_true];
      done. }
  intros H. unfold contains_sep. simpl. rewrite Hx. simpl.
  destruct r as [|u r']; [done|].
  destruct (decide (u = "_"%char)) as [->|Hu]; [done|].
  destruct u as [[] [] [] [] [] [] [] []]; try done.
Qed.

(** A string that [int(_, 16)] accepts holds no path separator. *)
Lemma int16_no_sep s v : int16 s = Ok v → contains_sep s = false.
Proof.
  unfold int16. destruct (lstrip_spec s) as (ws & Hs & Hws).
  destruct (strip_sign (lstrip s)) as [neg s1] eqn:Hsign.
  intros H.
  assert (contains_sep (strip_prefix16 s1) = false) as Hp.
  { revert H.
    destruct (scan_digits false 0 0 (strip_prefix16 s1))
      as [[[v' [|m]] rest]|] eqn:Hscan.
    - by destruct (strip_prefix16 s1) as [|[[] [] [] [] [] [] [] []] ?].
    - apply scan_digits_spec in Hscan as (ds & -> & Hds).
      rewrite contains_sep_app, Hds. simpl.
      destruct (lstrip rest) eqn:Hrest.
      + intros _. by apply spaces_no_sep, lstrip_nil.
      + by destruct (ds ++ rest) as [|[[] [] [] [] [] [] [] []] ?].
    - by destruct (strip_prefix16 s1) as [|[[] [] [] [] [] [] [] []] ?]. }
  apply strip_prefix16_spec in Hp.
  rewrite Hs, contains_sep_app, (spaces_no_sep _ Hws). simpl.
  by rewrite (strip_sign_spec _ _ _ Hsign).
Qed.

End PyFacts.

Section PathFacts.
Import Py PosixPath.

Lemma int16_hex d :
  d ≠ [] → forallb is_hexdigit d = true → ∃ v, int16 d = Ok v.
Proof.
  assert (∀ d acc n, forallb is_hexdigit d = true →
            ∃ v, scan_digits false acc n d = Some (v, n + length d, []))
    as Hscan.
  { clear. induction d as [|c d IH]; intros acc n H; simpl.
    - exists acc. by rewrite Nat.add_0_r.
    - simpl in H. apply andb_true_iff in H as [Hc Hd].
      case_bool_decide as Hus; [by subst c|].
      unfold is_hexdigit in Hc. destruct (hex_value c) as [v|]; [|done].
      destruct (IH (16 * acc + v)%Z (S n) Hd) as [w Hw].
      exists w. rewrite Hw. do 3 f_equal. lia. }
  destruct d as [|c d]; [done|]. intros _ H.
  destruct (Hscan _ 0%Z 0 H) as [v Hv].
  simpl in H. apply andb_true_iff in H as [Hc Hd].
  exists v. unfold int16. simpl lstrip.
  rewrite (hexdigit_not_space c Hc).
  assert (strip_sign (c :: d) = (false, c :: d)) as ->.
  { clear -Hc.
    destruct c as [[] [] [] [] [] [] [] []]; by vm_compute in Hc |- *. }
  assert (strip_prefix16 (c :: d) = c :: d) as ->.
  { unfold strip_prefix16.
    destruct d as [|x r].
    { by destruct c as [[] [] [] [] [] [] [] []]. }
    simpl in Hd. apply andb_true_iff in Hd as [Hx _].
    assert (bool_decide (x = "x"%char) || bool_decide (x = "X"%char) = false)
      as ->.
    { apply orb_false_iff. split; apply bool_decide_eq_false; intros ->;
        by vm_compute in Hx. }
    by destruct c as [[] [] [] [] [] [] [] []]. }
  rewrite Hv. simpl.
  clear -Hc. destruct c as [[] [] [] [] [] [] [] []]; by vm_compute in Hc |- *.
Qed.

Lemma split_nonempty s : split s ≠ [].
Proof. destruct s as [|c s]; simpl; [done|]. by repeat case_match. Qed.

Lemma split_no_sep d : contains_sep d = false → split d = [d].
Proof.
  unfold contains_sep. induction d as [|c d IH]; simpl; [done|].
  intros [Hc Hd]%orb_false_iff. by rewrite Hc, (IH Hd).
Qed.

(** Splitting at a separator splits the list of segments. *)
Lemma split_app_sep p d : split (p ++ sep :: d) = split p ++ split d.
Proof.
  induction p as [|c p IH]; simpl; [done|].
  destruct (is_sep c); [by rewrite IH|].
  rewrite IH. pose proof (split_nonempty p).
  by destruct (split p).
Qed.

Lemma startswith_prefix s p : startswith s p = true ↔ p `prefix_of` s.
Proof.
  revert s. induction p as [|c p IH]; intros s; simpl.
  - split; [intros _; apply prefix_nil | done].
  - destruct s as [|d s].
    + split; [done | intros []%prefix_nil_not].
    + rewrite andb_true_iff, bool_decide_eq_true, IH. split.
      * intros [-> H]. by apply prefix_cons.
      * intros H.
        split; [by eapply prefix_cons_inv_1 | by eapply prefix_cons_inv_2].
Qed.

(** A component without separator is appended, after a separator when
    the path needs one. *)
Lemma join_step_no_sep path b :
  contains_sep b = false →
  join_step path b = path ++ b ∨ join_step path b = path ++ sep :: b.
Proof.
  unfold join_step, contains_sep. destruct b as [|c b]; simpl.
  - intros _. destruct (_ || _); [left; by rewrite app_nil_r | by right].
  - intros [-> _]%orb_false_iff. destruct (_ || _); auto.
Qed.

Lemma join_step_prefix path b :
  contains_sep b = false → path `prefix_of` join_step path b.
Proof.
  intros [-> | ->]%(join_step_no_sep path); by apply prefix_app_r.
Qed.

Lemma join_prefix a ps :
  Forall (λ b, contains_sep b = false) ps → a `prefix_of` join a ps.
Proof.
  unfold join. intros H. revert a.
  induction H as [|b ps Hb _ IH]; intros a; simpl; [done|].
  etrans; [by apply join_step_prefix | apply IH].
Qed.

(** Joining a last component that is not empty and holds no separator
    onto a path that is not empty ends the path in a separator and that
    component. *)
Lemma join_step_last path d :
  path ≠ [] → contains_sep d = false →
  ∃ y, join_step path d = y ++ sep :: d.
Proof.
  intros Hp Hd.
  assert (join_step path d =
          if endswith_sep path then path ++ d else path ++ sep :: d) as ->.
  { unfold join_step.
    assert (bool_decide (path = []) = false) as ->
      by by apply bool_decide_eq_false.
    simpl. destruct d as [|c d]; [by rewrite app_nil_r|].
    unfold contains_sep in Hd. simpl in Hd.
    by apply orb_false_iff in Hd as [-> _]. }
  unfold endswith_sep.
  destruct (last path) as [c|] eqn:Hlast; [|by exists path].
  destruct (is_sep c) eqn:Hc; [|by exists path].
  apply is_sep_true in Hc as ->.
  apply last_Some in Hlast as [y ->].
  exists y. by rewrite <- app_assoc.
Qed.

Lemma join_step_nonempty path b : b ≠ [] → join_step path b ≠ [].
Proof.
  unfold join_step. destruct b as [|c b]; [done|]. intros _.
  destruct (is_sep c); [done|]. destruct (_ || _); by destruct path.
Qed.

Lemma join_nonempty a ps : a ≠ [] ∨ ps ≠ [] → Forall (λ b, b ≠ []) ps →
  join a ps ≠ [].
Proof.
  unfold join. intros Hor H. revert a Hor.
  induction H as [|b ps Hb _ IH]; intros a Hor; simpl.
  - by destruct Hor.
  - apply IH. left. by apply join_step_nonempty.
Qed.

Lemma unshard_app_sep y d :
  contains_sep d = false → unshard (y ++ sep :: d) = Ok d.
Proof.
  intros Hd. unfold unshard.
  rewrite contains_sep_app. unfold contains_sep at 2. simpl.
  rewrite orb_true_r. simpl.
  unfold last_item. by rewrite split_app_sep, (split_no_sep d Hd), last_snoc.
Qed.

End PathFacts.

(** ** The sharder *)

Section ShardFacts.
Import Py PosixPath.

Lemma constructed_inv self :
  constructed self →
  0 < depth self ∧ 0 < width self ∧
  digestlen self = digest_size (algorithm self) * 2.
Proof.
  unfold constructed, attrs_post_init.
  repeat case_bool_decide; simpl; try done.
  by intros [= <-].
Qed.

Lemma constructed_digestlen_pos self :
  constructed self → hashlib_contract (algorithm self) →
  0 < digestlen self.
Proof.
  intros (_ & _ & ->)%constructed_inv [Hpos _ _]. lia.
Qed.

Lemma compact_all items : Forall (λ item, item ≠ []) items →
  compact items = items.
Proof.
  unfold compact. induction 1 as [|x l Hx _ IH]; [done|].
  by rewrite filter_cons_True, IH.
Qed.

Lemma length_slice s i j : length (slice s i j) = (j - i) `min` (length s - i).
Proof. unfold slice. by rewrite length_take, length_drop. Qed.

Lemma slice_no_sep s i j : contains_sep s = false →
  contains_sep (slice s i j) = false.
Proof.
  rewrite !contains_sep_false. unfold slice. intros H.
  by apply Forall_take, Forall_drop.
Qed.

(** The segments of [shard] hold no separator when the digest holds
    none, and none of them is empty. *)
Lemma shard_no_sep self d : contains_sep d = false →
  Forall (λ b, contains_sep b = false) (shard self d).
Proof.
  intros Hd. unfold shard, compact.
  apply Forall_forall. intros b [_ Hb]%list_elem_of_filter.
  apply elem_of_app in Hb as [(i & -> & _)%list_elem_of_fmap | Hb].
  - by apply slice_no_sep.
  - by apply list_elem_of_singleton in Hb as ->.
Qed.

Lemma compact_nonempty items : Forall (λ b, b ≠ []) (compact items).
Proof.
  unfold compact. apply Forall_forall. by intros b [? _]%list_elem_of_filter.
Qed.

(** When the shards fit into the digest none of them is dropped. *)
Lemma shard_fits self d :
  0 < depth self → 0 < width self →
  depth self * width self ≤ length d →
  shard self d =
    map (λ i, slice d (i * width self) (width self * (i + 1)))
        (seq 0 (depth self)) ++ [d] ∧
  Forall (λ seg, length seg = width self)
    (map (λ i, slice d (i * width self) (width self * (i + 1)))
         (seq 0 (depth self))).
Proof.
  intros Hdepth Hwidth Hfit.
  assert (Forall (λ seg, length seg = width self)
    (map (λ i, slice d (i * width self) (width self * (i + 1)))
         (seq 0 (depth self)))) as Hlen.
  { apply Forall_forall. intros b (i & -> & Hi)%list_elem_of_fmap.
    apply elem_of_seq in Hi. rewrite length_slice. nia. }
  split; [|done]. unfold shard. apply compact_all.
  apply Forall_app. split.
  - eapply Forall_impl; [exact Hlen|]. intros seg Hseg ->. simpl in Hseg. lia.
  - repeat constructor. intros ->. simpl in Hfit. nia.
Qed.

(** A digest that holds no separator and is not empty is the last
    segment of its path. *)
Lemma join_shard_last self d :
  0 < depth self → 0 < width self → d ≠ [] → contains_sep d = false →
  ∃ y, join (root self) (shard self d) = y ++ sep :: d.
Proof.
  intros Hdepth Hwidth Hne Hd.
  assert (∃ dirs, shard self d = dirs ++ [d] ∧ dirs ≠ [] ∧
                  Forall (λ b, b ≠ []) dirs) as (dirs & Hs & Hdirs & Hall).
  { unfold shard, compact. rewrite filter_app.
    rewrite (filter_cons_True _ d) by done. rewrite filter_nil.
    eexists. split; [done|]. split; [|apply compact_nonempty].
    destruct (depth self) as [|n]; [lia|]. simpl.
    rewrite filter_cons_True; [done|].
    intros Hnil%(f_equal length). rewrite length_slice in Hnil.
    destruct d; [done|]. simpl in Hnil. lia. }
  rewrite Hs. unfold join. rewrite foldl_snoc.
  apply join_step_last; [|done].
  apply (join_nonempty (root self) dirs); auto.
Qed.

Lemma digestpath_Ok self d p :
  digestpath self d = Ok p →
  length d = digestlen self ∧ contains_sep d = false ∧
  p = join (root self) (shard self d).
Proof.
  unfold digestpath. case_bool_decide as Hlen; [|done]. simpl.
  destruct (int16 d) as [v|] eqn:Hint; [|done].
  intros [= <-]. eauto using int16_no_sep.
Qed.

Lemma digestpath_valid self d :
  d ≠ [] → valid_digest self d →
  digestpath self d = Ok (join (root self) (shard self d)).
Proof.
  intros Hne [Hlen Hhex]. unfold digestpath.
  rewrite bool_decide_true by done. simpl.
  by destruct (int16_hex d Hne Hhex) as [v ->].
Qed.

Lemma digestpath_wrong_length self d :
  length d ≠ digestlen self → digestpath self d = Raise ValueError.
Proof. intros H. unfold digestpath. by rewrite bool_decide_false. Qed.

(** Every path of the store starts with the root. *)
Lemma digestpath_startswith self d p :
  digestpath self d = Ok p → startswith p (root self) = true.
Proof.
  intros (_ & Hd & ->)%digestpath_Ok.
  apply startswith_prefix, join_prefix. by apply shard_no_sep.
Qed.

End ShardFacts.

(** ** The example store *)

Section ExampleFacts.
Import Example.

Lemma hex_digit_lower n : (n < 16)%N → is_lower_hex (hex_digit n) = true.
Proof.
  intros H. assert (N.to_nat n < 16) as Hn by lia.
  unfold hex_digit. generalize dependent (N.to_nat n). clear.
  intros m Hm. do 16 (destruct m as [|m]; [done|]). lia.
Qed.

Lemma hex_fixed_length k x : length (hex_fixed k x) = k.
Proof.
  revert x. induction k as [|k IH]; intros x; simpl; [done|].
  rewrite length_app, IH. simpl. lia.
Qed.

Lemma hex_fixed_lower k x : forallb is_lower_hex (hex_fixed k x) = true.
Proof.
  revert x. induction k as [|k IH]; intros x; simpl; [done|].
  rewrite forallb_app, IH. simpl.
  rewrite hex_digit_lower; [done|]. by apply N.mod_lt.
Qed.

(** The checksum keeps the contract of [hashlib]. *)
Lemma toy_hash_contract size : 0 < size → hashlib_contract (toy_hash size).
Proof.
  intros Hsize. split; simpl; [done| |].
  - intros b. apply hex_fixed_length.
  - intros b. apply hex_fixed_lower.
Qed.

End ExampleFacts.

(** ** Path derivation: the claims *)

Section DigestPath.
Import Py PosixPath.

(** C3 (the code departs from the claim).  [digestpath] is a function of
    the store and the digest and refuses every string of the wrong length,
    but it does not refuse every string of the right length that holds a
    character that is not hexadecimal: the check is [int(digest, 16)],
    which also takes a sign, blanks around the number, a [0x] prefix and
    underscores between digits.  With a digest length of 64, the string
    made of a plus sign and 63 zeros is turned into a path. *)
Theorem digestpath_accepts_non_hex :
  let d := "+"%char :: repeat "0"%char 63 in
  length d = digestlen Example.store64 ∧
  forallb is_hexdigit d = false ∧
  digestpath Example.store64 d = Ok (s2l "/srv/store/+/0/0/" ++ d).
Proof. by vm_compute. Qed.

(** C4 as it is written fails where the shards do not fit into the
    digest: with depth 3 and width 2 a digest of four characters has two
    directory segments, not three. *)
Lemma shard_not_depth_segments :
  constructed Example.store_wide ∧
  hashlib_contract (algorithm Example.store_wide) ∧
  valid_digest Example.store_wide (s2l "00ff") ∧
  shard Example.store_wide (s2l "00ff") = [s2l "00"; s2l "ff"; s2l "00ff"] ∧
  ¬ ∃ dirs, shard Example.store_wide (s2l "00ff") = dirs ++ [s2l "00ff"] ∧
            length dirs = depth Example.store_wide.
Proof.
  split; [done|]. split; [apply toy_hash_contract; simpl; lia|].
  split; [done|]. split; [done|].
  intros (dirs & H & Hlen).
  change (shard Example.store_wide (s2l "00ff"))
    with ([s2l "00"; s2l "ff"] ++ [s2l "00ff"]) in H.
  apply app_inj_tail in H as [<- _]. done.
Qed.

(** C4 (amended).  For every valid digest [d] of a constructed store:
    when [depth * width] is at most the digest length, [shard d] is
    exactly [depth] directory segments, each of length [width], the
    consecutive chunks of [d], followed by [d] itself; and in every
    case [digestpath d] is a path that [unshard] turns back into [d]. *)
Theorem shard_unshard self d :
  constructed self → hashlib_contract (algorithm self) →
  valid_digest self d →
  (depth self * width self ≤ digestlen self →
   ∃ dirs,
     shard self d = dirs ++ [d] ∧
     length dirs = depth self ∧
     Forall (λ seg, length seg = width self) dirs ∧
     dirs = map (λ i, slice d (i * width self) (width self * (i + 1)))
                (seq 0 (depth self))) ∧
  ∃ p, digestpath self d = Ok p ∧ unshard p = Ok d.
Proof.
  intros Hc Halg [Hlen Hhex].
  pose proof (constructed_digestlen_pos self Hc Halg) as Hpos.
  destruct (constructed_inv self Hc) as (Hdepth & Hwidth & _).
  assert (d ≠ []) as Hne by (intros ->; simpl in Hlen; lia).
  split.
  - intros Hfit. rewrite <- Hlen in Hfit.
    destruct (shard_fits self d Hdepth Hwidth Hfit) as [Hs Hall].
    eexists. split; [exact Hs|].
    by rewrite length_map, length_seq.
  - eexists. split; [by apply digestpath_valid|].
    destruct (join_shard_last self d Hdepth Hwidth Hne (hex_no_sep d Hhex))
      as [y ->].
    by apply unshard_app_sep, hex_no_sep.
Qed.

Lemma shard_unshard_witness :
  (∃ dirs,
     shard Example.store (s2l "bf40") = dirs ++ [s2l "bf40"] ∧
     length dirs = 3 ∧
     Forall (λ seg, length seg = 1) dirs ∧
     dirs = map (λ i, slice (s2l "bf40") (i * 1) (1 * (i + 1))) (seq 0 3)) ∧
  ∃ p, digestpath Example.store (s2l "bf40") = Ok p ∧
       unshard p = Ok (s2l "bf40").
Proof.
  destruct (shard_unshard Example.store (s2l "bf40")) as [Hshape Hpath].
  - reflexivity.
  - apply toy_hash_contract. simpl. lia.
  - split; reflexivity.
  - split; [|exact Hpath]. apply Hshape. simpl. lia.
Defined.

End DigestPath.

(** ** Effects and system calls *)

Section IOFacts.
Import Py PosixPath.

Lemma bind_Ok {A B} (m : io A) (k : A → io B) w b w' :
  bind m k w = (Ok b, w') ↔
  ∃ a w1, m w = (Ok a, w1) ∧ k a w1 = (Ok b, w').
Proof.
  unfold bind. destruct (m w) as [[a|e] w1]; split.
  - eauto.
  - by intros (? & ? & [= <- <-] & ?).
  - done.
  - by intros (? & ? & ? & ?).
Qed.

Lemma bind_Raise {A B} (m : io A) (k : A → io B) w e w' :
  bind m k w = (Raise e, w') ↔
  m w = (Raise e, w') ∨ ∃ a w1, m w = (Ok a, w1) ∧ k a w1 = (Raise e, w').
Proof.
  unfold bind. destruct (m w) as [[a|e1] w1]; split.
  - eauto.
  - intros [?|(? & ? & [= <- <-] & ?)]; done.
  - intros [= <- <-]. by left.
  - intros [[= <- <-]|(? & ? & ? & ?)]; done.
Qed.

Lemma grows_refl w : grows w w.
Proof. by repeat split. Qed.

Lemma grows_trans w1 w2 w3 : grows w1 w2 → grows w2 w3 → grows w1 w3.
Proof.
  intros (? & ? & ? & ?) (? & ? & ? & ?).
  repeat split; try congruence. by etrans.
Qed.

Lemma grows_is_file w w' p : grows w w' → is_file w' p = is_file w p.
Proof. intros (Hf & _). unfold is_file. by rewrite Hf. Qed.

Lemma grows_is_dir w w' p : grows w w' → is_dir w p = true → is_dir w' p = true.
Proof.
  intros (_ & _ & _ & Hd). unfold is_dir.
  rewrite !orb_true_iff, !bool_decide_eq_true.
  intros [?|[m Hm]]; [by left|right].
  exists m. by eapply lookup_weaken.
Qed.

Lemma grows_path_exists w w' p :
  grows w w' → path_exists w p = true → path_exists w' p = true.
Proof.
  intros Hg. unfold path_exists. rewrite !orb_true_iff.
  rewrite (grows_is_file _ _ _ Hg). intros [?|?]; [by left|right].
  by eapply grows_is_dir.
Qed.

Lemma check_parent_world p w r w' : OS.check_parent p w = (r, w') → w' = w.
Proof. unfold OS.check_parent. repeat case_match; by intros [= _ <-]. Qed.

Lemma check_parent_Ok p w w' :
  OS.check_parent p w = (Ok tt, w') ↔ is_dir w (dirname p) = true ∧ w' = w.
Proof.
  unfold OS.check_parent. destruct (is_dir w (dirname p)).
  - split; [by intros [= <-] | by intros [_ ->]].
  - split; [by repeat case_match | by intros [? _]].
Qed.

Lemma link_Ok src dst w w' :
  OS.link src dst w = (Ok tt, w') ↔
  ∃ ino, w_files w !! src = Some ino ∧ is_dir w (dirname dst) = true ∧
         path_exists w dst = false ∧
         w' = set_files (<[dst := ino]> (w_files w)) w.
Proof.
  unfold OS.link. split.
  - destruct (path_exists w src) eqn:Hsrc; simpl; [|done].
    destruct (OS.check_parent dst w) as [[[]|e] w1] eqn:Hpar; [|done].
    apply check_parent_Ok in Hpar as [Hdir ->].
    destruct (path_exists w dst) eqn:Hdst; [done|].
    destruct (w_files w !! src) as [ino|] eqn:Hino; [|done].
    intros [= <-]. by exists ino.
  - intros (ino & Hino & Hdir & Hdst & ->).
    assert (path_exists w src = true) as ->.
    { unfold path_exists, is_file. by rewrite Hino, bool_decide_true. }
    simpl.
    assert (OS.check_parent dst w = (Ok tt, w)) as ->
      by by apply check_parent_Ok.
    by rewrite Hdst, Hino.
Qed.

Lemma link_Raise src dst w e w' :
  OS.link src dst w = (Raise e, w') → w' = w.
Proof.
  unfold OS.link. destruct (path_exists w src); simpl; [|by intros [= _ <-]].
  destruct (OS.check_parent dst w) as [[[]|e1] w1] eqn:Hpar.
  - repeat case_match; by intros [= _ <-].
  - apply check_parent_world in Hpar as ->. by intros [= _ <-].
Qed.

Lemma link_FileExistsError src dst w w' :
  OS.link src dst w = (Raise FileExistsError, w') →
  path_exists w dst = true.
Proof.
  unfold OS.link. destruct (path_exists w src); simpl; [|done].
  destruct (OS.check_parent dst w) as [[[]|e1] w1] eqn:Hpar.
  - by repeat case_match.
  - intros [= -> _]. unfold OS.check_parent in Hpar.
    by repeat case_match.
Qed.

Lemma unlink_Ok p w w' :
  OS.unlink p w = (Ok tt, w') ↔
  is_Some (w_files w !! p) ∧ w' = set_files (base.delete p (w_files w)) w.
Proof.
  unfold OS.unlink. destruct (w_files w !! p) as [ino|].
  - split; [by intros [= <-] | by intros [_ ->]].
  - split; [by repeat case_match | by intros [[] _]].
Qed.

Lemma mkdir_grows p mode w r w' : OS.mkdir p mode w = (r, w') → grows w w'.
Proof.
  unfold OS.mkdir. case_bool_decide; [intros [= _ <-]; apply grows_refl|].
  destruct (OS.check_parent p w) as [[[]|e1] w1] eqn:Hpar.
  - destruct (path_exists w p) eqn:Hex; intros [= _ <-];
      [apply grows_refl|].
    repeat split; simpl. apply insert_subseteq.
    unfold path_exists, is_dir in Hex.
    apply orb_false_iff in Hex as [_ [_ Hd]%orb_false_iff].
    apply bool_decide_eq_false in Hd.
    by apply eq_None_not_Some.
  - apply check_parent_world in Hpar as ->. intros [= _ <-].
    apply grows_refl.
Qed.

Lemma makedirs_rec_grows fuel name mode w r w' :
  OS.makedirs_rec fuel name mode w = (r, w') → grows w w'.
Proof.
  revert name mode w r w'.
  induction fuel as [|fuel IH]; intros name mode w r w'; simpl.
  { intros [= _ <-]. apply grows_refl. }
  destruct (path_split name) as [head0 tail0].
  destruct (if bool_decide (tail0 = []) then path_split head0
            else (head0, tail0)) as [head tail].
  unfold bind at 1, get_world.
  destruct (_ && _ && _); [|apply mkdir_grows].
  unfold bind, try_except.
  destruct (OS.makedirs_rec fuel head 511 w) as [[[]|e] w1] eqn:Hrec;
    apply IH in Hrec.
  - case_bool_decide; [by intros [= _ <-]|].
    intros Hm%mkdir_grows. by eapply grows_trans.
  - destruct e; try (by intros [= _ <-]).
    unfold ret. case_bool_decide; [by intros [= _ <-]|].
    intros Hm%mkdir_grows. by eapply grows_trans.
Qed.

Lemma makedirs_grows name mode w r w' :
  OS.makedirs name mode w = (r, w') → grows w w'.
Proof. apply makedirs_rec_grows. Qed.

End IOFacts.

(** ** The committer *)

Section Committer.
Import Py PosixPath.

(** The two ways [_mvtemp] returns.  Either the final path existed, the
    flag is [True] and the only change is that the staged name is gone;
    or it did not exist, the flag is [False], directories may have been
    added, and the final path is a new name of the staged file. *)
Lemma mvtemp_inv self tmp filepath w b w' :
  _mvtemp self tmp filepath w = (Ok b, w') →
  (b = true ∧ path_exists w filepath = true ∧
   is_Some (w_files w !! tmp) ∧
   w' = set_files (base.delete tmp (w_files w)) w) ∨
  (b = false ∧ path_exists w filepath = false ∧
   ∃ ino w1, grows w w1 ∧ w_files w !! tmp = Some ino ∧
             is_dir w1 (dirname filepath) = true ∧
             w' = set_files
                    (base.delete tmp (<[filepath := ino]> (w_files w))) w1).
Proof.
  unfold _mvtemp. intros (returned & w1 & Htry & Hrest)%bind_Ok.
  unfold try_except in Htry.
  destruct (bind (OS.link tmp filepath) _ w) as [[a|e] w0] eqn:Hlink.
  - (* the link was made at once *)
    injection Htry as -> ->.
    apply bind_Ok in Hlink as ([] & w2 & Hlink & [= <- <-]).
    apply link_Ok in Hlink as (ino & Hino & Hdir & Hdst & ->).
    apply bind_Ok in Hrest as ([] & w3 & Hun & [= <- <-]).
    apply unlink_Ok in Hun as [_ ->]. right.
    split; [done|]. split; [done|].
    exists ino, w. split; [apply grows_refl|]. done.
  - apply bind_Raise in Hlink as [Hlink|([] & ? & _ & [=])].
    pose proof (link_Raise _ _ _ _ _ Hlink) as ->.
    destruct e; try done.
    + (* the final path exists *)
      apply link_FileExistsError in Hlink.
      apply bind_Ok in Htry as ([] & w2 & Hun & [= <- <-]).
      injection Hrest as <- <-.
      apply unlink_Ok in Hun as [Htmp ->]. by left.
    + (* a directory was missing *)
      apply bind_Ok in Htry as ([] & w2 & Hmk & Htry).
      apply makedirs_grows in Hmk.
      apply bind_Ok in Htry as ([] & w3 & Hlink2 & [= <- <-]).
      apply link_Ok in Hlink2 as (ino & Hino & Hdir & Hdst & ->).
      apply bind_Ok in Hrest as ([] & w4 & Hun & [= <- <-]).
      apply unlink_Ok in Hun as [_ ->]. right.
      split; [done|]. split.
      { destruct (path_exists w filepath) eqn:Hex; [|done].
        by rewrite (grows_path_exists _ _ _ Hmk Hex) in Hdst. }
      destruct Hmk as (Hf & Hrest). rewrite Hf in Hino.
      exists ino, w2. split; [done|]. split; [done|]. split; [done|].
      simpl. by rewrite Hf.
Qed.

(** C2.  Whenever the commit returns (the link was made, the final path
    existed, or the link was made after the missing directories were
    created) the staged name is no longer in the file system. *)
Theorem mvtemp_removes_staged self tmp filepath w b w' :
  _mvtemp self tmp filepath w = (Ok b, w') →
  w_files w' !! tmp = None ∧ is_file w' tmp = false.
Proof.
  intros H.
  assert (w_files w' !! tmp = None) as Hnone.
  { apply mvtemp_inv in H
      as [(_ & _ & _ & ->)|(_ & _ & ino & w1 & _ & _ & _ & ->)];
      simpl; apply lookup_delete_eq. }
  split; [done|]. unfold is_file. rewrite Hnone.
  apply bool_decide_eq_false. by intros [].
Qed.

Lemma mvtemp_removes_staged_witness :
  (* the link is made after the shard directories were created *)
  w_files (Example.committed Example.name1 Example.world0)
    !! tmppath Example.store Example.name1 = None ∧
  (* the final path is taken: a duplicate *)
  w_files (Example.committed Example.name2
             (Example.committed Example.name1 Example.world0))
    !! tmppath Example.store Example.name2 = None ∧
  (* the link is made at once *)
  w_files (Example.committed Example.name3 Example.emptied)
    !! tmppath Example.store Example.name3 = None.
Proof.
  split; [|split].
  - refine (proj1 (mvtemp_removes_staged Example.store
             (tmppath Example.store Example.name1) Example.final
             (Example.staged Example.name1 Example.world0) false _ _)).
    vm_compute. reflexivity.
  - refine (proj1 (mvtemp_removes_staged Example.store
             (tmppath Example.store Example.name2) Example.final
             (Example.staged Example.name2
                (Example.committed Example.name1 Example.world0))
             true _ _)).
    vm_compute. reflexivity.
  - refine (proj1 (mvtemp_removes_staged Example.store
             (tmppath Example.store Example.name3) Example.final
             (Example.staged Example.name3 Example.emptied) false _ _)).
    vm_compute. reflexivity.
Defined.

End Committer.

(** ** File objects and staging *)

Section Staging.
Import Py PosixPath.

Lemma same_tree_refl w : same_tree w w.
Proof. done. Qed.

Lemma same_tree_trans w1 w2 w3 :
  same_tree w1 w2 → same_tree w2 w3 → same_tree w1 w3.
Proof. intros [? ?] [? ?]. split; congruence. Qed.

Lemma same_tree_is_dir w w' p : same_tree w w' → is_dir w' p = is_dir w p.
Proof. intros [_ Hd]. unfold is_dir. by rewrite Hd. Qed.

Lemma same_tree_path_exists w w' p :
  same_tree w w' → path_exists w' p = path_exists w p.
Proof.
  intros [Hf Hd]. unfold path_exists, is_file, is_dir. by rewrite Hf, Hd.
Qed.

Lemma opened_Ok fd w h w' :
  File.opened fd w = (Ok h, w') ↔
  w_handles w !! fd = Some h ∧ h_closed h = false ∧ w' = w.
Proof.
  unfold File.opened. destruct (w_handles w !! fd) as [h0|].
  - destruct (h_closed h0) eqn:Hc.
    + split; [done|]. intros ([= ->] & ? & _). congruence.
    + split; [by intros [= <- <-]|]. by intros ([= ->] & _ & ->).
  - split; [done | by intros ([=] & _)].
Qed.

Lemma opened_world fd w r w' : File.opened fd w = (r, w') → w' = w.
Proof. unfold File.opened. repeat case_match; by intros [= _ <-]. Qed.

(** Writing keeps the names, and the file object stays open. *)
Lemma write_Ok fd b w w' :
  File.write fd b w = (Ok tt, w') →
  same_tree w w' ∧
  ∃ h h', w_handles w !! fd = Some h ∧ h_closed h = false ∧
          w_handles w' = <[fd := h']> (w_handles w) ∧ h_closed h' = false.
Proof.
  unfold File.write.
  intros (h & w1 & (Hh & Hc & ->)%opened_Ok & H)%bind_Ok.
  apply bind_Ok in H as ([] & w2 & [= <-] & [= <-]).
  split; [done|]. eexists h, _. simpl. by repeat split.
Qed.

Lemma write_ready fd b w h :
  w_handles w !! fd = Some h → h_closed h = false →
  ∃ w', File.write fd b w = (Ok tt, w').
Proof.
  intros Hh Hc. unfold File.write, bind.
  assert (File.opened fd w = (Ok h, w)) as -> by by apply opened_Ok.
  simpl. by eexists.
Qed.

Lemma close_Ok fd w w' :
  File.close fd w = (Ok tt, w') → same_tree w w'.
Proof. unfold File.close. case_match; [|done]. by intros [= <-]. Qed.

Lemma close_ready fd w h :
  w_handles w !! fd = Some h → ∃ w', File.close fd w = (Ok tt, w').
Proof. intros Hh. unfold File.close. rewrite Hh. by eexists. Qed.

Lemma getsize_world p w r w' : OS.getsize p w = (r, w') → w' = w.
Proof. unfold OS.getsize. repeat case_match; by intros [= _ <-]. Qed.

Lemma getsize_ready p w :
  is_Some (w_files w !! p) → ∃ n, OS.getsize p w = (Ok n, w).
Proof. intros [ino Hino]. unfold OS.getsize. rewrite Hino. by eexists. Qed.

Lemma tmp_ready_write t b w w' :
  File.write (tmp_fd t) b w = (Ok tt, w') → tmp_ready t w → tmp_ready t w'.
Proof.
  intros ([Hf _] & h & h' & _ & _ & Hh & Hc)%write_Ok [_ Hfile].
  split; [|by rewrite Hf].
  exists h'. by rewrite Hh, lookup_insert_eq.
Qed.

(** Creating the staged file. *)
Lemma open_excl_Ok p w fd w' :
  File.open_excl p w = (Ok fd, w') ↔
  is_dir w (dirname p) = true ∧ path_exists w p = false ∧
  fd = fresh (dom (w_handles w)) ∧
  w' = set_handles
         (<[fd := {| h_name := p; h_ino := fresh (dom (w_inodes w));
                     h_pos := 0; h_binary := true; h_closed := false |}]>
            (w_handles w))
         (set_files (<[p := fresh (dom (w_inodes w))]> (w_files w))
            (set_inodes
               (<[fresh (dom (w_inodes w)) :=
                    {| i_data := []; i_mode := 384 |}]> (w_inodes w)) w)).
Proof.
  unfold File.open_excl.
  destruct (OS.check_parent p w) as [[[]|e] w1] eqn:Hpar.
  - apply check_parent_Ok in Hpar as [Hdir ->]. rewrite Hdir.
    destruct (path_exists w p).
    + split; [done | by intros (_ & ? & _)].
    + unfold File.new_handle. simpl. split.
      * by intros [= <- <-].
      * by intros (_ & _ & -> & ->).
  - split; [done|]. intros (Hdir & _).
    assert (OS.check_parent p w = (Ok tt, w)) by by apply check_parent_Ok.
    congruence.
Qed.

Lemma open_excl_Raise p w e w' :
  File.open_excl p w = (Raise e, w') → w' = w.
Proof.
  unfold File.open_excl.
  destruct (OS.check_parent p w) as [[[]|e1] w1] eqn:Hpar.
  - destruct (path_exists w p); [by intros [= _ <-]|done].
  - apply check_parent_world in Hpar as ->. by intros [= _ <-].
Qed.

Lemma chmod_file p mode w :
  is_Some (w_files w !! p) →
  ∃ w', OS.chmod p mode w = (Ok tt, w') ∧ same_tree w w' ∧
        w_handles w' = w_handles w.
Proof.
  intros [ino Hino]. unfold OS.chmod. rewrite Hino. by eexists.
Qed.

Lemma bind_step {A B} (m : io A) (k : A → io B) w a w1 :
  m w = (Ok a, w1) → bind m k w = k a w1.
Proof. unfold bind. by intros ->. Qed.

Lemma ntf_Ok dir pre name w t w' :
  Tempfile.NamedTemporaryFile dir pre name w = (Ok t, w') ↔
  tmp_name t = join dir [pre ++ name] ∧
  File.open_excl (tmp_name t) w = (Ok (tmp_fd t), w').
Proof.
  unfold Tempfile.NamedTemporaryFile. rewrite bind_Ok. split.
  - by intros (fd & w1 & H & [= <- <-]).
  - intros [Hn H]. exists (tmp_fd t), w'. rewrite <- Hn.
    split; [done|]. by destruct t.
Qed.

Lemma ntf_Raise dir pre name w e w' :
  Tempfile.NamedTemporaryFile dir pre name w = (Raise e, w') → w' = w.
Proof.
  unfold Tempfile.NamedTemporaryFile.
  intros [H|(? & ? & _ & [=])]%bind_Raise. by eapply open_excl_Raise.
Qed.

(** What a staged file looks like right after its creation. *)
Lemma open_excl_staged p w fd w' :
  File.open_excl p w = (Ok fd, w') →
  is_dir w (dirname p) = true ∧ path_exists w p = false ∧
  ∃ ino, w_files w' = <[p := ino]> (w_files w) ∧ w_dirs w' = w_dirs w ∧
         tmp_ready {| tmp_fd := fd; tmp_name := p |} w'.
Proof.
  intros (Hdir & Hex & -> & ->)%open_excl_Ok.
  split; [done|]. split; [done|]. eexists. split; [done|]. split; [done|].
  split; simpl.
  - eexists. by rewrite lookup_insert_eq.
  - by rewrite lookup_insert_eq.
Qed.

Lemma mktemp_chmod self t w :
  tmp_ready t w →
  ∃ w', (match fmode self with
         | Some mode => OS.chmod (tmp_name t) mode
         | None => ret tt
         end) w = (Ok tt, w') ∧
        same_tree w w' ∧ tmp_ready t w'.
Proof.
  intros [Hh Hf]. destruct (fmode self) as [mode|].
  - destruct (chmod_file (tmp_name t) mode w Hf) as (w' & -> & Hst & Hhs).
    exists w'. split; [done|]. split; [done|].
    split; [by rewrite Hhs | by rewrite (proj1 Hst)].
  - exists w. by repeat split.
Qed.

Lemma mktemp_inv self name w tmp w' :
  _mktemp self name w = (Ok tmp, w') →
  tmp_name tmp = join (tmproot self) [s2l "_tmp" ++ name] ∧
  ∃ w1 ino, grows w w1 ∧
    is_dir w1 (dirname (tmp_name tmp)) = true ∧
    path_exists w1 (tmp_name tmp) = false ∧
    w_files w' = <[tmp_name tmp := ino]> (w_files w) ∧
    w_dirs w' = w_dirs w1 ∧ tmp_ready tmp w'.
Proof.
  unfold _mktemp. intros (t & w1 & Htry & Hrest)%bind_Ok.
  apply bind_Ok in Hrest as ([] & w2 & Hch & [= -> ->]).
  assert (tmp_name tmp = join (tmproot self) [s2l "_tmp" ++ name] ∧
          ∃ w0, grows w w0 ∧
                File.open_excl (tmp_name tmp) w0 = (Ok (tmp_fd tmp), w1))
    as (Hname & w0 & Hg & Hopen).
  { unfold try_except in Htry.
    destruct (Tempfile.NamedTemporaryFile _ _ _ w) as [[t|e] w0] eqn:Hntf.
    - injection Htry as -> ->. apply ntf_Ok in Hntf as [? ?].
      split; [done|]. exists w. split; [apply grows_refl | done].
    - apply ntf_Raise in Hntf as ->. destruct e; try done.
      apply bind_Ok in Htry as ([] & w3 & Hmk%makedirs_grows & Hntf).
      apply ntf_Ok in Hntf as [? ?]. split; [done|]. by exists w3. }
  split; [done|].
  destruct tmp as [fd p]. simpl in *.
  apply open_excl_staged in Hopen as (Hdir & Hex & ino & Hf & Hd & Hready).
  destruct (mktemp_chmod self _ w1 Hready) as (w3 & Hch' & [Hf3 Hd3] & Hr3).
  simpl in Hch'. rewrite Hch in Hch'. injection Hch' as <-.
  exists w0, ino. split; [done|]. split; [done|]. split; [done|].
  destruct Hg as (Hf0 & _).
  split; [by rewrite Hf3, Hf, Hf0|]. split; [by rewrite Hd3|done].
Qed.

Lemma mktemp_ready self name w :
  let p := join (tmproot self) [s2l "_tmp" ++ name] in
  is_dir w (dirname p) = true → path_exists w p = false →
  ∃ tmp w' ino, _mktemp self name w = (Ok tmp, w') ∧ tmp_name tmp = p ∧
    w_files w' = <[p := ino]> (w_files w) ∧ w_dirs w' = w_dirs w ∧
    tmp_ready tmp w'.
Proof.
  intros p Hdir Hex.
  destruct (File.open_excl p w) as [[fd|e] w1] eqn:Hopen.
  2:{ exfalso. revert Hopen. unfold File.open_excl.
      assert (OS.check_parent p w = (Ok tt, w)) as ->
        by by apply check_parent_Ok.
      by rewrite Hex. }
  pose proof Hopen as (_ & _ & ino & Hf & Hd & Hready)%open_excl_staged.
  destruct (mktemp_chmod self _ w1 Hready) as (w2 & Hch & [Hf2 Hd2] & Hr2).
  exists {| tmp_fd := fd; tmp_name := p |}, w2, ino.
  split; [|by rewrite Hf2, Hd2, Hf, Hd].
  unfold _mktemp.
  erewrite bind_step; [erewrite bind_step; [done | exact Hch]|].
  unfold try_except.
  assert (Tempfile.NamedTemporaryFile (tmproot self) (s2l "_tmp") name w
          = (Ok {| tmp_fd := fd; tmp_name := p |}, w1)) as ->; [|done].
  by apply ntf_Ok.
Qed.

End Staging.

(** ** Hashing a stream *)

Section ComputeHash.
Import Py PosixPath.

(** The lines of a text put together are the text. *)
Lemma lines_concat {A} (is_nl : A → bool) l : concat (lines is_nl l) = l.
Proof.
  induction l as [|c l IH]; simpl; [done|].
  destruct (is_nl c); simpl; [by rewrite IH|].
  destruct (lines is_nl l) as [|h t]; simpl in *; by rewrite <- IH.
Qed.

Lemma utf8_app s t : utf8 (s ++ t) = utf8 s ++ utf8 t.
Proof. unfold utf8. by rewrite map_app, concat_app. Qed.

Lemma utf8_concat l : utf8 (concat l) = concat (map utf8 l).
Proof.
  induction l as [|s l IH]; simpl; [done|]. by rewrite utf8_app, IH.
Qed.

(** The chunks of a stream carry the bytes of the stream. *)
Lemma iter_stream_bytes s :
  concat (map chunk_bytes (iter_stream s)) = stream_bytes s.
Proof.
  destruct s as [s|b]; simpl; rewrite map_map; simpl.
  - by rewrite <- utf8_concat, lines_concat.
  - by rewrite map_id, lines_concat.
Qed.

Lemma iter_stream_data s : forallb is_data (iter_stream s) = true.
Proof.
  destruct s as [s|b]; simpl; rewrite forallb_forall;
    by intros x (? & <- & _)%in_map_iff.
Qed.

Lemma computehash_loop_inv chunks t h w h' w' :
  computehash_loop chunks (Some t) h w = (Ok h', w') →
  same_tree w w' ∧ h' = h ++ concat (map chunk_bytes chunks).
Proof.
  revert h w. induction chunks as [|chunk chunks IH]; intros h w; simpl.
  - intros [= <- <-]. by rewrite app_nil_r.
  - intros (b & w1 & Hb & H)%bind_Ok.
    apply bind_Ok in H as ([] & w2 & Hio & Hloop).
    apply IH in Hloop as [Hst ->].
    apply bind_Ok in Hio as ([] & w3 & [Hst1 _]%write_Ok & Hsz).
    apply bind_Ok in Hsz as (n & w4 & ->%getsize_world & [= <-]).
    unfold lift in Hb. injection Hb as Hb <-. split.
    + by eapply same_tree_trans.
    + unfold update. rewrite <- app_assoc. do 2 f_equal.
      destruct chunk; by simplify_eq.
Qed.

Lemma computehash_loop_ready chunks t h w :
  forallb is_data chunks = true → tmp_ready t w →
  ∃ w', computehash_loop chunks (Some t) h w
        = (Ok (h ++ concat (map chunk_bytes chunks)), w') ∧
        same_tree w w' ∧ tmp_ready t w'.
Proof.
  revert h w. induction chunks as [|chunk chunks IH]; intros h w; simpl.
  - intros _ Hr. exists w. by rewrite app_nil_r.
  - intros [Hc Hcs]%andb_true_iff Hr.
    destruct Hr as [(hd & Hhd & Hopen) Hfile].
    destruct (write_ready (tmp_fd t) (chunk_bytes chunk) w hd Hhd Hopen)
      as [w1 Hw].
    pose proof (tmp_ready_write t _ w w1 Hw
                  (conj (ex_intro _ hd (conj Hhd Hopen)) Hfile)) as Hr1.
    pose proof Hw as [Hst1 _]%write_Ok.
    destruct (getsize_ready (tmp_name t) w1 (proj2 Hr1)) as [n Hn].
    destruct (IH (update h (chunk_bytes chunk)) w1 Hcs Hr1)
      as (w' & Hloop & Hst & Hr').
    exists w'. split; [|split; [by eapply same_tree_trans | done]].
    erewrite bind_step; cycle 1.
    { unfold lift. instantiate (1 := w). instantiate (1 := chunk_bytes chunk).
      by destruct chunk. }
    erewrite bind_step; cycle 1.
    { erewrite bind_step; [|exact Hw].
      erewrite bind_step; [|exact Hn]. done. }
    rewrite Hloop. unfold update. by rewrite <- app_assoc.
Qed.

(** [computehash] gives the digest of the bytes of the stream, and
    leaves the names of the file system as they are. *)
Lemma computehash_inv self s t w d w' :
  computehash self s (Some t) w = (Ok d, w') →
  d = hexdigest_of (algorithm self) (stream_bytes s) ∧ same_tree w w'.
Proof.
  unfold computehash. intros (h & w1 & Hloop & H)%bind_Ok.
  apply computehash_loop_inv in Hloop as [Hst ->].
  apply bind_Ok in H as ([] & w2 & Hio & [= <- <-]).
  apply bind_Ok in Hio as ([] & w3 & Hcl%close_Ok & Hsz).
  apply bind_Ok in Hsz as (n & w4 & ->%getsize_world & [= <-]).
  simpl. rewrite iter_stream_bytes. split; [done|].
  by eapply same_tree_trans.
Qed.

Lemma computehash_ready self s t w :
  tmp_ready t w →
  ∃ w', computehash self s (Some t) w
        = (Ok (hexdigest_of (algorithm self) (stream_bytes s)), w') ∧
        same_tree w w'.
Proof.
  intros Hr.
  destruct (computehash_loop_ready (iter_stream s) t [] w
              (iter_stream_data s) Hr) as (w1 & Hloop & Hst & Hr1).
  destruct Hr1 as [(hd & Hhd & _) Hfile].
  destruct (close_ready _ _ _ Hhd) as [w2 Hcl].
  pose proof Hcl as Hst2%close_Ok.
  assert (is_Some (w_files w2 !! tmp_name t)) as Hfile2
    by by rewrite (proj1 Hst2).
  destruct (getsize_ready _ _ Hfile2) as [n Hn].
  exists w2. split; [|by eapply same_tree_trans].
  unfold computehash.
  erewrite bind_step; [|exact Hloop].
  erewrite bind_step; cycle 1.
  { erewrite bind_step; [|exact Hcl].
    erewrite bind_step; [|exact Hn]. done. }
  simpl. by rewrite iter_stream_bytes.
Qed.

End ComputeHash.

(** ** Heads of paths and the directories [makedirs] creates *)

Section Heads.
Import Py PosixPath.

Lemma cut_last_sep_app p h t : cut_last_sep p = Some (h, t) → p = h ++ t.
Proof.
  revert h t. induction p as [|c p IH]; intros h t; simpl; [done|].
  destruct (cut_last_sep p) as [[h' t']|].
  - intros [= <- <-]. by rewrite (IH h' t').
  - destruct (is_sep c); [by intros [= <- <-] | done].
Qed.

Lemma cut_last_sep_None x : contains_sep x = false → cut_last_sep x = None.
Proof.
  unfold contains_sep. induction x as [|c x IH]; simpl; [done|].
  intros [Hc Hx]%orb_false_iff. by rewrite (IH Hx), Hc.
Qed.

Lemma cut_last_sep_last h x :
  contains_sep x = false →
  cut_last_sep (h ++ sep :: x) = Some (h ++ [sep], x).
Proof.
  intros Hx. induction h as [|c h IH]; simpl.
  - by rewrite (cut_last_sep_None x Hx).
  - by rewrite IH.
Qed.

Lemma lstrip_sep_suffix s : lstrip_sep s `suffix_of` s.
Proof.
  induction s as [|c s IH]; simpl; [done|].
  destruct (is_sep c); [by apply suffix_cons_r | done].
Qed.

Lemma rstrip_sep_prefix s : rstrip_sep s `prefix_of` s.
Proof.
  unfold rstrip_sep. rewrite <- (reverse_involutive s) at 2.
  apply suffix_prefix_reverse, lstrip_sep_suffix.
Qed.

Lemma path_split_prefix p : (path_split p).1 `prefix_of` p.
Proof.
  unfold path_split. destruct (cut_last_sep p) as [[h t]|] eqn:Hcut; simpl.
  - apply cut_last_sep_app in Hcut as ->.
    destruct (forallb is_sep h); [by apply prefix_app_r|].
    etrans; [apply rstrip_sep_prefix | by apply prefix_app_r].
  - apply prefix_nil.
Qed.

(** The directory of a file joined to [t] depends on [t] only. *)
Lemma dirname_join_step t x y :
  x ≠ [] → y ≠ [] → contains_sep x = false → contains_sep y = false →
  dirname (join_step t x) = dirname (join_step t y).
Proof.
  intros Hx Hy Hsx Hsy.
  assert (∀ z, z ≠ [] → contains_sep z = false →
            join_step t z =
            if bool_decide (t = []) || endswith_sep t
            then t ++ z else t ++ sep :: z) as Hjoin.
  { intros [|c z] Hz Hsz; [done|]. unfold join_step.
    unfold contains_sep in Hsz. simpl in Hsz.
    by apply orb_false_iff in Hsz as [-> _]. }
  rewrite !Hjoin by done. unfold dirname, path_split.
  case_bool_decide as Ht; simpl.
  { subst t. simpl. by rewrite !cut_last_sep_None. }
  unfold endswith_sep. destruct (last t) as [c|] eqn:Hlast.
  2:{ by rewrite !cut_last_sep_last. }
  destruct (is_sep c) eqn:Hc; [|by rewrite !cut_last_sep_last].
  apply is_sep_true in Hc as ->. apply last_Some in Hlast as [t' ->].
  rewrite <- !app_assoc. simpl. by rewrite !cut_last_sep_last.
Qed.

Lemma mkdir_new p mode w r w' q :
  OS.mkdir p mode w = (r, w') →
  is_Some (w_dirs w' !! q) → is_Some (w_dirs w !! q) ∨ q = p.
Proof.
  unfold OS.mkdir. case_bool_decide; [intros [= _ <-]; auto|].
  destruct (OS.check_parent p w) as [[[]|e1] w1] eqn:Hpar.
  - destruct (path_exists w p); intros [= _ <-]; [auto|]. simpl.
    destruct (decide (p = q)) as [->|Hne]; [auto|].
    rewrite lookup_insert_ne by done. auto.
  - apply check_parent_world in Hpar as ->. intros [= _ <-]. auto.
Qed.

(** [makedirs] creates nothing but heads of the path it is given. *)
Lemma makedirs_rec_new fuel name mode w r w' q :
  OS.makedirs_rec fuel name mode w = (r, w') →
  is_Some (w_dirs w' !! q) → is_Some (w_dirs w !! q) ∨ q `prefix_of` name.
Proof.
  revert name mode w r w'.
  induction fuel as [|fuel IH]; intros name mode w r w'; simpl.
  { intros [= _ <-]. auto. }
  pose proof (path_split_prefix name) as Hhead0.
  destruct (path_split name) as [head0 tail0]. simpl in Hhead0.
  assert (∀ head tail,
    (if bool_decide (tail0 = []) then path_split head0 else (head0, tail0))
    = (head, tail) → head `prefix_of` name) as Hhead.
  { intros head tail. case_bool_decide.
    - pose proof (path_split_prefix head0) as H1.
      destruct (path_split head0). intros [= <- <-]. by etrans.
    - by intros [= <- <-]. }
  destruct (if bool_decide (tail0 = []) then path_split head0
            else (head0, tail0)) as [head tail].
  specialize (Hhead head tail eq_refl).
  assert (∀ w1 r1 w2, OS.mkdir name mode w1 = (r1, w2) →
            is_Some (w_dirs w2 !! q) →
            is_Some (w_dirs w1 !! q) ∨ q `prefix_of` name) as Hmk.
  { intros w1 r1 w2 Hm Hq.
    destruct (mkdir_new _ _ _ _ _ q Hm Hq) as [? | ->]; auto. }
  unfold bind at 1, get_world.
  destruct (_ && _ && _); [|apply Hmk].
  unfold bind, try_except.
  destruct (OS.makedirs_rec fuel head 511 w) as [[[]|e] w1] eqn:Hrec.
  - case_bool_decide.
    + intros [= _ <-] Hq.
      destruct (IH _ _ _ _ _ Hrec Hq) as [?|?]; [auto|].
      right. by etrans.
    + intros Hm Hq. destruct (Hmk _ _ _ Hm Hq) as [Hq1|?]; [|auto].
      destruct (IH _ _ _ _ _ Hrec Hq1) as [?|?]; [auto|].
      right. by etrans.
  - assert (∀ w2, is_Some (w_dirs w2 !! q) → w2 = w1 →
              is_Some (w_dirs w !! q) ∨ q `prefix_of` name) as Hsame.
    { intros w2 Hq ->. destruct (IH _ _ _ _ _ Hrec Hq) as [?|?]; [auto|].
      right. by etrans. }
    destruct e; try (intros [= _ <-] Hq; by eapply Hsame).
    unfold ret. case_bool_decide.
    + intros [= _ <-] Hq. by eapply Hsame.
    + intros Hm Hq. destruct (Hmk _ _ _ Hm Hq) as [Hq1|?]; [|auto].
      by eapply Hsame.
Qed.

End Heads.

(** ** Putting content *)

Section Put.
Import Py PosixPath.

Lemma putstr_inv self src name w a w' :
  putstr self src name w = (Ok a, w') →
  ∃ stream_ tmp w1 w2,
    (match new_StringIO src with
     | Raise TypeError => new_BytesIO src
     | r => r
     end) = Ok stream_ ∧
    _mktemp self name w = (Ok tmp, w1) ∧
    computehash self stream_ (Some tmp) w1 = (Ok (digest a), w2) ∧
    digestpath self (digest a) = Ok (abspath a) ∧
    _mvtemp self (tmp_name tmp) (abspath a) w2 = (Ok (is_duplicate a), w').
Proof.
  unfold putstr. intros (stream_ & w0 & Hs & H)%bind_Ok.
  unfold lift in Hs. injection Hs as Hs <-.
  apply bind_Ok in H as (tmp & w1 & Htmp & H).
  apply bind_Ok in H as (d & w2 & Hd & H).
  apply bind_Ok in H as (fp & w3 & Hfp & H).
  unfold lift in Hfp. injection Hfp as Hfp <-.
  apply bind_Ok in H as (dup & w4 & Hmv & [= <- <-]).
  by exists stream_, tmp, w1, w2.
Qed.

(** The commit of a staged file whose final path is taken. *)
Lemma mvtemp_duplicate self tmp filepath w :
  is_Some (w_files w !! tmp) → is_dir w (dirname filepath) = true →
  path_exists w filepath = true →
  _mvtemp self tmp filepath w
  = (Ok true, set_files (base.delete tmp (w_files w)) w).
Proof.
  intros [ino Hino] Hdir Hex. unfold _mvtemp.
  assert (OS.link tmp filepath w = (Raise FileExistsError, w)) as Hlink.
  { unfold OS.link.
    assert (path_exists w tmp = true) as ->.
    { unfold path_exists, is_file. by rewrite Hino, bool_decide_true. }
    simpl.
    assert (OS.check_parent filepath w = (Ok tt, w)) as ->
      by by apply check_parent_Ok.
    by rewrite Hex. }
  unfold bind at 1, try_except, bind at 1. rewrite Hlink.
  unfold bind, OS.unlink. by rewrite Hino.
Qed.

(** The last segment of a path that ends in a name without separator
    ends in that name. *)
Lemma last_split_app_no_sep t x :
  contains_sep x = false → ∃ l, last (split (t ++ x)) = Some (l ++ x).
Proof.
  intros Hx. induction t as [|c t [l IH]]; simpl.
  - exists []. by rewrite (split_no_sep x Hx).
  - pose proof (split_nonempty (t ++ x)) as Hne.
    destruct (is_sep c).
    + exists l. destruct (split (t ++ x)); [done|]. by rewrite last_cons, IH.
    + destruct (split (t ++ x)) as [|h [|h' tl]]; [done|..].
      * exists (c :: l). simpl in *. by injection IH as ->.
      * exists l. by rewrite last_cons_cons in IH |- *.
Qed.

(** A staged file is never at the final path of a digest: its name
    starts with an underscore, which no digest holds. *)
Lemma tmppath_not_final self name y d :
  contains_sep name = false → forallb is_hexdigit d = true →
  tmppath self name ≠ y ++ sep :: d.
Proof.
  intros Hname Hd Heq.
  assert (contains_sep (s2l "_tmp" ++ name) = false) as Hx
    by by rewrite contains_sep_app, Hname.
  assert (∃ t, tmppath self name = t ++ (s2l "_tmp" ++ name)) as [t Ht].
  { change (tmppath self name)
      with (join_step (tmproot self) (s2l "_tmp" ++ name)).
    destruct (join_step_no_sep (tmproot self) _ Hx) as [-> | ->].
    - by eexists.
    - exists (tmproot self ++ [sep]). by rewrite <- app_assoc. }
  destruct (last_split_app_no_sep t _ Hx) as [l Hl].
  rewrite <- Ht, Heq, split_app_sep, (split_no_sep d (hex_no_sep d Hd)),
    last_snoc in Hl.
  injection Hl as ->. rewrite forallb_app in Hd. simpl in Hd.
  by apply andb_true_iff in Hd as [_ ?].
Qed.

(** The final path of a digest lies below the root. *)
Lemma final_below_root self d :
  0 < depth self → 0 < width self → d ≠ [] → contains_sep d = false →
  startswith (join (root self) (shard self d)) (OS.below (root self)) = true.
Proof.
  intros Hdepth Hwidth Hne Hd. apply startswith_prefix.
  pose proof (shard_no_sep self d Hd) as Hns.
  pose proof (compact_nonempty
    (map (λ i, slice d (i * width self) (width self * (i + 1)))
         (seq 0 (depth self)) ++ [d])) as Hnn.
  fold (shard self d) in Hnn.
  destruct (shard self d) as [|s1 rest] eqn:Hs.
  { exfalso. revert Hs. unfold shard, compact. rewrite filter_app.
    rewrite (filter_cons_True _ d) by done. by destruct (filter _ _). }
  apply Forall_cons in Hns as [Hs1 Hrest].
  apply Forall_cons in Hnn as [Hn1 _].
  unfold join. simpl. etrans; [|by apply join_prefix].
  unfold OS.below, join_step.
  destruct s1 as [|c s1]; [done|].
  unfold contains_sep in Hs1. simpl in Hs1.
  apply orb_false_iff in Hs1 as [-> _].
  destruct (_ || _); [by eexists|].
  exists (c :: s1). by rewrite <- app_assoc.
Qed.

(** A new file below [top] is one more file for [os.walk]. *)
Lemma walk_files_insert top w w' p ino :
  w_files w' = <[p := ino]> (w_files w) → w_files w !! p = None →
  startswith p (OS.below top) = true →
  OS.walk_files top w' ≡ₚ p :: OS.walk_files top w.
Proof.
  intros Hf Hnone Hp. unfold OS.walk_files. rewrite Hf.
  rewrite (map_to_list_insert _ _ _ Hnone). simpl.
  by rewrite filter_cons_True.
Qed.

(** Staging creates no directory outside the heads of the staging
    root. *)
Lemma mktemp_new_dirs self name w tmp w' q :
  _mktemp self name w = (Ok tmp, w') →
  is_Some (w_dirs w' !! q) →
  is_Some (w_dirs w !! q) ∨ q `prefix_of` tmproot self.
Proof.
  unfold _mktemp. intros (t & w1 & Htry & Hrest)%bind_Ok.
  apply bind_Ok in Hrest as ([] & w2 & Hch & [= -> ->]).
  assert (∃ w0, File.open_excl (tmp_name tmp) w0 = (Ok (tmp_fd tmp), w1) ∧
                (is_Some (w_dirs w0 !! q) →
                 is_Some (w_dirs w !! q) ∨ q `prefix_of` tmproot self))
    as (w0 & Hopen & Hnew).
  { unfold try_except in Htry.
    destruct (Tempfile.NamedTemporaryFile _ _ _ w) as [[t|e] w0] eqn:Hntf.
    - injection Htry as -> ->. apply ntf_Ok in Hntf as [? ?].
      exists w. auto.
    - apply ntf_Raise in Hntf as ->. destruct e; try done.
      apply bind_Ok in Htry as ([] & w3 & Hmk & Hntf).
      apply ntf_Ok in Hntf as [? ?]. exists w3. split; [done|].
      by eapply makedirs_rec_new. }
  destruct tmp as [fd p]. simpl in *.
  apply open_excl_staged in Hopen as (_ & _ & ino & _ & Hd & Hready).
  destruct (mktemp_chmod self _ w1 Hready) as (w3 & Hch' & [_ Hd3] & _).
  simpl in Hch'. rewrite Hch in Hch'. injection Hch' as <-.
  rewrite Hd3, Hd. exact Hnew.
Qed.

Lemma lower_hex_all s :
  forallb is_lower_hex s = true → forallb is_hexdigit s = true.
Proof.
  rewrite !forallb_forall. intros H c Hc.
  by apply lower_hex_hexdigit, H.
Qed.

Lemma path_exists_false w p :
  path_exists w p = false ↔
  w_files w !! p = None ∧ forallb is_sep p = false ∧ w_dirs w !! p = None.
Proof.
  unfold path_exists, is_file, is_dir.
  rewrite !orb_false_iff, !bool_decide_eq_false, <- !eq_None_not_Some.
  tauto.
Qed.

(** Putting the same source twice: the second put finds the file of
    the first. *)
Lemma putstr_twice self src n1 n2 w0 a1 w1 :
  constructed self → hashlib_contract (algorithm self) →
  contains_sep n1 = false → contains_sep n2 = false →
  putstr self src n1 w0 = (Ok a1, w1) →
  path_exists w0 (abspath a1) = false →
  ¬ abspath a1 `prefix_of` tmproot self →
  path_exists w1 (tmppath self n2) = false →
  ∃ a2 w2, putstr self src n2 w1 = (Ok a2, w2) ∧
    is_duplicate a1 = false ∧ is_duplicate a2 = true ∧
    digest a2 = digest a1 ∧ abspath a2 = abspath a1 ∧
    is_file w2 (abspath a1) = true ∧
    OS.walk_files (root self) w2
      ≡ₚ abspath a1 :: OS.walk_files (root self) w0.
Proof.
  intros Hc Halg Hn1 Hn2 Hput Hnew Hstage Hfresh2.
  destruct (constructed_inv self Hc) as (Hdepth & Hwidth & Hdl).
  destruct (putstr_inv _ _ _ _ _ _ Hput)
    as (st & tmp & wa & wb & Hst & Hmk & Hch & Hdp & Hmv).
  pose proof (mktemp_new_dirs _ _ _ _ _ (abspath a1) Hmk) as Hnewdirs.
  apply mktemp_inv in Hmk
    as (Htmp & wm & ino & Hgm & Hdirm & Hexm & Hfa & Hda & _).
  change (join _ _) with (tmppath self n1) in Htmp.
  apply computehash_inv in Hch as [Hdig [Hfb Hdb]].
  pose proof Hdp as (Hlen & Hsep & Hfp)%digestpath_Ok.
  assert (forallb is_hexdigit (digest a1) = true) as Hhex.
  { rewrite Hdig. apply lower_hex_all, Halg. }
  assert (digest a1 ≠ []) as Hne.
  { intros E. rewrite E in Hlen. simpl in Hlen.
    pose proof (constructed_digestlen_pos self Hc Halg). lia. }
  destruct (join_shard_last self _ Hdepth Hwidth Hne Hsep) as [y Hy].
  rewrite <- Hfp in Hy.
  assert (tmp_name tmp ≠ abspath a1) as Htf.
  { rewrite Htmp, Hy. by apply tmppath_not_final. }
  apply path_exists_false in Hnew as (Hf0 & Hs0 & Hd0).
  apply path_exists_false in Hexm as (Hfm & _ & _).
  rewrite (proj1 Hgm) in Hfm.
  (* the final path is free when the first commit starts *)
  assert (path_exists wb (abspath a1) = false) as Hfree.
  { apply path_exists_false. rewrite Hfb, Hdb, Hfa.
    rewrite lookup_insert_ne by done. split; [done|]. split; [done|].
    apply eq_None_not_Some. intros Hsome.
    destruct (Hnewdirs Hsome) as [[? ?]|?]; [congruence | done]. }
  apply mvtemp_inv in Hmv
    as [(_ & Hex & _)|(Hdup1 & _ & ino' & wc & Hgc & Hino & Hdirc & Hw1)];
    [congruence|].
  rewrite Hfb, Hfa, lookup_insert_eq in Hino. injection Hino as <-.
  assert (w_files w1 = <[abspath a1 := ino]> (w_files w0)) as Hf1.
  { rewrite Hw1. simpl. rewrite Hfb, Hfa.
    rewrite delete_insert_ne by done. by rewrite delete_insert_id. }
  assert (w_dirs w1 = w_dirs wc) as Hd1 by by rewrite Hw1.
  (* the second put *)
  assert (is_dir w1 (dirname (tmppath self n2)) = true) as Hdir2.
  { unfold is_dir in *. rewrite Hd1.
    assert (dirname (tmppath self n2) = dirname (tmp_name tmp)) as ->.
    { rewrite Htmp. apply dirname_join_step; try done;
        by rewrite contains_sep_app, ?Hn1, ?Hn2. }
    apply orb_true_iff in Hdirm as [->|Hdirm]; [done|].
    apply orb_true_iff. right.
    apply bool_decide_eq_true in Hdirm as [m Hm].
    apply bool_decide_eq_true. exists m.
    destruct Hgc as (_ & _ & _ & Hsub).
    eapply lookup_weaken; [|exact Hsub]. by rewrite Hdb, Hda. }
  destruct (mktemp_ready self n2 w1 Hdir2 Hfresh2)
    as (tmp2 & w1a & ino2 & Hmk2 & Htmp2 & Hf1a & Hd1a & Hready2).
  destruct (computehash_ready self st tmp2 w1a Hready2)
    as (w1b & Hch2 & [Hf1b Hd1b]).
  apply path_exists_false in Hfresh2 as (Hf2 & _ & _).
  assert (_mvtemp self (tmp_name tmp2) (abspath a1) w1b
          = (Ok true, set_files (base.delete (tmp_name tmp2) (w_files w1b))
                        w1b)) as Hmv2.
  { apply mvtemp_duplicate.
    - rewrite Hf1b, Hf1a, Htmp2. by rewrite lookup_insert_eq.
    - unfold is_dir in *. by rewrite Hd1b, Hd1a, Hd1.
    - unfold path_exists, is_file. rewrite Hf1b, Hf1a, Hf1.
      apply orb_true_iff. left. apply bool_decide_eq_true.
      apply lookup_insert_is_Some'. right.
      by rewrite lookup_insert_eq. }
  eexists _, _. split.
  { unfold putstr.
    erewrite bind_step; [|unfold lift; by rewrite Hst].
    erewrite bind_step; [|exact Hmk2].
    erewrite bind_step; [|exact Hch2].
    erewrite bind_step; [|unfold lift; by rewrite <- Hdig, Hdp].
    erewrite bind_step; [|exact Hmv2]. done. }
  simpl. split; [done|]. split; [done|]. split; [done|]. split; [done|].
  assert (base.delete (tmp_name tmp2) (w_files w1b)
          = <[abspath a1 := ino]> (w_files w0)) as Hf2b.
  { rewrite Hf1b, Hf1a, Htmp2. rewrite delete_insert_id by done. done. }
  split.
  - unfold is_file. simpl. rewrite Hf2b, lookup_insert_eq.
    by apply bool_decide_eq_true.
  - eapply walk_files_insert; [exact Hf2b | done |].
    rewrite Hfp. by apply final_below_root.
Qed.

End Put.

(** ** Deduplication *)

Section Dedup.
Import Py PosixPath.

(** C1.  Whenever the commit of a staged file returns, its flag is
    [True] exactly when the final path existed before; in that case the
    staged name is removed and nothing else changes (no file is read or
    compared, the file at the final path keeps its inode and bytes).
    And putting the same source twice, into a store that does not hold
    it yet, gives [is_duplicate = False] the first time and [True] the
    second time, with the same digest and path, and the store holds
    exactly one file more than before. *)
Theorem commit_dedup :
  (∀ self tmp filepath w b w',
     _mvtemp self tmp filepath w = (Ok b, w') →
     (b = true ↔ path_exists w filepath = true) ∧
     (b = true →
      w' = set_files (base.delete tmp (w_files w)) w ∧
      w_inodes w' = w_inodes w ∧
      (tmp ≠ filepath →
       w_files w' !! filepath = w_files w !! filepath))) ∧
  (∀ self src n1 n2 w0 a1 w1,
     constructed self → hashlib_contract (algorithm self) →
     contains_sep n1 = false → contains_sep n2 = false →
     putstr self src n1 w0 = (Ok a1, w1) →
     path_exists w0 (abspath a1) = false →
     ¬ abspath a1 `prefix_of` tmproot self →
     path_exists w1 (tmppath self n2) = false →
     ∃ a2 w2, putstr self src n2 w1 = (Ok a2, w2) ∧
       is_duplicate a1 = false ∧ is_duplicate a2 = true ∧
       digest a2 = digest a1 ∧ abspath a2 = abspath a1 ∧
       is_file w2 (abspath a1) = true ∧
       OS.walk_files (root self) w2
         ≡ₚ abspath a1 :: OS.walk_files (root self) w0).
Proof.
  split.
  - intros self tmp filepath w b w' H.
    apply mvtemp_inv in H as [(-> & Hex & _ & ->)|(-> & Hex & _)].
    + split; [done|]. intros _. split; [done|]. split; [done|].
      intros Hne. simpl. by rewrite lookup_delete_ne.
    + split; [|done]. split; [done | congruence].
  - apply putstr_twice.
Qed.

Lemma commit_dedup_witness :
  let put1 := putstr Example.store (VStr (s2l "foo")) Example.name1
                Example.world0 in
  ∃ a1 a2 w2,
    put1.1 = Ok a1 ∧
    putstr Example.store (VStr (s2l "foo")) Example.name2 put1.2
      = (Ok a2, w2) ∧
    is_duplicate a1 = false ∧ is_duplicate a2 = true ∧
    digest a2 = digest a1 ∧ abspath a2 = abspath a1 ∧
    is_file w2 (abspath a1) = true ∧
    OS.walk_files (root Example.store) w2
      ≡ₚ abspath a1 :: OS.walk_files (root Example.store) Example.world0.
Proof.
  intros put1.
  pose (a1 := {| digest := s2l "bf40"; fs := Example.store;
                 abspath := Example.final; is_duplicate := false |}).
  assert (put1 = (Ok a1, put1.2)) as Hput1 by (vm_compute; reflexivity).
  destruct (proj2 commit_dedup Example.store (VStr (s2l "foo"))
              Example.name1 Example.name2 Example.world0 a1 put1.2)
    as (a2 & w2 & H).
  - reflexivity.
  - apply toy_hash_contract. simpl. lia.
  - reflexivity.
  - reflexivity.
  - exact Hput1.
  - vm_compute. reflexivity.
  - intros [k Hk]. vm_compute in Hk. discriminate Hk.
  - vm_compute. reflexivity.
  - exists a1, a2, w2. split; [by rewrite Hput1|]. exact H.
Defined.

(** C10.  A digest that [digestpath] accepts is turned into a path that
    starts with the root, so the assertion of [delete] holds and
    [delete] never ends in an [AssertionError]: it removes the file at
    the path of the digest, or ends with the error of [os.remove]. *)
Theorem delete_assertion_holds self d p w :
  digestpath self d = Ok p →
  startswith p (root self) = true ∧
  (delete self d w).1 ≠ Raise AssertionError ∧
  delete self d w = (OS.unlink p ;;; ret true) w.
Proof.
  intros Hp. pose proof (digestpath_startswith self d p Hp) as Hstart.
  assert (delete self d w = (OS.unlink p ;;; ret true) w) as Heq.
  { unfold delete. unfold bind at 1, lift. by rewrite Hp, Hstart. }
  split; [done|]. split; [|done].
  rewrite Heq. unfold bind, OS.unlink, ret.
  destruct (w_files w !! p); [done|].
  destruct (is_dir w p); [done|]. by destruct (is_file w (dirname p)).
Qed.

Lemma delete_assertion_holds_witness :
  startswith Example.final (root Example.store) = true ∧
  (delete Example.store (s2l "bf40")
     (Example.committed Example.name1 Example.world0)).1
    ≠ Raise AssertionError ∧
  delete Example.store (s2l "bf40")
    (Example.committed Example.name1 Example.world0)
  = (OS.unlink Example.final ;;; ret true)
      (Example.committed Example.name1 Example.world0).
Proof.
  apply (delete_assertion_holds Example.store (s2l "bf40") Example.final).
  reflexivity.
Defined.

End Dedup.

(** ** Hashing a file object *)

Section HashReadable.
Import Py PosixPath.

Lemma block_size_pos : 0 < block_size.
Proof. unfold block_size. lia. Qed.

Local Opaque block_size.

Lemma take_drop_length {A} n (l : list A) :
  take n l ++ drop (length (take n l)) l = l.
Proof.
  rewrite length_take. destruct (decide (n ≤ length l)).
  - rewrite Nat.min_l by done. apply take_drop.
  - rewrite Nat.min_r by lia. rewrite take_ge, drop_all by lia.
    apply app_nil_r.
Qed.

Lemma take_block_nil {A} (l : list A) : take block_size l = [] → l = [].
Proof.
  pose proof block_size_pos. destruct block_size; [lia|]. by destruct l.
Qed.

(** Reading from a binary file object that is open. *)
Lemma read_binary fd n w hsrc :
  w_handles w !! fd = Some hsrc → h_binary hsrc = true →
  h_closed hsrc = false →
  let chunk := take n (drop (h_pos hsrc) (data_of w (h_ino hsrc))) in
  File.read fd n w
  = (Ok (VBytes chunk),
     set_handles (<[fd := File.with_pos hsrc (h_pos hsrc + length chunk)]>
                    (w_handles w)) w).
Proof.
  intros Hh Hb Hc chunk. unfold File.read.
  erewrite bind_step; [|by apply opened_Ok].
  unfold bind, get_world, File.set_pos, ret. by rewrite Hb.
Qed.

Lemma data_of_alter_ne w ino ino' f :
  ino ≠ ino' →
  data_of (set_inodes (alter f ino (w_inodes w)) w) ino' = data_of w ino'.
Proof. intros Hne. unfold data_of. simpl. by rewrite lookup_alter_ne. Qed.

(** Mirroring a chunk into the staging file leaves the file that is read
    alone. *)
Lemma tmp_write_apart tmp fd hsrc b w :
  w_handles w !! fd = Some hsrc → reads_apart tmp fd hsrc w →
  ∃ w', tmp_write tmp b w = (Ok tt, w') ∧ same_tree w w' ∧
        w_handles w' !! fd = Some hsrc ∧ reads_apart tmp fd hsrc w' ∧
        data_of w' (h_ino hsrc) = data_of w (h_ino hsrc) ∧
        (∀ fd', other_handle tmp fd fd' →
                w_handles w' !! fd' = w_handles w !! fd').
Proof.
  intros Hh Hapart. destruct tmp as [t|]; simpl in *.
  2:{ exists w. by repeat split. }
  destruct Hapart as (Hne & ht & Hht & Hopen & Hino).
  unfold File.write. erewrite bind_step; [|by apply opened_Ok].
  unfold bind, File.set_pos. eexists. split; [done|]. split; [done|]. simpl.
  split; [by rewrite lookup_insert_ne|]. split.
  - split; [done|]. eexists. rewrite lookup_insert_eq. by repeat split.
  - split; [by apply data_of_alter_ne|].
    intros fd' [_ Hfd']. by rewrite lookup_insert_ne.
Qed.

(** The loop of [hash_readable] hashes the bytes from the offset to the
    end of the file, however they are cut into blocks, and moves nothing
    but the offset of the file object it reads. *)
Lemma read_loop_ok fuel fd tmp hs w hsrc :
  w_handles w !! fd = Some hsrc → h_binary hsrc = true →
  h_closed hsrc = false → reads_apart tmp fd hsrc w →
  length (data_of w (h_ino hsrc)) - h_pos hsrc < fuel →
  ∃ w' pos',
    read_loop fuel fd tmp hs w
    = (Ok (hs ++ drop (h_pos hsrc) (data_of w (h_ino hsrc))), w') ∧
    same_tree w w' ∧
    w_handles w' !! fd = Some (File.with_pos hsrc pos') ∧
    reads_apart tmp fd hsrc w' ∧
    data_of w' (h_ino hsrc) = data_of w (h_ino hsrc) ∧
    (∀ fd', other_handle tmp fd fd' →
            w_handles w' !! fd' = w_handles w !! fd').
Proof.
  revert hs w hsrc.
  induction fuel as [|fuel IH]; intros hs w hsrc Hh Hb Hc Hapart Hfuel;
    [lia|].
  cbn [read_loop].
  erewrite bind_step; [|by apply read_binary].
  set (data := data_of w (h_ino hsrc)) in *.
  remember (take block_size (drop (h_pos hsrc) data)) as chunk eqn:Hchunk.
  set (hsrc1 := File.with_pos hsrc (h_pos hsrc + length chunk)).
  set (w1 := set_handles _ w).
  assert (w_handles w1 !! fd = Some hsrc1) as Hh1.
  { subst w1. simpl. by rewrite lookup_insert_eq. }
  assert (reads_apart tmp fd hsrc1 w1) as Hapart1.
  { destruct tmp as [t|]; [|done].
    destruct Hapart as (Hne & ht & Hht & Hopen & Hino).
    split; [done|]. exists ht. subst w1. simpl.
    by rewrite lookup_insert_ne. }
  assert (∀ fd', fd' ≠ fd → w_handles w1 !! fd' = w_handles w !! fd')
    as Hother1.
  { intros fd' Hfd'. subst w1. simpl. by rewrite lookup_insert_ne. }
  destruct (decide (chunk = [])) as [Hnil|Hne].
  - (* the empty block: the end of the file *)
    rewrite Hnil in *. symmetry in Hchunk. apply take_block_nil in Hchunk.
    rewrite Hchunk, app_nil_r.
    exists w1, (h_pos hsrc + 0). unfold ret. split; [done|].
    split; [done|]. split; [by rewrite Hh1; subst hsrc1; rewrite Hnil|].
    split; [done|]. split; [done|].
    intros fd' [Hfd' _]. by apply Hother1.
  - assert (0 < length chunk) as Hlen by (destruct chunk; simpl; [done|lia]).
    destruct (tmp_write_apart tmp fd hsrc1 chunk w1 Hh1 Hapart1)
      as (w2 & Hw & Hst2 & Hh2 & Hapart2 & Hdata2 & Hother2).
    assert (data_of w2 (h_ino hsrc1) = data) as Hd2 by by rewrite Hdata2.
    destruct (IH (update hs chunk) w2 hsrc1 Hh2 Hb Hc Hapart2)
      as (w' & pos' & Hloop & Hst & Hh' & Hapart' & Hdata' & Hother').
    { rewrite Hd2. subst hsrc1. simpl.
      assert (length chunk ≤ length data - h_pos hsrc)
        by (rewrite Hchunk, length_take, length_drop; lia).
      lia. }
    exists w', pos'. split.
    { assert (∀ (A B : io hasher),
                match chunk with [] => A | _ :: _ => B end = B) as ->
        by (intros; by destruct chunk).
      erewrite bind_step; [|exact Hw].
      rewrite Hloop, Hd2. unfold update. subst hsrc1. cbn [h_pos File.with_pos].
      rewrite <- app_assoc. do 2 f_equal.
      rewrite <- (take_drop_length block_size (drop (h_pos hsrc) data)) at 1.
      rewrite <- Hchunk. by rewrite drop_drop. }
    split; [by eapply same_tree_trans|]. split; [done|].
    split; [done|]. split; [exact (eq_trans Hdata' Hd2)|].
    intros fd' Hfd'. rewrite (Hother' fd' Hfd'), (Hother2 fd' Hfd').
    apply Hother1, Hfd'.
Qed.

Lemma tmp_close_apart tmp fd hsrc w :
  w_handles w !! fd = Some hsrc → reads_apart tmp fd hsrc w →
  ∃ w', tmp_close tmp w = (Ok tt, w') ∧ same_tree w w' ∧
        w_handles w' !! fd = Some hsrc ∧
        w_inodes w' = w_inodes w ∧
        (∀ fd', other_handle tmp fd fd' →
                w_handles w' !! fd' = w_handles w !! fd').
Proof.
  intros Hh Hapart. destruct tmp as [t|]; simpl in *.
  2:{ exists w. by repeat split. }
  destruct Hapart as (Hne & ht & Hht & Hopen & Hino).
  unfold File.close. rewrite Hht. eexists. split; [done|]. split; [done|].
  simpl. split; [by rewrite lookup_insert_ne|]. split; [done|].
  intros fd' [_ Hfd']. by rewrite lookup_insert_ne.
Qed.

(** [hash_readable] on a binary file object that is open returns the
    digest of the bytes from its offset on: the bound on the number of
    rounds is never met. *)
Lemma hash_readable_ok fd alg tmp w hsrc :
  w_handles w !! fd = Some hsrc → h_binary hsrc = true →
  h_closed hsrc = false → reads_apart tmp fd hsrc w →
  ∃ w' pos',
    hash_readable fd alg tmp w
    = (Ok (hexdigest_of alg (drop (h_pos hsrc) (data_of w (h_ino hsrc)))),
       w') ∧
    same_tree w w' ∧
    w_handles w' !! fd = Some (File.with_pos hsrc pos') ∧
    data_of w' (h_ino hsrc) = data_of w (h_ino hsrc) ∧
    (∀ fd', other_handle tmp fd fd' →
            w_handles w' !! fd' = w_handles w !! fd').
Proof.
  intros Hh Hb Hc Hapart. unfold hash_readable.
  unfold bind at 1, get_world. rewrite Hh.
  destruct (read_loop_ok (S (length (data_of w (h_ino hsrc)))) fd tmp [] w
              hsrc Hh Hb Hc Hapart)
    as (w1 & pos' & Hloop & Hst1 & Hh1 & Hapart1 & Hdata1 & Hother1);
    [lia|].
  erewrite bind_step; [|exact Hloop].
  assert (reads_apart tmp fd (File.with_pos hsrc pos') w1) as Hapart1'
    by done.
  destruct (tmp_close_apart tmp fd _ w1 Hh1 Hapart1')
    as (w2 & Hcl & Hst2 & Hh2 & Hino2 & Hother2).
  erewrite bind_step; [|exact Hcl].
  exists w2, pos'. unfold ret. split; [done|].
  split; [by eapply same_tree_trans|]. split; [done|]. split.
  - unfold data_of in *. by rewrite Hino2.
  - intros fd' Hfd'. by rewrite (Hother2 fd' Hfd'), (Hother1 fd' Hfd').
Qed.

Lemma with_pos_restore h pos :
  File.with_pos (File.with_pos h pos) (h_pos h) = h.
Proof. by destruct h. Qed.

(** [hash_file_handle] puts the offset back. *)
Lemma hash_file_handle_ok fd alg tmp w hsrc :
  w_handles w !! fd = Some hsrc → h_binary hsrc = true →
  h_closed hsrc = false → reads_apart tmp fd hsrc w →
  ∃ w',
    hash_file_handle (VFile fd) alg tmp w
    = (Ok (hexdigest_of alg (drop (h_pos hsrc) (data_of w (h_ino hsrc)))),
       w') ∧
    same_tree w w' ∧
    w_handles w' !! fd = Some hsrc ∧
    data_of w' (h_ino hsrc) = data_of w (h_ino hsrc) ∧
    (∀ fd', other_handle tmp fd fd' →
            w_handles w' !! fd' = w_handles w !! fd').
Proof.
  intros Hh Hb Hc Hapart. unfold hash_file_handle.
  erewrite bind_step; cycle 1.
  { unfold File.tell. erewrite bind_step; [|by apply opened_Ok]. done. }
  destruct (hash_readable_ok fd alg tmp w hsrc Hh Hb Hc Hapart)
    as (w1 & pos' & Hhash & Hst1 & Hh1 & Hdata1 & Hother1).
  erewrite bind_step; [|exact Hhash].
  erewrite bind_step; cycle 1.
  { unfold File.seek. erewrite bind_step; [|by apply opened_Ok]. done. }
  eexists. unfold ret. split; [done|]. simpl.
  split; [done|]. split; [by rewrite lookup_insert_eq, with_pos_restore|].
  split; [done|].
  intros fd' Hfd'. rewrite lookup_insert_ne by (destruct Hfd'; done).
  by apply Hother1.
Qed.

(** [hash_file] on the path of a file returns the digest of its bytes. *)
Lemma hash_file_ok p alg tmp w ino :
  w_files w !! p = Some ino →
  reads_apart tmp (fresh (dom (w_handles w)))
    {| h_name := p; h_ino := ino; h_pos := 0; h_binary := true;
       h_closed := false |} w →
  ∃ w', hash_file (VStr p) alg tmp w
        = (Ok (hexdigest_of alg (data_of w ino)), w') ∧
        same_tree w w'.
Proof.
  intros Hino Hapart. unfold hash_file, open_rb.
  set (fd := fresh (dom (w_handles w))) in *.
  set (hsrc := {| h_name := p; h_ino := ino |}) in *.
  set (w1 := set_handles (<[fd := hsrc]> (w_handles w)) w).
  assert (File.open_read p true w = (Ok fd, w1)) as Hopen.
  { unfold File.open_read. by rewrite Hino. }
  erewrite bind_step; [|exact Hopen].
  assert (w_handles w1 !! fd = Some hsrc) as Hh1.
  { subst w1. simpl. by rewrite lookup_insert_eq. }
  assert (reads_apart tmp fd hsrc w1) as Hapart1.
  { destruct tmp as [t|]; [|done].
    destruct Hapart as (Hne & ht & Hht & Hopen' & Hino').
    split; [done|]. exists ht. subst w1. simpl.
    by rewrite lookup_insert_ne. }
  destruct (hash_readable_ok fd alg tmp w1 hsrc Hh1 eq_refl eq_refl Hapart1)
    as (w2 & pos' & Hhash & Hst2 & Hh2 & _ & _).
  unfold try_finally. rewrite Hhash.
  unfold File.close. rewrite Hh2. eexists. split; [done|].
  eapply same_tree_trans; [|exact Hst2]. done.
Qed.

End HashReadable.

(** ** Putting a file *)

Section PutFile.
Import Py PosixPath.
Variable resolve : str → str.

(** The staged file is a new open file on a new, empty inode; the bytes
    behind every inode number are what they were. *)
Lemma mktemp_apart self name w tmp w1 :
  _mktemp self name w = (Ok tmp, w1) →
  tmp_fd tmp = fresh (dom (w_handles w)) ∧
  w_files w !! tmp_name tmp = None ∧
  (∀ ino, data_of w1 ino = data_of w ino) ∧
  ∃ ht, w_handles w1 = <[tmp_fd tmp := ht]> (w_handles w) ∧
        h_closed ht = false ∧ w_inodes w !! h_ino ht = None ∧
        w_files w1 = <[tmp_name tmp := h_ino ht]> (w_files w).
Proof.
  unfold _mktemp. intros (t & wa & Htry & Hrest)%bind_Ok.
  apply bind_Ok in Hrest as ([] & wb & Hch & [= -> ->]).
  assert (∃ w0, grows w w0 ∧
                File.open_excl (tmp_name tmp) w0 = (Ok (tmp_fd tmp), wa))
    as (w0 & (Hf0 & Hi0 & Hh0 & _) & Hopen).
  { unfold try_except in Htry.
    destruct (Tempfile.NamedTemporaryFile _ _ _ w) as [[t|e] w0] eqn:Hntf.
    - injection Htry as -> ->. apply ntf_Ok in Hntf as [? ?].
      exists w. split; [apply grows_refl | done].
    - apply ntf_Raise in Hntf as ->. destruct e; try done.
      apply bind_Ok in Htry as ([] & w3 & Hmk%makedirs_grows & Hntf).
      apply ntf_Ok in Hntf as [? ?]. by exists w3. }
  apply open_excl_Ok in Hopen as (_ & Hex & Hfd & ->).
  apply path_exists_false in Hex as (Hnone & _ & _).
  rewrite Hf0 in Hnone. rewrite Hh0 in Hfd.
  set (ino := fresh (dom (w_inodes w0))) in *.
  assert (w_inodes w !! ino = None) as Hino.
  { rewrite <- Hi0. apply not_elem_of_dom, is_fresh. }
  split; [done|]. split; [done|].
  destruct (fmode self) as [mode|].
  - unfold OS.chmod in Hch. simpl in Hch.
    rewrite lookup_insert_eq in Hch. injection Hch as <-. simpl.
    split.
    + intros i. unfold data_of. simpl. rewrite Hi0.
      destruct (decide (i = ino)) as [->|Hne].
      * by rewrite lookup_alter_eq, lookup_insert_eq, Hino.
      * by rewrite lookup_alter_ne, lookup_insert_ne.
    + eexists. rewrite Hh0, Hf0. by repeat split.
  - injection Hch as <-. simpl. split.
    + intros i. unfold data_of. simpl. rewrite Hi0.
      destruct (decide (i = ino)) as [->|Hne].
      * by rewrite lookup_insert_eq, Hino.
      * by rewrite lookup_insert_ne.
    + eexists. rewrite Hh0, Hf0. by repeat split.
Qed.

Lemma putfile_inv self file name w a w' :
  putfile resolve self file name w = (Ok a, w') →
  ∃ src tmp w1 w2,
    source_name file w = (Ok src, w) ∧
    path_is_parent resolve (root self) src = Ok false ∧
    _mktemp self name w = (Ok tmp, w1) ∧
    try_except (hash_file file (algorithm self) (Some tmp))
      (λ e, match e with
            | TypeError =>
                Some (hash_file_handle file (algorithm self) (Some tmp))
            | _ => None
            end) w1 = (Ok (digest a), w2) ∧
    digestpath self (digest a) = Ok (abspath a) ∧
    _mvtemp self (tmp_name tmp) (abspath a) w2 = (Ok (is_duplicate a), w').
Proof.
  unfold putfile, putfile_store. intros (src & w0 & Hsrc & H)%bind_Ok.
  assert (w0 = w) as ->.
  { revert Hsrc. unfold source_name, bind, get_world, ret, raise.
    repeat case_match; by intros [= _ <-]. }
  apply bind_Ok in H as (inside & w0 & Hin & H).
  unfold lift in Hin. injection Hin as Hin <-.
  destruct inside; [done|].
  apply bind_Ok in H as (tmp & w1 & Htmp & H).
  apply bind_Ok in H as (d & w2 & Hd & H).
  apply bind_Ok in H as (fp & w3 & Hfp & H).
  unfold lift in Hfp. injection Hfp as Hfp <-.
  apply bind_Ok in H as (dup & w4 & Hmv & [= <- <-]).
  by exists src, tmp, w1, w2.
Qed.

(** The commit does not touch the open files nor the bytes of files. *)
Lemma mvtemp_frame self tmp filepath w b w' :
  _mvtemp self tmp filepath w = (Ok b, w') →
  w_handles w' = w_handles w ∧ w_inodes w' = w_inodes w.
Proof.
  intros [(_ & _ & _ & ->)|(_ & _ & ino & w1 & Hg & _ & _ & ->)]%mvtemp_inv.
  - done.
  - destruct Hg as (_ & ? & ? & _). done.
Qed.

(** Hashing an open file object as [putfile] does it, after staging. *)
Lemma putfile_hash_handle self fd name w tmp w1 hsrc d w2 :
  w_handles w !! fd = Some hsrc → is_Some (w_inodes w !! h_ino hsrc) →
  _mktemp self name w = (Ok tmp, w1) →
  try_except (hash_file (VFile fd) (algorithm self) (Some tmp))
    (λ e, match e with
          | TypeError =>
              Some (hash_file_handle (VFile fd) (algorithm self) (Some tmp))
          | _ => None
          end) w1 = (Ok d, w2) →
  h_binary hsrc = true ∧ h_closed hsrc = false ∧
  d = hexdigest_of (algorithm self)
        (drop (h_pos hsrc) (data_of w (h_ino hsrc))) ∧
  w_handles w2 !! fd = Some hsrc ∧
  data_of w2 (h_ino hsrc) = data_of w (h_ino hsrc).
Proof.
  intros Hh Hino Hmk Hhash.
  apply mktemp_apart in Hmk
    as (Hfd & _ & Hdata & ht & Hhs & Hopen & Hfresh & _).
  assert (tmp_fd tmp ≠ fd) as Hne.
  { intros E. rewrite E in Hfd.
    pose proof (is_fresh (dom (w_handles w))) as Hnot.
    rewrite <- Hfd in Hnot. apply Hnot, elem_of_dom. by eexists. }
  assert (w_handles w1 !! fd = Some hsrc) as Hh1
    by by rewrite Hhs, lookup_insert_ne.
  assert (h_ino ht ≠ h_ino hsrc) as Hino'.
  { intros E. rewrite E in Hfresh. destruct Hino as [? ?]. congruence. }
  unfold try_except, hash_file, open_rb in Hhash.
  unfold bind at 1, raise in Hhash.
  (* the file object is open: [tell] went through *)
  destruct (h_closed hsrc) eqn:Hc.
  { exfalso. revert Hhash. unfold hash_file_handle, File.tell.
    unfold bind at 1. unfold bind at 1. unfold File.opened.
    by rewrite Hh1, Hc. }
  (* and it is binary: the hash object took what was read *)
  destruct (h_binary hsrc) eqn:Hb.
  2:{ exfalso. revert Hhash. unfold hash_file_handle.
      erewrite bind_step; cycle 1.
      { unfold File.tell. erewrite bind_step; [|by apply opened_Ok]. done. }
      unfold hash_readable. unfold bind at 1. unfold bind at 1, get_world.
      rewrite Hh1. cbn [read_loop]. unfold bind at 1. unfold bind at 1.
      unfold File.read. erewrite bind_step; [|by apply opened_Ok].
      unfold bind, get_world, File.set_pos, ret, raise. by rewrite Hb. }
  assert (reads_apart (Some tmp) fd hsrc w1) as Hapart.
  { split; [done|]. exists ht. by rewrite Hhs, lookup_insert_eq. }
  destruct (hash_file_handle_ok fd (algorithm self) (Some tmp) w1 hsrc
              Hh1 Hb Hc Hapart) as (w3 & Heq & _ & Hh3 & Hd3 & _).
  rewrite Heq in Hhash. injection Hhash as <- <-.
  rewrite Hd3, !Hdata. done.
Qed.

(** Hashing the file at a path as [putfile] does it, after staging. *)
Lemma putfile_hash_path self p name w tmp w1 ino d w2 :
  w_files w !! p = Some ino → is_Some (w_inodes w !! ino) →
  _mktemp self name w = (Ok tmp, w1) →
  try_except (hash_file (VStr p) (algorithm self) (Some tmp))
    (λ e, match e with
          | TypeError =>
              Some (hash_file_handle (VStr p) (algorithm self) (Some tmp))
          | _ => None
          end) w1 = (Ok d, w2) →
  d = hexdigest_of (algorithm self) (data_of w ino).
Proof.
  intros Hp Hino Hmk Hhash.
  apply mktemp_apart in Hmk
    as (Hfd & Hnone & Hdata & ht & Hhs & Hopen & Hfresh & Hfiles).
  assert (w_files w1 !! p = Some ino) as Hp1.
  { rewrite Hfiles, lookup_insert_ne; [done|]. intros E. congruence. }
  assert (reads_apart (Some tmp) (fresh (dom (w_handles w1)))
            {| h_name := p; h_ino := ino; h_pos := 0; h_binary := true;
               h_closed := false |} w1) as Hapart.
  { split.
    - intros E. pose proof (is_fresh (dom (w_handles w1))) as Hnot.
      rewrite <- E in Hnot. apply Hnot, elem_of_dom.
      rewrite Hhs, lookup_insert_eq. by eexists.
    - exists ht. rewrite Hhs, lookup_insert_eq. split; [done|].
      split; [done|]. simpl. intros E. rewrite E in Hfresh.
      destruct Hino as [? ?]. congruence. }
  destruct (hash_file_ok p (algorithm self) (Some tmp) w1 ino Hp1 Hapart)
    as (w3 & Heq & _).
  unfold try_except in Hhash. rewrite Heq in Hhash.
  injection Hhash as <- <-. by rewrite Hdata.
Qed.

(** C8.  Hashing a binary file object that is open returns, with the
    file object exactly as it was: [hash_file_handle] records the offset,
    reads to the end and seeks back.  And after every [putfile] of a file
    object that completes, the file object is as it was at the call (same
    offset, name, mode, still open), the bytes of its file are the same,
    and the digest is that of the bytes from the offset on. *)
Theorem putfile_restores_handle :
  (∀ fd alg tmp w hsrc,
     w_handles w !! fd = Some hsrc → h_binary hsrc = true →
     h_closed hsrc = false → reads_apart tmp fd hsrc w →
     ∃ d w', hash_file_handle (VFile fd) alg tmp w = (Ok d, w') ∧
             w_handles w' !! fd = Some hsrc ∧
             data_of w' (h_ino hsrc) = data_of w (h_ino hsrc)) ∧
  (∀ self fd name w hsrc a w',
     w_handles w !! fd = Some hsrc → is_Some (w_inodes w !! h_ino hsrc) →
     putfile resolve self (VFile fd) name w = (Ok a, w') →
     w_handles w' !! fd = Some hsrc ∧
     data_of w' (h_ino hsrc) = data_of w (h_ino hsrc) ∧
     digest a = hexdigest_of (algorithm self)
                  (drop (h_pos hsrc) (data_of w (h_ino hsrc)))).
Proof.
  split.
  - intros fd alg tmp w hsrc Hh Hb Hc Hapart.
    destruct (hash_file_handle_ok fd alg tmp w hsrc Hh Hb Hc Hapart)
      as (w' & Heq & _ & Hh' & Hd' & _).
    by eexists _, w'.
  - intros self fd name w hsrc a w' Hh Hino Hput.
    apply putfile_inv in Hput
      as (src & tmp & w1 & w2 & _ & _ & Hmk & Hhash & _ & Hmv).
    destruct (putfile_hash_handle self fd name w tmp w1 hsrc _ w2
                Hh Hino Hmk Hhash) as (_ & _ & Hd & Hh2 & Hdata2).
    apply mvtemp_frame in Hmv as [Hhs Hinodes].
    split; [by rewrite Hhs|]. split; [|done].
    unfold data_of in *. by rewrite Hinodes.
Qed.

(** C5.  The three ways of hashing return, each with the digest of the
    bytes of its source: the text or bytes given to [putstr], the bytes
    of the file at a path, the bytes of a file object from its offset on.
    So whenever the same bytes are put through [putstr], through [putfile]
    by path and through [putfile] by file object, the three addresses
    carry the same digest. *)
Theorem put_digests_agree :
  (∀ self st t w,
     tmp_ready t w →
     ∃ w', computehash self st (Some t) w
           = (Ok (hexdigest_of (algorithm self) (stream_bytes st)), w')) ∧
  (∀ p alg tmp w ino,
     w_files w !! p = Some ino →
     reads_apart tmp (fresh (dom (w_handles w)))
       {| h_name := p; h_ino := ino; h_pos := 0; h_binary := true;
          h_closed := false |} w →
     ∃ w', hash_file (VStr p) alg tmp w
           = (Ok (hexdigest_of alg (data_of w ino)), w')) ∧
  (∀ fd alg tmp w hsrc,
     w_handles w !! fd = Some hsrc → h_binary hsrc = true →
     h_closed hsrc = false → reads_apart tmp fd hsrc w →
     ∃ w', hash_file_handle (VFile fd) alg tmp w
           = (Ok (hexdigest_of alg
                    (drop (h_pos hsrc) (data_of w (h_ino hsrc)))), w')) ∧
  (∀ self content src p ino fd hsrc n1 n2 n3 wa wb wc a1 a2 a3 wa' wb' wc',
     source_bytes src = Some content →
     w_files wb !! p = Some ino → is_Some (w_inodes wb !! ino) →
     data_of wb ino = content →
     w_handles wc !! fd = Some hsrc → is_Some (w_inodes wc !! h_ino hsrc) →
     drop (h_pos hsrc) (data_of wc (h_ino hsrc)) = content →
     putstr self src n1 wa = (Ok a1, wa') →
     putfile resolve self (VStr p) n2 wb = (Ok a2, wb') →
     putfile resolve self (VFile fd) n3 wc = (Ok a3, wc') →
     digest a1 = hexdigest_of (algorithm self) content ∧
     digest a2 = digest a1 ∧ digest a3 = digest a1).
Proof.
  split; [|split; [|split]].
  - intros self st t w Hr.
    destruct (computehash_ready self st t w Hr) as (w' & Heq & _).
    by exists w'.
  - intros p alg tmp w ino Hp Hapart.
    destruct (hash_file_ok p alg tmp w ino Hp Hapart) as (w' & Heq & _).
    by exists w'.
  - intros fd alg tmp w hsrc Hh Hb Hc Hapart.
    destruct (hash_file_handle_ok fd alg tmp w hsrc Hh Hb Hc Hapart)
      as (w' & Heq & _).
    by exists w'.
  - intros self content src p ino fd hsrc n1 n2 n3 wa wb wc a1 a2 a3
      wa' wb' wc' Hsrc Hp Hino Hdata Hh Hhino Hrest Hput1 Hput2 Hput3.
    assert (digest a1 = hexdigest_of (algorithm self) content) as H1.
    { apply putstr_inv in Hput1
        as (st & tmp & w1 & w2 & Hst & _ & Hch & _).
      apply computehash_inv in Hch as [-> _]. f_equal.
      destruct src; simpl in *; by simplify_eq. }
    assert (digest a2 = hexdigest_of (algorithm self) content) as H2.
    { apply putfile_inv in Hput2
        as (s2 & tmp & w1 & w2 & _ & _ & Hmk & Hhash & _).
      rewrite <- Hdata. by eapply putfile_hash_path. }
    assert (digest a3 = hexdigest_of (algorithm self) content) as H3.
    { apply putfile_inv in Hput3
        as (s3 & tmp & w1 & w2 & _ & _ & Hmk & Hhash & _).
      rewrite <- Hrest.
      by destruct (putfile_hash_handle self fd n3 wc tmp w1 hsrc _ w2
                     Hh Hhino Hmk Hhash) as (_ & _ & ? & _). }
    split; [done|]. split; congruence.
Qed.

End PutFile.

Lemma putfile_restores_handle_witness :
  let r := putfile Example.resolve Example.store (VFile 0) Example.name1
             Example.world_rb in
  is_ok r.1 = true ∧
  w_handles r.2 !! 0 = Some Example.foo_rb ∧
  data_of r.2 1 = data_of Example.world_rb 1.
Proof.
  intros r.
  assert (∃ a, r = (Ok a, r.2)) as [a Hr].
  { eexists. vm_compute. reflexivity. }
  destruct (proj2 (putfile_restores_handle Example.resolve) Example.store 0
              Example.name1 Example.world_rb Example.foo_rb a r.2)
    as (Hh & Hd & _).
  - reflexivity.
  - vm_compute. by eexists.
  - exact Hr.
  - split; [by rewrite Hr|]. split; [exact Hh | exact Hd].
Defined.

Lemma put_digests_agree_witness :
  let r1 := putstr Example.store (VStr (s2l "foo")) Example.name1
              Example.world0 in
  let r2 := putfile Example.resolve Example.store
              (VStr (s2l "/data/foo.txt")) Example.name2 Example.world0 in
  let r3 := putfile Example.resolve Example.store (VFile 0) Example.name3
              Example.world_rb0 in
  ∃ a1 a2 a3,
    r1.1 = Ok a1 ∧ r2.1 = Ok a2 ∧ r3.1 = Ok a3 ∧
    digest a1 = s2l "bf40" ∧ digest a2 = digest a1 ∧ digest a3 = digest a1.
Proof.
  intros r1 r2 r3.
  assert (∃ a, r1 = (Ok a, r1.2)) as [a1 H1]
    by (eexists; vm_compute; reflexivity).
  assert (∃ a, r2 = (Ok a, r2.2)) as [a2 H2]
    by (eexists; vm_compute; reflexivity).
  assert (∃ a, r3 = (Ok a, r3.2)) as [a3 H3]
    by (eexists; vm_compute; reflexivity).
  destruct (proj2 (proj2 (proj2 (put_digests_agree Example.resolve)))
              Example.store Example.foo (VStr (s2l "foo"))
              (s2l "/data/foo.txt") 1 0 (File.with_pos Example.foo_rb 0)
              Example.name1 Example.name2 Example.name3
              Example.world0 Example.world0 Example.world_rb0
              a1 a2 a3 r1.2 r2.2 r3.2)
    as (Hd1 & Hd2 & Hd3).
  - reflexivity.
  - reflexivity.
  - vm_compute. by eexists.
  - reflexivity.
  - reflexivity.
  - vm_compute. by eexists.
  - reflexivity.
  - exact H1.
  - exact H2.
  - exact H3.
  - exists a1, a2, a3. rewrite H1, H2, H3.
    split; [done|]. split; [done|]. split; [done|].
    split; [|done]. rewrite Hd1. reflexivity.
Defined.

(** ** [commonpath] and the containment guard *)

Section CommonPath.
Import Py PosixPath.

Lemma str_compare_refl a : str_compare a a = Eq.
Proof. induction a as [|x a IH]; simpl; [done|]. by rewrite N.compare_refl. Qed.

Lemma str_compare_eq a b : str_compare a b = Eq → a = b.
Proof.
  revert b. induction a as [|x a IH]; intros [|y b]; simpl; try done.
  destruct (N.compare_spec (N_of_ascii x) (N_of_ascii y)) as [E| |]; try done.
  intros ->%IH. f_equal.
  by rewrite <- (ascii_N_embedding x), <- (ascii_N_embedding y), E.
Qed.

Lemma str_compare_antisym a b : str_compare b a = CompOpp (str_compare a b).
Proof.
  revert b. induction a as [|x a IH]; intros [|y b]; simpl; try done.
  rewrite (N.compare_antisym (N_of_ascii x) (N_of_ascii y)).
  destruct (N.compare (N_of_ascii x) (N_of_ascii y)); simpl; auto.
Qed.

Lemma seq_compare_refl a : seq_compare a a = Eq.
Proof.
  induction a as [|x a IH]; simpl; [done|]. by rewrite str_compare_refl.
Qed.

Lemma seq_compare_eq a b : seq_compare a b = Eq → a = b.
Proof.
  revert b. induction a as [|x a IH]; intros [|y b]; simpl; try done.
  destruct (str_compare x y) eqn:E; try done.
  apply str_compare_eq in E as ->. by intros ->%IH.
Qed.

Lemma seq_compare_antisym a b : seq_compare b a = CompOpp (seq_compare a b).
Proof.
  revert b. induction a as [|x a IH]; intros [|y b]; simpl; try done.
  rewrite (str_compare_antisym x y).
  destruct (str_compare x y); simpl; auto.
Qed.

(** The loop of [commonpath] gives a common prefix. *)
Lemma common_loop_Ok s1 s2 l :
  common_loop s1 s2 = Ok l → l `prefix_of` s1 ∧ l `prefix_of` s2.
Proof.
  revert s2 l. induction s1 as [|c r1 IH]; intros s2 l; simpl.
  - intros [= <-]. split; apply prefix_nil.
  - destruct s2 as [|c2 r2]; [done|].
    case_decide as Hne; [intros [= <-]; split; apply prefix_nil|].
    subst c2.
    destruct (common_loop r1 r2) as [l'|] eqn:Hl; [|done].
    intros [= <-]. destruct (IH _ _ Hl). split; by apply prefix_cons.
Qed.

Lemma common_loop_prefix s1 s2 :
  s1 `prefix_of` s2 → common_loop s1 s2 = Ok s1.
Proof.
  intros [k ->]. induction s1 as [|c r1 IH]; simpl; [done|].
  rewrite decide_False by (intros H; by apply H). by rewrite IH.
Qed.

(** It runs off its second list only when the first list is the
    greater. *)
Lemma common_loop_Raise s1 s2 e :
  common_loop s1 s2 = Raise e → seq_compare s1 s2 = Gt.
Proof.
  revert s2. induction s1 as [|c r1 IH]; intros s2; simpl; [done|].
  destruct s2 as [|c2 r2]; [done|].
  case_decide as Hne; [done|]. subst c2.
  rewrite str_compare_refl.
  destruct (common_loop r1 r2) eqn:Hl; [done|]. intros [= ->]. by apply IH.
Qed.

Lemma prefix_compare p c : p `prefix_of` c → seq_compare c p ≠ Lt.
Proof.
  intros [k ->]. induction p as [|x p IH]; simpl.
  - by destruct k.
  - by rewrite str_compare_refl.
Qed.

Lemma sep_join_cons x y l :
  sep_join (x :: y :: l) = x ++ sep :: sep_join (y :: l).
Proof. done. Qed.

Lemma sep_join_grows l k :
  k ≠ [] → Forall (λ c, c ≠ []) k →
  length (sep_join l) < length (sep_join (l ++ k)).
Proof.
  intros Hk Hne. induction l as [|x [|y l] IH].
  - destruct k as [|c [|c' k']]; [done|..];
      apply Forall_cons in Hne as [Hc _]; destruct c; try done;
      simpl; lia.
  - destruct k as [|c k']; [done|]. simpl app. rewrite sep_join_cons.
    simpl. rewrite length_app. simpl. lia.
  - change ((x :: y :: l) ++ k) with (x :: y :: (l ++ k)).
    rewrite !sep_join_cons, !length_app. simpl in *. lia.
Qed.

Lemma sep_join_prefix_inj l p :
  l `prefix_of` p → Forall (λ c, c ≠ []) p → sep_join p = sep_join l →
  p = l.
Proof.
  intros [k ->] Hne Heq. destruct k as [|c k]; [by rewrite app_nil_r|].
  apply Forall_app in Hne as [_ Hk].
  pose proof (sep_join_grows l (c :: k) ltac:(done) Hk) as Hlt.
  rewrite Heq in Hlt. lia.
Qed.

Lemma segments_nonempty p : Forall (λ c, c ≠ []) (segments p).
Proof.
  unfold segments. apply Forall_forall.
  by intros c [[? _] _]%list_elem_of_filter.
Qed.

Lemma commonpath_single p :
  commonpath [p]
  = Ok ((if isabs p then [sep] else []) ++ sep_join (segments p)).
Proof.
  unfold commonpath. simpl. unfold py_min, py_max. simpl.
  by rewrite common_loop_prefix.
Qed.

(** [path_is_parent] on two absolute paths: the segments of the parent
    are the first segments of the child. *)
Lemma path_is_parent_spec resolve parent child :
  isabs (resolve parent) = true → isabs (resolve child) = true →
  path_is_parent resolve parent child
  = Ok (bool_decide (segments (resolve parent)
                       `prefix_of` segments (resolve child))).
Proof.
  intros Hp Hc. unfold path_is_parent. rewrite commonpath_single.
  set (P := segments (resolve parent)). set (C := segments (resolve child)).
  unfold commonpath. simpl. rewrite Hp, Hc. simpl.
  unfold py_min, py_max. simpl. fold P C.
  assert (∀ l, common_loop
                 (if decide (seq_compare C P = Lt) then C else P)
                 (if decide (seq_compare C P = Gt) then C else P) = Ok l →
               (P = l ↔ P `prefix_of` C)) as Hl.
  { intros l Hloop. split.
    - intros <-. apply common_loop_Ok in Hloop as [H1 H2].
      repeat case_decide; try done.
      destruct (seq_compare C P) eqn:E; try done.
      apply seq_compare_eq in E. by rewrite E.
    - intros Hpre. pose proof (prefix_compare P C Hpre) as Hnlt.
      rewrite decide_False in Hloop by done.
      rewrite common_loop_prefix in Hloop; [by injection Hloop|].
      by case_decide. }
  destruct (common_loop _ _) as [l|e] eqn:Hloop.
  - f_equal. specialize (Hl l eq_refl).
    apply bool_decide_ext. rewrite <- Hl. split.
    + intros E. injection E as E.
      apply sep_join_prefix_inj; [|apply segments_nonempty|done].
      apply common_loop_Ok in Hloop as [H1 H2].
      destruct (decide (seq_compare C P = Lt)) as [HLt|HLt]; [|done].
      destruct (decide (seq_compare C P = Gt)) as [HGt|HGt]; [|done].
      congruence.
    + by intros <-.
  - exfalso. apply common_loop_Raise in Hloop.
    destruct (decide (seq_compare C P = Lt)) as [HLt|HLt];
      destruct (decide (seq_compare C P = Gt)) as [HGt|HGt].
    + congruence.
    + congruence.
    + rewrite seq_compare_antisym, HGt in Hloop. done.
    + by rewrite seq_compare_refl in Hloop.
Qed.

End CommonPath.

(** ** The guard of [putfile] and the type of its source *)

Section Guard.
Import Py PosixPath.
Variable resolve : str → str.



(** A source that is no text nor bytes is refused by [putstr] before
    anything is staged. *)
Lemma putstr_type_error self src name w :
  source_bytes src = None → putstr self src name w = (Raise TypeError, w).
Proof. by destruct src. Qed.

(** A source that is no path nor file object is refused by [putfile]
    before anything is staged. *)
Lemma putfile_type_error self src name w :
  match src with VStr _ | VFile _ | VPath _ => False | _ => True end →
  putfile resolve self src name w = (Raise TypeError, w).
Proof. by destruct src. Qed.

End Guard.


(** The guard on a [pathlib.Path] source, run on a machine where the
    store holds [foo].  From a working directory outside the root, the
    stored file given as a [Path] is not refused: its last component
    resolves outside the root, the file is staged and hashed again and
    found to be a duplicate, and the staged copy is removed.  From a
    working directory inside the root, a file outside the root given as a
    [Path] is refused. *)
Lemma putfile_path_guard_runs :
  let w := (putstr Example.store (VStr (s2l "foo")) Example.name1
              Example.world0).2 in
  let r := putfile (Example.resolve_from (s2l "/home/u")) Example.store
             (VPath Example.final) Example.name2 w in
  (is_file w Example.final = true ∧
   within (Example.resolve_from (s2l "/home/u")) (root Example.store)
     Example.final ∧
   r.1 = Ok {| digest := s2l "bf40"; fs := Example.store;
               abspath := Example.final; is_duplicate := true |} ∧
   is_file r.2 (tmppath Example.store Example.name2) = false) ∧
  (¬ within (Example.resolve_from (s2l "/srv/store")) (root Example.store)
       (s2l "/data/foo.txt") ∧
   putfile (Example.resolve_from (s2l "/srv/store")) Example.store
     (VPath (s2l "/data/foo.txt")) Example.name1 Example.world0
   = (Raise ValueError, Example.world0)).
Proof.
  split; [split; [|split; [|split]]|split].
  - vm_compute. reflexivity.
  - by exists [s2l "b"; s2l "f"; s2l "4"; s2l "bf40"].
  - vm_compute. reflexivity.
  - vm_compute. reflexivity.
  - intros [k Hk]. vm_compute in Hk. discriminate Hk.
  - vm_compute. reflexivity.
Qed.


(** C6 (the code departs from the claim).  [putfile] stages before it
    hashes.  Given a file object opened in text mode, which the digest
    engine cannot hash, it raises [TypeError] after the staging file was
    created, and leaves that file behind; so it does with the path of a
    file that does not exist ([FileNotFoundError]).  [putstr] refuses a
    source of the wrong type before staging. *)
Theorem putfile_stages_before_type_error :
  let tmp := tmppath Example.store Example.name1 in
  let r := putfile Example.resolve Example.store (VFile 0) Example.name1
             Example.world_r in
  let r' := putfile Example.resolve Example.store
              (VStr (s2l "/data/missing")) Example.name1 Example.world0 in
  (r.1 = Raise TypeError ∧
   is_file Example.world_r tmp = false ∧ is_file r.2 tmp = true) ∧
  (r'.1 = Raise FileNotFoundError ∧
   is_file Example.world0 tmp = false ∧ is_file r'.2 tmp = true) ∧
  putstr Example.store (VInt 5) Example.name1 Example.world0
  = (Raise TypeError, Example.world0).
Proof. vm_compute. by repeat split. Qed.

(** ** The corruption scan *)

Section Corrupted.
Import Py PosixPath.

Lemma last_item_basename p : last_item (split p) = Ok (basename p).
Proof.
  unfold last_item, basename. pose proof (split_nonempty p) as Hne.
  destruct (last (split p)) eqn:E; [done|].
  by apply last_None in E.
Qed.

(** One round of the scan on a file of the store: the file is hashed
    (hashing never fails), then the length of its name decides between
    going on and the assertion error. *)
Lemma corrupted_step_spec self p w ino :
  constructed self → hashlib_contract (algorithm self) →
  w_files w !! p = Some ino →
  ∃ w', same_tree w w' ∧
    ((length (basename p) = digestlen self ∧
      ∃ y, corrupted_step self p w = (Ok y, w') ∧
           ∀ x, y = Some x → x.1 = p) ∨
     (length (basename p) ≠ digestlen self ∧
      corrupted_step self p w = (Raise AssertionError, w'))).
Proof.
  intros Hc Halg Hp.
  destruct (constructed_inv self Hc) as (_ & _ & Hdl).
  destruct (hash_file_ok p (algorithm self) None w ino Hp I)
    as (w' & Hhash & Hst).
  exists w'. split; [done|].
  set (d := hexdigest_of (algorithm self) (data_of w ino)) in *.
  assert (length d = digestlen self) as Hlen
    by (rewrite Hdl; apply Halg).
  unfold corrupted_step.
  erewrite bind_step; [|exact Hhash].
  erewrite bind_step; [|unfold lift; by rewrite last_item_basename].
  rewrite Hlen.
  destruct (decide (length (basename p) = digestlen self)) as [Heq|Hne].
  - left. split; [done|].
    rewrite bool_decide_true by done. simpl.
    assert (d ≠ []) as Hd.
    { intros E. rewrite E in Hlen. simpl in Hlen.
      pose proof (constructed_digestlen_pos self Hc Halg). lia. }
    assert (valid_digest self d) as Hvalid.
    { split; [done|]. apply lower_hex_all, Halg. }
    erewrite bind_step; [|unfold lift; by rewrite (digestpath_valid _ _ Hd)].
    case_bool_decide; eexists; (split; [done|]).
    + by intros x [= <-].
    + done.
  - right. split; [done|]. rewrite bool_decide_false by done. done.
Qed.

Lemma corrupted_loop_spec self paths w :
  constructed self → hashlib_contract (algorithm self) →
  (∀ p, p ∈ paths → is_Some (w_files w !! p)) →
  (Forall (λ p, length (basename p) = digestlen self) paths →
   (corrupted_loop self paths w).1.2 = Ok tt) ∧
  (Exists (λ p, length (basename p) ≠ digestlen self) paths →
   (corrupted_loop self paths w).1.2 = Raise AssertionError) ∧
  Forall (λ y, length (basename y.1) = digestlen self)
    (corrupted_loop self paths w).1.1.
Proof.
  intros Hc Halg. revert w.
  induction paths as [|p paths IH]; intros w Hfiles; simpl.
  { split; [done|]. split; [by intros ?%Exists_nil | constructor]. }
  destruct (Hfiles p ltac:(left)) as [ino Hp].
  destruct (corrupted_step_spec self p w ino Hc Halg Hp)
    as (w' & [Hf _] & [(Hgood & y & -> & Hy)|(Hbad & ->)]).
  - assert (∀ q, q ∈ paths → is_Some (w_files w' !! q)) as Hfiles'.
    { intros q Hq. rewrite Hf. apply Hfiles. by right. }
    destruct (IH w' Hfiles') as (IHok & IHbad & IHys).
    destruct (corrupted_loop self paths w') as [[ys r] w'']. simpl in *.
    split; [|split].
    + intros [_ Hall]%Forall_cons. by apply IHok.
    + intros [?|Hex]%Exists_cons; [done | by apply IHbad].
    + apply Forall_app. split; [|done].
      destruct y as [x|]; [|constructor]. simpl.
      repeat constructor. by rewrite (Hy x eq_refl).
  - simpl. split; [|split].
    + by intros [? _]%Forall_cons.
    + done.
    + constructor.
Qed.

(** C9.  On a constructed store the scan fails with an assertion error
    as soon as a file under the root has a name whose length is not the
    digest length, and runs to its end when every name has that length;
    what it yields before failing are files with names of the digest
    length, so the file with the other length is neither yielded nor
    skipped. *)
Theorem corrupted_asserts_name_length self w :
  constructed self → hashlib_contract (algorithm self) →
  ((∃ p, p ∈ OS.walk_files (root self) w ∧
         length (basename p) ≠ digestlen self) →
   (corrupted self w).1.2 = Raise AssertionError) ∧
  ((∀ p, p ∈ OS.walk_files (root self) w →
         length (basename p) = digestlen self) →
   (corrupted self w).1.2 = Ok tt) ∧
  Forall (λ y, length (basename y.1) = digestlen self) (corrupted self w).1.1.
Proof.
  intros Hc Halg. unfold corrupted.
  destruct (corrupted_loop_spec self (OS.walk_files (root self) w) w Hc Halg)
    as (Hok & Hbad & Hys).
  { intros p [_ Hp]%list_elem_of_filter.
    apply list_elem_of_fmap in Hp as ([q ino] & -> & Hq).
    apply elem_of_map_to_list in Hq. by exists ino. }
  split; [|split; [|done]].
  - intros (p & Hp & Hlen). apply Hbad, Exists_exists. eauto.
  - intros Hall. apply Hok, Forall_forall. done.
Qed.

End Corrupted.

Lemma corrupted_asserts_name_length_witness :
  (corrupted Example.store_tmp_inside Example.world_leftover).1.2
  = Raise AssertionError.
Proof.
  apply (corrupted_asserts_name_length Example.store_tmp_inside
           Example.world_leftover).
  - reflexivity.
  - apply toy_hash_contract. simpl. lia.
  - exists (s2l "/srv/store/_tmpp0q8zz7_"). split.
    + vm_compute. apply list_elem_of_In. vm_compute. tauto.
    + vm_compute. lia.
Defined.

(** * Further properties of the store *)

(** ** Paths and digests *)

Section MorePaths.
Import Py PosixPath.

Lemma contains_sep_true p :
  contains_sep p = true →
  ∃ y d, p = y ++ sep :: d ∧ contains_sep d = false.
Proof.
  induction p as [|c p IH]; [done|]. unfold contains_sep in *. simpl.
  destruct (existsb is_sep p) eqn:Hp.
  - intros _. destruct (IH eq_refl) as (y & d & -> & Hd).
    by exists (c :: y), d.
  - rewrite orb_false_r. intros ->%is_sep_true. by exists [], p.
Qed.

(** X1.  [unshard] raises [ValueError] exactly on the paths without
    separator, and otherwise returns what follows the last separator of
    the path, whatever it is (it may be empty, it need not be a
    digest). *)
Theorem unshard_last_segment p :
  match unshard p with
  | Ok d => contains_sep d = false ∧ ∃ y, p = y ++ sep :: d
  | Raise e => e = ValueError ∧ contains_sep p = false
  end.
Proof.
  destruct (contains_sep p) eqn:Hp.
  - destruct (contains_sep_true p Hp) as (y & d & -> & Hd).
    rewrite (unshard_app_sep y d Hd). eauto.
  - unfold unshard. by rewrite Hp.
Qed.

Lemma int16_nonempty s v : int16 s = Ok v → s ≠ [].
Proof. by intros H ->. Qed.

(** X2.  On a constructed store two digests that [digestpath] accepts
    never share a path: the path determines the digest. *)
Theorem digestpath_injective self d1 d2 p :
  constructed self →
  digestpath self d1 = Ok p → digestpath self d2 = Ok p → d1 = d2.
Proof.
  intros (Hdepth & Hwidth & _)%constructed_inv H1 H2.
  assert (∀ d, digestpath self d = Ok p → unshard p = Ok d) as Hun.
  { intros d Hd. pose proof Hd as (_ & Hsep & ->)%digestpath_Ok.
    assert (d ≠ []) as Hne.
    { unfold digestpath in Hd. case_bool_decide; [|done]. simpl in Hd.
      destruct (int16 d) eqn:E; [|done]. by eapply int16_nonempty. }
    destruct (join_shard_last self d Hdepth Hwidth Hne Hsep) as [y ->].
    by apply unshard_app_sep. }
  apply Hun in H1, H2. congruence.
Qed.

Lemma digestpath_injective_witness :
  s2l "bf40" = s2l "bf40".
Proof.
  apply (digestpath_injective Example.store (s2l "bf40") (s2l "bf40")
           Example.final); reflexivity.
Defined.

Lemma forallb_int_char_space s :
  forallb is_space s = true → forallb int_char s = true.
Proof.
  rewrite !forallb_forall. intros H c Hc. unfold int_char.
  by rewrite (H c Hc).
Qed.

Lemma scan_digits_chars prev acc n s v m rest :
  scan_digits prev acc n s = Some (v, m, rest) →
  ∃ ds, s = ds ++ rest ∧ forallb int_char ds = true.
Proof.
  revert prev acc n. induction s as [|c s IH]; intros prev acc n; simpl.
  - destruct prev; [done|]. intros [= <- <- <-]. by exists [].
  - case_bool_decide as Hus.
    + destruct prev; [done|]. intros (ds & -> & Hds)%IH.
      exists (c :: ds). split; [done|]. subst c. simpl. by rewrite Hds.
    + destruct (hex_value c) as [d|] eqn:Hc.
      * intros (ds & -> & Hds)%IH. exists (c :: ds). split; [done|].
        simpl. rewrite Hds, andb_true_r. unfold int_char, is_hexdigit.
        rewrite Hc. by rewrite orb_true_r.
      * destruct prev; [done|]. intros [= <- <- <-]. by exists [].
Qed.

Lemma strip_sign_chars s neg r :
  strip_sign s = (neg, r) → forallb int_char r = true →
  forallb int_char s = true.
Proof.
  unfold strip_sign. destruct s as [|c s]; [by intros [= <- <-]|].
  destruct (decide (c = "+"%char)) as [->|H1];
    [intros [= <- <-] H; simpl; by rewrite H|].
  destruct (decide (c = "-"%char)) as [->|H2];
    [intros [= <- <-] H; simpl; by rewrite H|].
  destruct c as [[] [] [] [] [] [] [] []]; try by intros [= <- <-].
Qed.

Lemma strip_prefix16_chars s :
  forallb int_char (strip_prefix16 s) = true → forallb int_char s = true.
Proof.
  unfold strip_prefix16.
  destruct s as [|c s]; [done|].
  destruct (decide (c = "0"%char)) as [->|H0].
  2:{ destruct c as [[] [] [] [] [] [] [] []]; try done. }
  destruct s as [|x r]; [done|].
  destruct (bool_decide (x = "x"%char) || bool_decide (x = "X"%char)) eqn:Ex;
    [|done].
  assert (int_char x = true) as Hx.
  { apply orb_true_iff in Ex
      as [->%bool_decide_eq_true| ->%bool_decide_eq_true]; done. }
  intros H. simpl. rewrite Hx. simpl.
  destruct r as [|u r']; [done|].
  destruct (decide (u = "_"%char)) as [->|Hu]; [done|].
  destruct u as [[] [] [] [] [] [] [] []]; try done.
Qed.

(** What [int(_, 16)] accepts is made of the characters it can take. *)
Lemma int16_chars s v : int16 s = Ok v → forallb int_char s = true.
Proof.
  unfold int16. destruct (lstrip_spec s) as (ws & Hs & Hws).
  destruct (strip_sign (lstrip s)) as [neg s1] eqn:Hsign.
  intros H.
  assert (forallb int_char (strip_prefix16 s1) = true) as Hp.
  { revert H.
    destruct (scan_digits false 0 0 (strip_prefix16 s1))
      as [[[v' [|m]] rest]|] eqn:Hscan.
    - by destruct (strip_prefix16 s1) as [|[[] [] [] [] [] [] [] []] ?].
    - apply scan_digits_chars in Hscan as (ds & -> & Hds).
      rewrite forallb_app, Hds. simpl.
      destruct (lstrip rest) eqn:Hrest.
      + intros _. by apply forallb_int_char_space, lstrip_nil.
      + by destruct (ds ++ rest) as [|[[] [] [] [] [] [] [] []] ?].
    - by destruct (strip_prefix16 s1) as [|[[] [] [] [] [] [] [] []] ?]. }
  apply strip_prefix16_chars in Hp.
  rewrite Hs, forallb_app, (forallb_int_char_space _ Hws). simpl.
  by apply (strip_sign_chars _ _ _ Hsign).
Qed.

(** X3.  Among the strings whose code points are all below 256 (those
    of this model), [digestpath] raises [ValueError], and nothing else,
    on every one that holds a character other than a hexadecimal digit, a
    blank, a sign, [x], [X] or an underscore: a letter such as [z], a
    dot, a path separator.  (Above U+00FF, [int] also takes the decimal
    digits and the spaces of Unicode: nothing is said of such strings.) *)
Theorem digestpath_rejects_foreign self d c :
  c ∈ d → int_char c = false → digestpath self d = Raise ValueError.
Proof.
  intros Hc Hforeign. unfold digestpath.
  destruct (negb _); [done|].
  destruct (int16 d) as [v|] eqn:Hint; [|done].
  apply int16_chars in Hint. rewrite forallb_forall in Hint.
  apply list_elem_of_In in Hc. specialize (Hint c Hc). congruence.
Qed.

Lemma digestpath_rejects_foreign_witness :
  digestpath Example.store (s2l "bf4z") = Raise ValueError ∧
  digestpath Example.store (s2l "../x") = Raise ValueError.
Proof.
  split.
  - apply (digestpath_rejects_foreign Example.store (s2l "bf4z") "z"%char).
    + apply list_elem_of_In. vm_compute. tauto.
    + reflexivity.
  - apply (digestpath_rejects_foreign Example.store (s2l "../x") "/"%char).
    + apply list_elem_of_In. vm_compute. tauto.
    + reflexivity.
Defined.

Lemma concat_compact items : concat (compact items) = concat items.
Proof.
  unfold compact. induction items as [|x l IH]; [done|].
  destruct (decide (x = [])) as [->|Hne].
  - by rewrite filter_cons_False by (by intros ?).
  - rewrite filter_cons_True by done. simpl. by rewrite IH.
Qed.

Lemma concat_slices d w n :
  concat (map (λ i, slice d (i * w) (w * (i + 1))) (seq 0 n))
  = take (n * w) d.
Proof.
  induction n as [|n IH]; [done|].
  rewrite seq_S, map_app, concat_app, IH. simpl. rewrite app_nil_r.
  unfold slice. replace (w * (n + 1) - n * w) with w by lia.
  rewrite take_take_drop. f_equal. lia.
Qed.

(** X4.  Whatever the depth and the width, the segments of [shard] are
    the digest cut into pieces: the directory segments put together are
    the first [depth * width] characters of the digest, none of them is
    empty or longer than [width], there are at most [depth] of them, and
    the last segment is the digest. *)
Theorem shard_pieces self d :
  d ≠ [] →
  ∃ dirs,
    shard self d = dirs ++ [d] ∧
    concat dirs = take (depth self * width self) d ∧
    length dirs ≤ depth self ∧
    Forall (λ seg, 0 < length seg ≤ width self) dirs.
Proof.
  intros Hne. unfold shard, compact. rewrite filter_app.
  rewrite (filter_cons_True _ d) by done. rewrite filter_nil.
  eexists. split; [done|]. split; [|split].
  - fold (compact (map (λ i, slice d (i * width self) (width self * (i + 1)))
                       (seq 0 (depth self)))).
    by rewrite concat_compact, concat_slices.
  - etrans; [apply length_filter|]. by rewrite length_map, length_seq.
  - apply Forall_forall. intros seg [Hseg Hin]%list_elem_of_filter.
    apply list_elem_of_fmap in Hin as (i & -> & _).
    split; [destruct (slice _ _ _); simpl; [done | lia]|].
    rewrite length_slice. lia.
Qed.

Lemma shard_pieces_witness :
  ∃ dirs,
    shard Example.store_wide (s2l "00ff") = dirs ++ [s2l "00ff"] ∧
    concat dirs = take (3 * 2) (s2l "00ff") ∧
    length dirs ≤ 3 ∧
    Forall (λ seg, 0 < length seg ≤ 2) dirs.
Proof. apply (shard_pieces Example.store_wide (s2l "00ff")). done. Defined.

End MorePaths.

(** ** What is written to the staged file *)

Section Content.
Import Py PosixPath.

Lemma differ_at_refl ino fds w : differ_at ino fds w w.
Proof. split; [apply same_tree_refl|done]. Qed.

Lemma differ_at_trans ino fds w1 w2 w3 :
  differ_at ino fds w1 w2 → differ_at ino fds w2 w3 → differ_at ino fds w1 w3.
Proof.
  intros (Ht1 & Hi1 & Hm1 & Hh1) (Ht2 & Hi2 & Hm2 & Hh2).
  split; [|split; [|split]].
  - by eapply same_tree_trans.
  - intros i Hi. by rewrite Hi2, Hi1.
  - intros i. by rewrite Hm2, Hm1.
  - intros fd Hfd. by rewrite Hh2, Hh1.
Qed.

Lemma differ_at_mono ino fds fds' w w' :
  fds ⊆ fds' → differ_at ino fds w w' → differ_at ino fds' w w'.
Proof.
  intros Hsub (Ht & Hi & Hm & Hh). split; [done|]. split; [done|].
  split; [done|]. intros fd Hfd. apply Hh. intros ?. apply Hfd. by apply Hsub.
Qed.

Lemma write_staging t ino b w :
  staging t ino w →
  ∃ w', File.write (tmp_fd t) b w = (Ok tt, w') ∧ staging t ino w' ∧
        data_of w' ino = data_of w ino ++ b ∧
        differ_at (Some ino) [tmp_fd t] w w'.
Proof.
  intros (h & Hh & Hc & <- & Hpos & [i Hi] & Hf).
  unfold File.write. erewrite bind_step; [|by apply opened_Ok].
  unfold bind, File.set_pos. eexists. split; [reflexivity|].
  assert (data_of w (h_ino h) = i_data i) as Hd
    by (unfold data_of; by rewrite Hi).
  rewrite Hd in *.
  assert (take (h_pos h) (i_data i) ++ b
            ++ drop (h_pos h + length b) (i_data i)
          = i_data i ++ b) as Hnew.
  { rewrite take_ge, drop_ge by lia. by rewrite app_nil_r. }
  rewrite Hnew.
  split; [|split].
  - eexists. simpl. rewrite lookup_insert_eq. split; [done|]. simpl.
    split; [done|]. split; [done|]. unfold data_of. simpl.
    rewrite lookup_alter_eq, Hi. simpl. rewrite length_app, Hpos.
    split; [done|]. split; [by eexists|done].
  - unfold data_of. simpl. by rewrite lookup_alter_eq, Hi.
  - split; [done|]. split; [|split].
    + intros j Hj. simpl. rewrite lookup_alter_ne; [done|]. congruence.
    + intros j. unfold mode_of. simpl.
      destruct (decide (j = h_ino h)) as [->|Hj].
      * by rewrite lookup_alter_eq, Hi.
      * by rewrite lookup_alter_ne.
    + intros fd Hfd. simpl. rewrite lookup_insert_ne; [done|].
      intros <-. apply Hfd. by left.
Qed.

(** What [_mktemp] leaves: a new name for a new, empty inode with the
    mode of the store, and a new file object open on it. *)
Lemma mktemp_staging self name w tmp w1 :
  _mktemp self name w = (Ok tmp, w1) →
  ∃ ino, staging tmp ino w1 ∧
    w_inodes w !! ino = None ∧
    w_inodes w1 !! ino
      = Some {| i_data := []; i_mode := default 384%Z (fmode self) |} ∧
    (∀ i, i ≠ ino → w_inodes w1 !! i = w_inodes w !! i) ∧
    w_files w !! tmp_name tmp = None ∧
    w_files w1 = <[tmp_name tmp := ino]> (w_files w) ∧
    w_handles w !! tmp_fd tmp = None ∧
    (∀ fd, fd ≠ tmp_fd tmp → w_handles w1 !! fd = w_handles w !! fd) ∧
    w_dirs w ⊆ w_dirs w1 ∧
    w_handles w1 !! tmp_fd tmp
    = Some {| h_name := tmp_name tmp; h_ino := ino; h_pos := 0;
              h_binary := true; h_closed := false |}.
Proof.
  unfold _mktemp. intros (t & wa & Htry & Hrest)%bind_Ok.
  apply bind_Ok in Hrest as ([] & wb & Hch & [= -> ->]).
  assert (∃ w0, grows w w0 ∧
                File.open_excl (tmp_name tmp) w0 = (Ok (tmp_fd tmp), wa))
    as (w0 & (Hf0 & Hi0 & Hh0 & Hd0) & Hopen).
  { unfold try_except in Htry.
    destruct (Tempfile.NamedTemporaryFile _ _ _ w) as [[t|e] w0] eqn:Hntf.
    - injection Htry as -> ->. apply ntf_Ok in Hntf as [? ?].
      exists w. split; [apply grows_refl | done].
    - apply ntf_Raise in Hntf as ->. destruct e; try done.
      apply bind_Ok in Htry as ([] & w3 & Hmk%makedirs_grows & Hntf).
      apply ntf_Ok in Hntf as [? ?]. by exists w3. }
  apply open_excl_Ok in Hopen as (_ & Hex & Hfd & ->).
  apply path_exists_false in Hex as (Hnone & _ & _).
  rewrite Hf0 in Hnone. rewrite Hh0 in Hfd.
  set (ino := fresh (dom (w_inodes w0))) in *.
  assert (w_inodes w !! ino = None) as Hino.
  { rewrite <- Hi0. apply not_elem_of_dom, is_fresh. }
  assert (w_handles w !! tmp_fd tmp = None) as Hfresh.
  { rewrite Hfd. apply not_elem_of_dom, is_fresh. }
  exists ino.
  destruct (fmode self) as [mode|].
  - unfold OS.chmod in Hch. simpl in Hch.
    rewrite lookup_insert_eq in Hch. injection Hch as <-. simpl.
    rewrite Hi0, Hf0, Hh0.
    split.
    { unfold staging. simpl. eexists. rewrite lookup_insert_eq.
      split; [done|].
      split; [done|]. split; [done|]. unfold data_of. simpl.
      rewrite lookup_alter_eq, !lookup_insert_eq. simpl.
      split; [done|]. split; [by eexists|done]. }
    split; [done|]. split; [by rewrite lookup_alter_eq, lookup_insert_eq|].
    split; [intros i Hi; by rewrite lookup_alter_ne, lookup_insert_ne|].
    split; [done|]. split; [done|]. split; [done|].
    split; [|split; [done|by rewrite lookup_insert_eq]].
    intros fd Hne. by rewrite lookup_insert_ne.
  - injection Hch as <-. simpl. rewrite Hi0, Hf0, Hh0.
    split.
    { unfold staging. simpl. eexists. rewrite lookup_insert_eq.
      split; [done|].
      split; [done|]. split; [done|]. unfold data_of. simpl.
      rewrite !lookup_insert_eq. simpl.
      split; [done|]. split; [by eexists|done]. }
    split; [done|]. split; [by rewrite lookup_insert_eq|].
    split; [intros i Hi; by rewrite lookup_insert_ne|].
    split; [done|]. split; [done|]. split; [done|].
    split; [|split; [done|by rewrite lookup_insert_eq]].
    intros fd Hne. by rewrite lookup_insert_ne.
Qed.

Lemma getsize_file p w ino :
  w_files w !! p = Some ino → OS.getsize p w = (Ok (length (data_of w ino)), w).
Proof. intros H. unfold OS.getsize. by rewrite H. Qed.

Lemma staging_differ t ino fds w w' :
  staging t ino w → differ_at None fds w w' → tmp_fd t ∉ fds →
  staging t ino w'.
Proof.
  intros (h & Hh & Hc & Hi & Hpos & Hin & Hf) ((Hfs & _) & Hino & _ & Hhs) ?.
  exists h. rewrite Hhs by done. rewrite Hfs.
  unfold data_of. rewrite Hino by done. done.
Qed.

(** The loop of [computehash] appends each chunk to the staged file. *)
Lemma computehash_loop_staging chunks t ino h w :
  forallb is_data chunks = true → staging t ino w →
  ∃ w', computehash_loop chunks (Some t) h w
        = (Ok (h ++ concat (map chunk_bytes chunks)), w') ∧
        staging t ino w' ∧
        data_of w' ino = data_of w ino ++ concat (map chunk_bytes chunks) ∧
        differ_at (Some ino) [tmp_fd t] w w'.
Proof.
  revert h w. induction chunks as [|c chunks IH]; intros h w Hdata Hst.
  - exists w. simpl. rewrite !app_nil_r. split; [done|]. split; [done|].
    split; [done|]. apply differ_at_refl.
  - simpl in Hdata. apply andb_true_iff in Hdata as [Hc Hdata].
    destruct (write_staging t ino (chunk_bytes c) w Hst)
      as (w1 & Hw & Hst1 & Hd1 & Hdiff1).
    destruct (IH (h ++ chunk_bytes c) w1 Hdata Hst1)
      as (w2 & Hloop & Hst2 & Hd2 & Hdiff2).
    exists w2. split; [|split; [done|split]].
    + cbn [computehash_loop].
      assert (lift (match c with
                    | VStr s => Ok (utf8 s)
                    | VBytes b => Ok b
                    | _ => Raise TypeError
                    end) w = (Ok (chunk_bytes c), w)) as Hlift
        by by destruct c.
      rewrite (bind_step _ _ _ _ _ Hlift).
      erewrite bind_step; cycle 1.
      { erewrite bind_step; [|exact Hw].
        erewrite bind_step; [done|].
        apply getsize_file. by destruct Hst1 as (? & _ & _ & _ & _ & _ & ?). }
      unfold update. rewrite Hloop. simpl. by rewrite app_assoc.
    + rewrite Hd2, Hd1. simpl. by rewrite app_assoc.
    + by eapply differ_at_trans.
Qed.

(** [computehash] with a staged file: the bytes of the stream are hashed
    and appended to the file, which is closed. *)
Lemma computehash_staging self s t ino w :
  staging t ino w →
  ∃ w', computehash self s (Some t) w
        = (Ok (hexdigest_of (algorithm self) (stream_bytes s)), w') ∧
        data_of w' ino = data_of w ino ++ stream_bytes s ∧
        differ_at (Some ino) [tmp_fd t] w w'.
Proof.
  intros Hst.
  destruct (computehash_loop_staging (iter_stream s) t ino [] w
              (iter_stream_data s) Hst) as (w1 & Hloop & Hst1 & Hd1 & Hdiff1).
  rewrite iter_stream_bytes in Hloop, Hd1. simpl in Hloop.
  destruct Hst1 as (h & Hh & Hc & Hi & Hpos & Hin & Hf).
  destruct (close_ready _ _ _ Hh) as (w2 & Hclose).
  exists w2. unfold computehash. rewrite (bind_step _ _ _ _ _ Hloop).
  assert (w2 = set_handles (<[tmp_fd t := {| h_name := h_name h;
            h_ino := h_ino h; h_pos := h_pos h; h_binary := h_binary h;
            h_closed := true |}]> (w_handles w1)) w1) as Hw2.
  { revert Hclose. unfold File.close. rewrite Hh. by intros [= <-]. }
  assert (w_files w2 !! tmp_name t = Some ino) as Hf2 by by rewrite Hw2.
  split; [|split].
  - erewrite bind_step; cycle 1.
    { erewrite bind_step; [|exact Hclose].
      erewrite bind_step; [done|]. by apply getsize_file. }
    done.
  - rewrite <- Hd1, Hw2. done.
  - eapply differ_at_trans; [exact Hdiff1|]. rewrite Hw2.
    split; [done|]. split; [done|]. split; [done|]. intros fd Hfd. simpl.
    rewrite lookup_insert_ne; [done|]. intros <-. apply Hfd. by left.
Qed.

Lemma source_stream src content :
  source_bytes src = Some content →
  ∃ s, (match new_StringIO src with
        | Raise TypeError => new_BytesIO src
        | r => r
        end) = Ok s ∧ stream_bytes s = content.
Proof. destruct src; intros [= <-]; by eexists. Qed.



(** What the commit makes of a staged file [tmp] on the inode [ino] that
    was filled in with [content]. *)
Lemma staged_commit self tmp ino content fds w w1 w2 d p b w' :
  w_inodes w !! ino = None →
  mode_of w1 ino = Some (default 384%Z (fmode self)) →
  (∀ i, i ≠ ino → w_inodes w1 !! i = w_inodes w !! i) →
  w_files w !! tmp_name tmp = None →
  w_files w1 = <[tmp_name tmp := ino]> (w_files w) →
  w_dirs w ⊆ w_dirs w1 →
  data_of w2 ino = content → differ_at (Some ino) fds w1 w2 →
  d = hexdigest_of (algorithm self) content →
  digestpath self d = Ok p →
  _mvtemp self (tmp_name tmp) p w2 = (Ok b, w') →
  put_effect self content
    {| digest := d; fs := self; abspath := p; is_duplicate := b |} w w'.
Proof.
  intros Hnew Hm1 Hold Hnone Hfiles Hdirs Hdata
         ((Hf2 & Hd2) & Hin2 & Hm2 & _) Hdig Hdp Hmv.
  pose proof (mvtemp_frame _ _ _ _ _ _ Hmv) as [_ Hin'].
  split; [done|]. split; [done|]. split; [done|]. simpl.
  assert (w_dirs w ⊆ w_dirs w' ∧
          if b then w_files w' = w_files w
          else path_exists w p = false ∧
               ∃ ino, w_inodes w !! ino = None ∧
                      w_files w' = <[p := ino]> (w_files w) ∧
                      data_of w' ino = content ∧
                      mode_of w' ino = Some (default 384%Z (fmode self)))
    as [? ?]; [|split; [done|split; [|done]]].
  2:{ intros i [x Hx]. assert (i ≠ ino) as Hne by congruence.
      rewrite Hin', Hin2, Hold by congruence. done. }
  apply mvtemp_inv in Hmv
    as [(-> & Hex & _ & ->)|(-> & Hex & ino' & wd & Hg & Htmp & _ & ->)].
  - simpl. rewrite Hd2. split; [done|].
    rewrite Hf2, Hfiles. by apply delete_insert_id.
  - rewrite Hf2, Hfiles in Htmp. rewrite lookup_insert_eq in Htmp.
    injection Htmp as <-.
    apply path_exists_false in Hex as (Hfin & Hsep & Hdir).
    rewrite Hf2, Hfiles in Hfin.
    assert (p ≠ tmp_name tmp) as Hne.
    { intros E. by rewrite E, lookup_insert_eq in Hfin. }
    rewrite lookup_insert_ne in Hfin by done.
    split.
    { simpl. destruct Hg as (_ & _ & _ & Hdg). rewrite <- Hd2 in Hdirs.
      by etrans. }
    split.
    { apply path_exists_false. split; [done|]. split; [done|].
      rewrite Hd2 in Hdir. by eapply lookup_weaken_None. }
    exists ino. split; [done|]. split; [|split].
    + simpl. rewrite Hf2, Hfiles.
      rewrite insert_insert_ne by done.
      rewrite delete_insert_eq. apply delete_id.
      by rewrite lookup_insert_ne.
    + destruct Hg as (_ & Hig & _). unfold data_of. simpl. by rewrite Hig.
    + destruct Hg as (_ & Hig & _). unfold mode_of. simpl. rewrite Hig.
      fold (mode_of w2 ino). by rewrite Hm2.
Qed.

Lemma putstr_fs self src name w a w' :
  putstr self src name w = (Ok a, w') →
  a = {| digest := digest a; fs := self; abspath := abspath a;
         is_duplicate := is_duplicate a |}.
Proof.
  unfold putstr. intros (? & ? & _ & H)%bind_Ok.
  apply bind_Ok in H as (? & ? & _ & H).
  apply bind_Ok in H as (? & ? & _ & H).
  apply bind_Ok in H as (? & ? & _ & H).
  apply bind_Ok in H as (? & ? & _ & [= <- _]). done.
Qed.

Lemma putstr_effect self src name content w a w' :
  source_bytes src = Some content →
  putstr self src name w = (Ok a, w') → put_effect self content a w w'.
Proof.
  intros (s & Hs & <-)%source_stream Hput.
  rewrite (putstr_fs _ _ _ _ _ _ Hput).
  apply putstr_inv in Hput
    as (s' & tmp & w1 & w2 & Hs' & Hmk & Hch & Hdp & Hmv).
  rewrite Hs in Hs'. injection Hs' as <-.
  apply mktemp_staging in Hmk
    as (ino & Hst & Hnew & Hi1 & Hold & Hnone & Hfiles & _ & _ & Hdirs & _).
  destruct (computehash_staging self s tmp ino w1 Hst)
    as (w2' & Heq & Hdata & Hdiff).
  rewrite Heq in Hch. injection Hch as Hdig ->.
  eapply staged_commit; try done.
  - unfold mode_of. by rewrite Hi1.
  - rewrite Hdata. unfold data_of. by rewrite Hi1.
Qed.

Local Opaque block_size.

Lemma read_Ok fd n w v w1 :
  File.read fd n w = (Ok v, w1) →
  ∃ h pos, w_handles w !! fd = Some h ∧
    w1 = set_handles (<[fd := File.with_pos h pos]> (w_handles w)) w.
Proof.
  unfold File.read. intros (h & w0 & (Hh & Hc & ->)%opened_Ok & H)%bind_Ok.
  unfold bind, get_world, File.set_pos, ret in H. injection H as _ <-. eauto.
Qed.

Lemma sub_pair_l (x y : nat) : [x] ⊆ [x; y].
Proof. intros z ->%list_elem_of_singleton. by left. Qed.

Lemma sub_pair_r (x y : nat) : [y] ⊆ [x; y].
Proof. intros z ->%list_elem_of_singleton. right. by left. Qed.

Lemma differ_at_handle ino fd h w :
  differ_at ino [fd] w (set_handles (<[fd := h]> (w_handles w)) w).
Proof.
  split; [done|]. split; [done|]. split; [done|]. intros fd' Hfd'. simpl.
  rewrite lookup_insert_ne; [done|]. intros <-. apply Hfd'. by left.
Qed.

(** The loop of [hash_readable] appends what it hashes to the staged
    file. *)
Lemma read_loop_staging fuel fd t ino hs w hs' w' :
  fd ≠ tmp_fd t → staging t ino w →
  read_loop fuel fd (Some t) hs w = (Ok hs', w') →
  ∃ d, hs' = hs ++ d ∧ data_of w' ino = data_of w ino ++ d ∧
       staging t ino w' ∧ differ_at (Some ino) [fd; tmp_fd t] w w'.
Proof.
  intros Hne. revert hs w.
  induction fuel as [|fuel IH]; intros hs w Hst H; [done|].
  cbn [read_loop] in H. apply bind_Ok in H as (chunk & w1 & Hread & H).
  apply read_Ok in Hread as (h & pos & Hh & ->).
  set (w1 := set_handles _ w) in *.
  assert (differ_at None [fd] w w1) as Hd1 by apply differ_at_handle.
  assert (staging t ino w1) as Hst1.
  { apply (staging_differ t ino [fd] w w1 Hst Hd1).
    intros ?%list_elem_of_singleton. congruence. }
  assert (differ_at (Some ino) [fd; tmp_fd t] w w1) as Hd1'.
  { eapply differ_at_mono; [apply sub_pair_l|apply differ_at_handle]. }
  destruct chunk as [| | |b| |]; try done.
  destruct b as [|c b].
  - injection H as <- <-. exists []. rewrite !app_nil_r. done.
  - apply bind_Ok in H as ([] & w2 & Hw & H).
    destruct (write_staging t ino (c :: b) w1 Hst1)
      as (w2' & Heq & Hst2 & Hdata2 & Hd2).
    simpl in Hw. rewrite Heq in Hw. injection Hw as ->.
    apply IH in H as (d & -> & Hdata & Hst' & Hd'); [|done].
    exists ((c :: b) ++ d). unfold update. rewrite <- !app_assoc.
    split; [done|]. split; [|split; [done|]].
    + rewrite Hdata, Hdata2. by rewrite <- app_assoc.
    + eapply differ_at_trans; [exact Hd1'|].
      eapply differ_at_trans; [|exact Hd'].
      eapply differ_at_mono; [apply sub_pair_r|exact Hd2].
Qed.

(** [hash_readable] with a staged file copies what is left to read of
    the file object to the staged file, and closes the staged file. *)
Lemma hash_readable_copies fd alg t ino w hsrc :
  w_handles w !! fd = Some hsrc → h_binary hsrc = true →
  h_closed hsrc = false → fd ≠ tmp_fd t → h_ino hsrc ≠ ino →
  staging t ino w →
  ∃ w' pos',
    hash_readable fd alg (Some t) w
    = (Ok (hexdigest_of alg (drop (h_pos hsrc) (data_of w (h_ino hsrc)))),
       w') ∧
    data_of w' ino
    = data_of w ino ++ drop (h_pos hsrc) (data_of w (h_ino hsrc)) ∧
    w_handles w' !! fd = Some (File.with_pos hsrc pos') ∧
    differ_at (Some ino) [fd; tmp_fd t] w w'.
Proof.
  intros Hh Hb Hc Hne Hino Hst.
  assert (reads_apart (Some t) fd hsrc w) as Hap.
  { destruct Hst as (ht & ? & ? & <- & _). split; [done|]. by exists ht. }
  destruct (read_loop_ok (S (length (data_of w (h_ino hsrc)))) fd (Some t)
              [] w hsrc Hh Hb Hc Hap)
    as (w1 & pos' & Hloop & _ & Hh1 & _ & _ & _); [lia|].
  destruct (read_loop_staging _ _ _ _ _ _ _ _ Hne Hst Hloop)
    as (d & Hd & Hdata & Hst1 & Hdiff).
  simpl in Hd. subst d.
  destruct Hst1 as (ht & Hht & Hct & Hit & Hpos & Hin & Hf).
  eexists _, pos'. split; [|split; [|split]].
  - unfold hash_readable.
    rewrite (bind_step get_world _ w w w eq_refl). cbv beta. rewrite Hh.
    rewrite (bind_step _ _ _ _ _ Hloop).
    unfold tmp_close, File.close, bind. rewrite Hht. reflexivity.
  - done.
  - simpl. rewrite lookup_insert_ne by done. done.
  - eapply differ_at_trans; [exact Hdiff|].
    eapply differ_at_mono; [apply sub_pair_r|apply differ_at_handle].
Qed.

Lemma hash_file_copies p alg t ino w isrc :
  w_files w !! p = Some isrc → isrc ≠ ino → staging t ino w →
  ∃ w', hash_file (VStr p) alg (Some t) w
        = (Ok (hexdigest_of alg (data_of w isrc)), w') ∧
        data_of w' ino = data_of w ino ++ data_of w isrc ∧
        differ_at (Some ino) [fresh (dom (w_handles w)); tmp_fd t] w w'.
Proof.
  intros Hp Hne Hst.
  set (fd := fresh (dom (w_handles w))).
  set (h0 := {| h_name := p; h_ino := isrc; h_pos := 0; h_binary := true;
                h_closed := false |}).
  set (wa := set_handles (<[fd := h0]> (w_handles w)) w).
  assert (open_rb (VStr p) w = (Ok fd, wa)) as Hopen.
  { unfold open_rb, File.open_read. by rewrite Hp. }
  assert (fd ≠ tmp_fd t) as Hfd.
  { destruct Hst as (ht & Hht & _). intros E.
    apply (is_fresh (dom (w_handles w))). fold fd. rewrite E.
    apply elem_of_dom. by eexists. }
  assert (staging t ino wa) as Hsta.
  { apply (staging_differ t ino [fd] w wa Hst (differ_at_handle _ _ _ _)).
    intros ?%list_elem_of_singleton. congruence. }
  destruct (hash_readable_copies fd alg t ino wa h0)
    as (w1 & pos' & Heq & Hdata & Hh1 & Hdiff); try done.
  { simpl. by rewrite lookup_insert_eq. }
  eexists. split; [|split].
  - unfold hash_file. rewrite (bind_step _ _ _ _ _ Hopen).
    unfold try_finally. rewrite Heq. unfold File.close. rewrite Hh1.
    reflexivity.
  - simpl. exact Hdata.
  - eapply differ_at_trans; [|eapply differ_at_trans; [exact Hdiff|]].
    + eapply differ_at_mono; [apply sub_pair_l|apply differ_at_handle].
    + eapply differ_at_mono; [apply sub_pair_l|apply differ_at_handle].
Qed.

Lemma hash_file_handle_copies fd alg t ino w hsrc :
  w_handles w !! fd = Some hsrc → h_binary hsrc = true →
  h_closed hsrc = false → fd ≠ tmp_fd t → h_ino hsrc ≠ ino →
  staging t ino w →
  ∃ w', hash_file_handle (VFile fd) alg (Some t) w
        = (Ok (hexdigest_of alg
                 (drop (h_pos hsrc) (data_of w (h_ino hsrc)))), w') ∧
        data_of w' ino
        = data_of w ino ++ drop (h_pos hsrc) (data_of w (h_ino hsrc)) ∧
        differ_at (Some ino) [fd; tmp_fd t] w w'.
Proof.
  intros Hh Hb Hc Hne Hino Hst.
  destruct (hash_readable_copies fd alg t ino w hsrc)
    as (w1 & pos' & Heq & Hdata & Hh1 & Hdiff); try done.
  eexists. split; [|split].
  - unfold hash_file_handle, File.tell.
    erewrite bind_step; cycle 1.
    { erewrite bind_step; [|by apply opened_Ok]. done. }
    rewrite (bind_step _ _ _ _ _ Heq). unfold File.seek.
    erewrite bind_step; cycle 1.
    { erewrite bind_step; [|by apply opened_Ok]. done. }
    reflexivity.
  - exact Hdata.
  - eapply differ_at_trans; [exact Hdiff|].
    eapply differ_at_mono; [apply sub_pair_l|apply differ_at_handle].
Qed.

End Content.

(** ** What a put stores *)

Section PutFileContent.
Variable resolve : str → str.

Lemma putfile_fs self file name w a w' :
  putfile resolve self file name w = (Ok a, w') →
  a = {| digest := digest a; fs := self; abspath := abspath a;
         is_duplicate := is_duplicate a |}.
Proof.
  unfold putfile, putfile_store. intros (? & ? & _ & H)%bind_Ok.
  apply bind_Ok in H as ([] & ? & _ & H); [done|].
  apply bind_Ok in H as (? & ? & _ & H).
  apply bind_Ok in H as (? & ? & _ & H).
  apply bind_Ok in H as (? & ? & _ & H).
  apply bind_Ok in H as (? & ? & _ & [= <- _]). done.
Qed.

Lemma putfile_effect self file name content w a w' :
  file_bytes w file = Some content →
  putfile resolve self file name w = (Ok a, w') →
  put_effect self content a w w'.
Proof.
  intros Hbytes Hput. rewrite (putfile_fs _ _ _ _ _ _ Hput).
  apply putfile_inv in Hput
    as (src & tmp & w1 & w2 & _ & _ & Hmk & Hhash & Hdp & Hmv).
  pose proof Hmk as Hmk'.
  apply mktemp_staging in Hmk
    as (ino & Hst & Hnew & Hi1 & Hold & Hnone & Hfiles & Hfdnew & Hhs
        & Hdirs & _).
  assert (∃ fds, data_of w2 ino = content ∧ differ_at (Some ino) fds w1 w2 ∧
                 digest a = hexdigest_of (algorithm self) content)
    as (fds & Hdata & Hdiff & Hdig).
  { (* a path: [open] takes it as a [str] and as a [Path] alike *)
    assert (∀ p handler,
              file_bytes w (VStr p) = Some content →
              try_except (hash_file (VStr p) (algorithm self) (Some tmp))
                handler w1 = (Ok (digest a), w2) →
              ∃ fds, data_of w2 ino = content ∧
                     differ_at (Some ino) fds w1 w2 ∧
                     digest a = hexdigest_of (algorithm self) content)
      as Hpath.
    { clear Hbytes Hhash. intros p handler Hbytes Hhash. simpl in Hbytes.
      destruct (w_files w !! p) as [isrc|] eqn:Hp; [|done]. simpl in Hbytes.
      destruct (w_inodes w !! isrc) as [i|] eqn:Hi; [|done].
      injection Hbytes as <-.
      assert (isrc ≠ ino) as Hne by congruence.
      assert (w_files w1 !! p = Some isrc) as Hp1.
      { rewrite Hfiles, lookup_insert_ne; [done|]. congruence. }
      destruct (hash_file_copies p (algorithm self) tmp ino w1 isrc Hp1 Hne
                  Hst) as (w2' & Heq & Hd & Hdiff).
      unfold try_except in Hhash. rewrite Heq in Hhash.
      injection Hhash as Hdig <-. eexists.
      split; [|split; [exact Hdiff|]].
      + rewrite Hd. unfold data_of. by rewrite Hi1, Hold, Hi.
      + rewrite <- Hdig. unfold data_of. by rewrite Hold, Hi. }
    destruct file as [| |p| |fd|p]; try done; simpl in Hbytes;
      [exact (Hpath p _ Hbytes Hhash)| |exact (Hpath p _ Hbytes Hhash)].
    - destruct (w_handles w !! fd) as [hsrc|] eqn:Hh; [|done].
      simpl in Hbytes.
      destruct (w_inodes w !! h_ino hsrc) as [i|] eqn:Hi; [|done].
      injection Hbytes as <-.
      destruct (putfile_hash_handle self fd name w tmp w1 hsrc _ w2 Hh
                  (mk_is_Some _ _ Hi) Hmk' Hhash) as (Hb & Hc & _).
      assert (h_ino hsrc ≠ ino) as Hne by congruence.
      assert (fd ≠ tmp_fd tmp) as Hfd by congruence.
      assert (w_handles w1 !! fd = Some hsrc) as Hh1 by by rewrite Hhs.
      destruct (hash_file_handle_copies fd (algorithm self) tmp ino w1 hsrc
                  Hh1 Hb Hc Hfd Hne Hst) as (w2' & Heq & Hd & Hdiff).
      unfold try_except, hash_file, open_rb, raise in Hhash.
      unfold bind at 1 in Hhash. rewrite Heq in Hhash.
      injection Hhash as Hdig <-. eexists.
      split; [|split; [exact Hdiff|]].
      + rewrite Hd. unfold data_of. by rewrite Hi1, Hold, Hi.
      + rewrite <- Hdig. unfold data_of. by rewrite Hold, Hi. }
  eapply staged_commit; try done.
  unfold mode_of. by rewrite Hi1.
Qed.

End PutFileContent.

(** ** After a put *)

Section AfterPut.
Import Py PosixPath.

Lemma effect_lookup self content a w w' :
  put_effect self content a w w' → is_duplicate a = false →
  w_files w !! abspath a = None ∧
  ∃ ino, w_files w' = <[abspath a := ino]> (w_files w) ∧
         data_of w' ino = content.
Proof.
  intros (_ & _ & _ & _ & _ & H) Hd. rewrite Hd in H.
  destruct H as ((Hnone & _)%path_exists_false & ino & _ & Hf & Hdata & _).
  eauto.
Qed.

Lemma effect_is_file self content a w w' :
  put_effect self content a w w' →
  is_file w' (abspath a) = negb (is_duplicate a) || is_file w (abspath a).
Proof.
  intros (_ & _ & _ & _ & _ & H). unfold is_file.
  destruct (is_duplicate a); simpl.
  - by rewrite H.
  - destruct H as (_ & ino & _ & -> & _). rewrite lookup_insert_eq.
    by apply bool_decide_eq_true.
Qed.

Lemma read_back_effect self content a w w' n :
  put_effect self content a w w' → is_duplicate a = false →
  get self (digest a) w' = (Ok a, w') ∧
  exists_ self (digest a) w' = (Ok true, w') ∧
  ∃ fd w1 w2, open_ self (digest a) true w' = (Ok fd, w1) ∧
              File.read fd n w1 = (Ok (VBytes (take n content)), w2).
Proof.
  intros Heff Hdup.
  pose proof (effect_is_file _ _ _ _ _ Heff) as Hfile.
  rewrite Hdup in Hfile. simpl in Hfile.
  destruct (effect_lookup _ _ _ _ _ Heff Hdup) as (_ & ino & Hf & Hdata).
  destruct Heff as (Hfs & _ & Hdp & _).
  split; [|split].
  - unfold get, lift, OS.isfile, bind. rewrite Hdp, Hfile.
    destruct a; simpl in *. by subst.
  - unfold exists_, lift, OS.isfile, bind. by rewrite Hdp, Hfile.
  - unfold open_, lift. unfold bind at 1. rewrite Hdp.
    unfold File.open_read, File.new_handle. rewrite Hf, lookup_insert_eq.
    eexists _, _, _. split; [reflexivity|].
    erewrite read_binary; [|simpl; by rewrite lookup_insert_eq|done..].
    simpl. unfold data_of at 1. simpl. fold (data_of w' ino).
    by rewrite Hdata.
Qed.

Lemma delete_effect self content a w w' :
  put_effect self content a w w' → is_file w' (abspath a) = true →
  ∃ w'', delete self (digest a) w' = (Ok true, w'') ∧
         w_files w'' = base.delete (abspath a) (w_files w) ∧
         w_dirs w'' = w_dirs w' ∧ w_inodes w'' = w_inodes w' ∧
         exists_ self (digest a) w'' = (Ok false, w'') ∧
         get self (digest a) w'' = (Raise FileNotFoundError, w'').
Proof.
  intros Heff Hfile.
  pose proof Heff as (_ & _ & Hdp & _ & _ & H).
  pose proof (digestpath_startswith _ _ _ Hdp) as Hstart.
  apply bool_decide_eq_true in Hfile.
  exists (set_files (base.delete (abspath a) (w_files w')) w').
  assert (is_file (set_files (base.delete (abspath a) (w_files w')) w')
            (abspath a) = false) as Hgone.
  { apply bool_decide_eq_false. simpl. rewrite lookup_delete_eq.
    by intros [? ?]. }
  split; [|split; [|split; [done|split; [done|split]]]].
  - unfold delete, lift. unfold bind at 1. rewrite Hdp, Hstart. simpl.
    erewrite bind_step; [done|]. by apply unlink_Ok.
  - simpl. destruct (is_duplicate a).
    + by rewrite H.
    + destruct H as (_ & ino & _ & -> & _). by rewrite delete_insert_eq.
  - unfold exists_, lift, OS.isfile, bind. by rewrite Hdp, Hgone.
  - unfold get, lift, OS.isfile, bind. by rewrite Hdp, Hgone.
Qed.

End AfterPut.

(** ** Putting, reading back and deleting *)

Section PutTheorems.
Import Py PosixPath.

(** X5.  What [putstr] does to the file system when it returns.  The
    digest of the address is that of the bytes of the source.  A put that
    is no duplicate adds exactly one name, the path of the address, which
    was not taken, for a new file that holds the bytes of the source and
    has the mode of the store (the 0o600 of [NamedTemporaryFile] when
    [fmode] is [None]).  A duplicate leaves the names as they were: what
    was staged is dropped, nothing is compared.  In both cases the staged
    name is gone, no directory is removed and no file that was there is
    changed. *)
Theorem putstr_stores_content self src name content w a w' :
  source_bytes src = Some content →
  putstr self src name w = (Ok a, w') →
  digest a = hexdigest_of (algorithm self) content ∧
  w_dirs w ⊆ w_dirs w' ∧
  (∀ i, is_Some (w_inodes w !! i) → w_inodes w' !! i = w_inodes w !! i) ∧
  if is_duplicate a then w_files w' = w_files w
  else path_exists w (abspath a) = false ∧
       ∃ ino, w_inodes w !! ino = None ∧
              w_files w' = <[abspath a := ino]> (w_files w) ∧
              data_of w' ino = content ∧
              mode_of w' ino = Some (default 384%Z (fmode self)).
Proof.
  intros Hs Hp.
  by destruct (putstr_effect _ _ _ _ _ _ _ Hs Hp) as (_ & ? & _ & ? & ? & ?).
Qed.

Lemma putstr_stores_content_witness :
  let r := putstr Example.store (VStr (s2l "foo")) Example.name1
             Example.world0 in
  ∃ ino, w_files r.2 = <[Example.final := ino]> (w_files Example.world0) ∧
         data_of r.2 ino = Example.foo ∧ mode_of r.2 ino = Some 436%Z.
Proof.
  intros r.
  pose (a := {| digest := s2l "bf40"; fs := Example.store;
                abspath := Example.final; is_duplicate := false |}).
  assert (r = (Ok a, r.2)) as Hr by (vm_compute; reflexivity).
  destruct (putstr_stores_content Example.store (VStr (s2l "foo"))
              Example.name1 Example.foo Example.world0 a r.2 eq_refl Hr)
    as (_ & _ & _ & _ & ino & _ & Hf & Hd & Hm).
  exists ino. split; [exact Hf|]. split; [exact Hd|exact Hm].
Defined.

(** X6.  [putfile] has the same effect, for a path and for a file object:
    the bytes of the source (for a file object, the bytes from its offset
    on) are copied to a new file under the path of their digest, or
    dropped when the path is taken.  The source is copied, never linked,
    renamed or changed: its name and its bytes are as before. *)
Theorem putfile_stores_content resolve self file name content w a w' :
  file_bytes w file = Some content →
  putfile resolve self file name w = (Ok a, w') →
  digest a = hexdigest_of (algorithm self) content ∧
  w_dirs w ⊆ w_dirs w' ∧
  (∀ i, is_Some (w_inodes w !! i) → w_inodes w' !! i = w_inodes w !! i) ∧
  if is_duplicate a then w_files w' = w_files w
  else path_exists w (abspath a) = false ∧
       ∃ ino, w_inodes w !! ino = None ∧
              w_files w' = <[abspath a := ino]> (w_files w) ∧
              data_of w' ino = content ∧
              mode_of w' ino = Some (default 384%Z (fmode self)).
Proof.
  intros Hs Hp.
  by destruct (putfile_effect _ _ _ _ _ _ _ _ Hs Hp)
    as (_ & ? & _ & ? & ? & ?).
Qed.

Lemma putfile_stores_content_witness :
  let r := putfile Example.resolve Example.store (VFile 0) Example.name1
             Example.world_rb in
  ∃ ino, w_files r.2 = <[s2l "/srv/store/2/8/4/2847" := ino]>
                         (w_files Example.world_rb) ∧
         data_of r.2 ino = drop 1 Example.foo.
Proof.
  intros r.
  pose (a := {| digest := s2l "2847"; fs := Example.store;
                abspath := s2l "/srv/store/2/8/4/2847";
                is_duplicate := false |}).
  assert (r = (Ok a, r.2)) as Hr by (vm_compute; reflexivity).
  destruct (putfile_stores_content Example.resolve Example.store (VFile 0)
              Example.name1 (drop 1 Example.foo) Example.world_rb a r.2
              eq_refl Hr)
    as (_ & _ & _ & _ & ino & _ & Hf & Hd & _).
  exists ino. split; [exact Hf|exact Hd].
Defined.

(** X7.  What was put can be got and read back.  After a [putstr] or a
    [putfile] that returned an address that is no duplicate, [get] of its
    digest returns that very address, [exists] says [True], and [open]
    gives a file object from which [read(n)] returns the first [n] bytes
    of what was put. *)
Theorem put_read_back :
  (∀ self src name content w a w' n,
     source_bytes src = Some content →
     putstr self src name w = (Ok a, w') → is_duplicate a = false →
     get self (digest a) w' = (Ok a, w') ∧
     exists_ self (digest a) w' = (Ok true, w') ∧
     ∃ fd w1 w2, open_ self (digest a) true w' = (Ok fd, w1) ∧
                 File.read fd n w1 = (Ok (VBytes (take n content)), w2)) ∧
  (∀ resolve self file name content w a w' n,
     file_bytes w file = Some content →
     putfile resolve self file name w = (Ok a, w') → is_duplicate a = false →
     get self (digest a) w' = (Ok a, w') ∧
     exists_ self (digest a) w' = (Ok true, w') ∧
     ∃ fd w1 w2, open_ self (digest a) true w' = (Ok fd, w1) ∧
                 File.read fd n w1 = (Ok (VBytes (take n content)), w2)).
Proof.
  split.
  - intros * Hs Hp Hd. eapply read_back_effect; [|done].
    by eapply putstr_effect.
  - intros * Hs Hp Hd. eapply read_back_effect; [|done].
    by eapply putfile_effect.
Qed.

Lemma put_read_back_witness :
  let r := putstr Example.store (VStr (s2l "foo")) Example.name1
             Example.world0 in
  ∃ fd w1 w2, open_ Example.store (s2l "bf40") true r.2 = (Ok fd, w1) ∧
              File.read fd 8 w1 = (Ok (VBytes Example.foo), w2).
Proof.
  intros r.
  pose (a := {| digest := s2l "bf40"; fs := Example.store;
                abspath := Example.final; is_duplicate := false |}).
  assert (r = (Ok a, r.2)) as Hr by (vm_compute; reflexivity).
  destruct (proj1 put_read_back Example.store (VStr (s2l "foo"))
              Example.name1 Example.foo Example.world0 a r.2 8 eq_refl Hr
              eq_refl) as (_ & _ & H).
  exact H.
Defined.

(** X8.  [delete] undoes a put, and knows no owners.  After a put that
    was no duplicate, [delete] of the digest returns [True] and the names
    of the files are those from before the put; the shard directories
    that the put made stay.  After a duplicate put on a stored file,
    [delete] removes that one file: the address that the first put
    returned is dangling.  In both cases [exists] then says [False] and
    [get] raises [FileNotFoundError]. *)
Theorem put_then_delete :
  (∀ self src name content w a w',
     source_bytes src = Some content →
     putstr self src name w = (Ok a, w') →
     is_duplicate a = false ∨ is_file w (abspath a) = true →
     ∃ w'', delete self (digest a) w' = (Ok true, w'') ∧
            w_files w'' = base.delete (abspath a) (w_files w) ∧
            (is_duplicate a = false → w_files w'' = w_files w) ∧
            w_dirs w'' = w_dirs w' ∧
            exists_ self (digest a) w'' = (Ok false, w'') ∧
            get self (digest a) w'' = (Raise FileNotFoundError, w'')) ∧
  (∀ resolve self file name content w a w',
     file_bytes w file = Some content →
     putfile resolve self file name w = (Ok a, w') →
     is_duplicate a = false ∨ is_file w (abspath a) = true →
     ∃ w'', delete self (digest a) w' = (Ok true, w'') ∧
            w_files w'' = base.delete (abspath a) (w_files w) ∧
            (is_duplicate a = false → w_files w'' = w_files w) ∧
            w_dirs w'' = w_dirs w' ∧
            exists_ self (digest a) w'' = (Ok false, w'') ∧
            get self (digest a) w'' = (Raise FileNotFoundError, w'')).
Proof.
  assert (∀ self content a w w',
            put_effect self content a w w' →
            is_duplicate a = false ∨ is_file w (abspath a) = true →
            ∃ w'', delete self (digest a) w' = (Ok true, w'') ∧
              w_files w'' = base.delete (abspath a) (w_files w) ∧
              (is_duplicate a = false → w_files w'' = w_files w) ∧
              w_dirs w'' = w_dirs w' ∧
              exists_ self (digest a) w'' = (Ok false, w'') ∧
              get self (digest a) w'' = (Raise FileNotFoundError, w''))
    as Hgen.
  { intros self content a w w' Heff Hcase.
    assert (is_file w' (abspath a) = true) as Hfile.
    { rewrite (effect_is_file _ _ _ _ _ Heff).
      destruct Hcase as [-> | ->]; [done|]. apply orb_true_r. }
    destruct (delete_effect _ _ _ _ _ Heff Hfile)
      as (w'' & Hdel & Hf & Hd & _ & Hex & Hget).
    exists w''. split; [done|]. split; [done|]. split; [|done].
    intros Hdup. rewrite Hf.
    destruct (effect_lookup _ _ _ _ _ Heff Hdup) as (Hnone & _).
    by apply delete_id. }
  split.
  - intros * Hs Hp. eapply Hgen. by eapply putstr_effect.
  - intros * Hs Hp. eapply Hgen. by eapply putfile_effect.
Qed.

Lemma put_then_delete_witness :
  let r := putstr Example.store (VStr (s2l "foo")) Example.name1
             Example.world0 in
  ∃ w'', delete Example.store (s2l "bf40") r.2 = (Ok true, w'') ∧
         w_files w'' = w_files Example.world0 ∧
         is_dir w'' (s2l "/srv/store/b/f/4") = true.
Proof.
  intros r.
  pose (a := {| digest := s2l "bf40"; fs := Example.store;
                abspath := Example.final; is_duplicate := false |}).
  assert (r = (Ok a, r.2)) as Hr by (vm_compute; reflexivity).
  destruct (proj1 put_then_delete Example.store (VStr (s2l "foo"))
              Example.name1 Example.foo Example.world0 a r.2 eq_refl Hr
              (or_introl eq_refl)) as (w'' & Hdel & _ & Hf & Hd & _).
  exists w''. split; [exact Hdel|]. split; [exact (Hf eq_refl)|].
  unfold is_dir. rewrite Hd. vm_compute. reflexivity.
Defined.

(** X9.  A directory at the path of the digest makes a put report a
    duplicate: [os.link] fails with [FileExistsError] whatever is there.
    The put returns an address, nothing is stored, and [exists] says
    [False] and [get] raises [FileNotFoundError] for the digest just
    returned. *)
Theorem put_over_directory :
  (∀ self src name content w a w',
     source_bytes src = Some content →
     putstr self src name w = (Ok a, w') →
     is_dir w (abspath a) = true → is_file w (abspath a) = false →
     is_duplicate a = true ∧ w_files w' = w_files w ∧
     exists_ self (digest a) w' = (Ok false, w') ∧
     get self (digest a) w' = (Raise FileNotFoundError, w')) ∧
  (∀ resolve self file name content w a w',
     file_bytes w file = Some content →
     putfile resolve self file name w = (Ok a, w') →
     is_dir w (abspath a) = true → is_file w (abspath a) = false →
     is_duplicate a = true ∧ w_files w' = w_files w ∧
     exists_ self (digest a) w' = (Ok false, w') ∧
     get self (digest a) w' = (Raise FileNotFoundError, w')).
Proof.
  assert (∀ self content a w w',
            put_effect self content a w w' →
            is_dir w (abspath a) = true → is_file w (abspath a) = false →
            is_duplicate a = true ∧ w_files w' = w_files w ∧
            exists_ self (digest a) w' = (Ok false, w') ∧
            get self (digest a) w' = (Raise FileNotFoundError, w'))
    as Hgen.
  { intros self content a w w' Heff Hdir Hfile.
    pose proof (effect_is_file _ _ _ _ _ Heff) as Hfile'.
    destruct Heff as (_ & _ & Hdp & _ & _ & H).
    destruct (is_duplicate a).
    - simpl in Hfile'. rewrite Hfile in Hfile'.
      split; [done|]. split; [done|].
      unfold exists_, get, lift, OS.isfile, bind. by rewrite Hdp, Hfile'.
    - destruct H as (Hex & _). unfold path_exists in Hex.
      rewrite Hdir, orb_true_r in Hex. done. }
  split.
  - intros * Hs Hp. eapply Hgen. by eapply putstr_effect.
  - intros * Hs Hp. eapply Hgen. by eapply putfile_effect.
Qed.

Lemma put_over_directory_witness :
  let r := putstr Example.store (VStr (s2l "foo")) Example.name1
             Example.world_taken in
  is_ok r.1 = true ∧
  get Example.store (s2l "bf40") r.2 = (Raise FileNotFoundError, r.2).
Proof.
  intros r.
  pose (a := {| digest := s2l "bf40"; fs := Example.store;
                abspath := Example.final; is_duplicate := true |}).
  assert (r = (Ok a, r.2)) as Hr by (vm_compute; reflexivity).
  destruct (proj1 put_over_directory Example.store (VStr (s2l "foo"))
              Example.name1 Example.foo Example.world_taken a r.2 eq_refl Hr
              eq_refl eq_refl) as (_ & _ & _ & Hget).
  split; [rewrite Hr; reflexivity|exact Hget].
Defined.

End PutTheorems.

(** ** Hashing without a staging file *)

Section ReadOnly.
Import Py PosixPath.

Local Opaque block_size.

Lemma read_world fd n w r w1 :
  File.read fd n w = (r, w1) → differ_at None [fd] w w1.
Proof.
  unfold File.read, bind. destruct (File.opened fd w) as [[h|e] w0] eqn:Ho.
  - apply opened_world in Ho as ->. unfold get_world, File.set_pos, ret.
    intros [= _ <-]. apply differ_at_handle.
  - apply opened_world in Ho as ->. intros [= _ <-]. apply differ_at_refl.
Qed.

Lemma read_loop_readonly fuel fd hs w r w' :
  read_loop fuel fd None hs w = (r, w') → differ_at None [fd] w w'.
Proof.
  revert hs w. induction fuel as [|fuel IH]; intros hs w; simpl.
  { intros [= _ <-]. apply differ_at_refl. }
  unfold bind at 1.
  destruct (File.read fd block_size w) as [[chunk|e] w1] eqn:Hread.
  2:{ intros [= _ <-]. by eapply read_world. }
  apply read_world in Hread.
  destruct chunk as [| | |b| |]; try (intros [= _ <-]; done).
  destruct b as [|c b]; [intros [= _ <-]; done|].
  unfold bind, ret. intros H%IH. by eapply differ_at_trans.
Qed.

Lemma hash_readable_readonly fd alg w r w' :
  hash_readable fd alg None w = (r, w') → differ_at None [fd] w w'.
Proof.
  unfold hash_readable. unfold bind at 1, get_world. unfold bind at 1.
  destruct (read_loop _ fd None [] w) as [[h|e] w1] eqn:Hloop;
    apply read_loop_readonly in Hloop.
  - unfold bind, tmp_close, ret. by intros [= _ <-].
  - by intros [= _ <-].
Qed.

(** Hashing a file without a staging file. *)
Lemma hash_file_plain p alg w ino :
  w_files w !! p = Some ino →
  ∃ h w', hash_file (VStr p) alg None w
          = (Ok (hexdigest_of alg (data_of w ino)), w') ∧
    w_handles w !! fresh (dom (w_handles w)) = None ∧
    w_handles w' = <[fresh (dom (w_handles w)) := h]> (w_handles w) ∧
    h_closed h = true ∧ h_name h = p ∧
    w_files w' = w_files w ∧ w_dirs w' = w_dirs w ∧
    w_inodes w' = w_inodes w.
Proof.
  intros Hp.
  set (fd := fresh (dom (w_handles w))).
  set (hsrc := {| h_name := p; h_ino := ino; h_pos := 0; h_binary := true;
                  h_closed := false |}).
  set (w1 := set_handles (<[fd := hsrc]> (w_handles w)) w).
  assert (w_handles w1 !! fd = Some hsrc) as Hh1.
  { subst w1. simpl. by rewrite lookup_insert_eq. }
  destruct (hash_readable_ok fd alg None w1 hsrc Hh1 eq_refl eq_refl I)
    as (w2 & pos' & Hhash & _ & Hh2 & _ & _).
  pose proof (hash_readable_readonly _ _ _ _ _ Hhash)
    as ((Hf & Hd) & Hi & _ & Hh).
  eexists _, _. split; [|split; [|split; [|split; [|split]]]].
  - unfold hash_file, open_rb, File.open_read.
    unfold bind at 1. rewrite Hp. unfold File.new_handle. fold fd.
    fold hsrc. fold w1. unfold try_finally. rewrite Hhash.
    unfold File.close. rewrite Hh2. reflexivity.
  - apply not_elem_of_dom, is_fresh.
  - simpl. apply map_eq. intros fd'.
    destruct (decide (fd' = fd)) as [->|Hne].
    + by rewrite !lookup_insert_eq.
    + rewrite !lookup_insert_ne by done. rewrite Hh.
      * subst w1. simpl. by rewrite lookup_insert_ne.
      * by intros ->%list_elem_of_singleton.
  - done.
  - done.
  - simpl. split; [done|]. split; [done|]. apply map_eq. intros i.
    by rewrite Hi.
Qed.

(** X10.  [hash_file] without a staging file only reads.  On a file it
    returns the digest of its bytes; files, directories and bytes are as
    before, so are the file objects that were there, and the one file
    object it opened is closed when it returns (the [with] block).  On a
    path that is no file it raises the error of [open] and nothing has
    changed. *)
Theorem hash_file_reads_only p alg w :
  match w_files w !! p with
  | Some ino =>
      ∃ h w', hash_file (VStr p) alg None w
              = (Ok (hexdigest_of alg (data_of w ino)), w') ∧
        w_handles w !! fresh (dom (w_handles w)) = None ∧
        w_handles w' = <[fresh (dom (w_handles w)) := h]> (w_handles w) ∧
        h_closed h = true ∧ h_name h = p ∧
        w_files w' = w_files w ∧ w_dirs w' = w_dirs w ∧
        w_inodes w' = w_inodes w
  | None =>
      ∃ e, hash_file (VStr p) alg None w = (Raise e, w) ∧
           e ∈ [IsADirectoryError; NotADirectoryError; FileNotFoundError]
  end.
Proof.
  destruct (w_files w !! p) as [ino|] eqn:Hp.
  - by apply hash_file_plain.
  - unfold hash_file, open_rb, File.open_read. unfold bind. rewrite Hp.
    destruct (is_dir w p); [|destruct (is_file w (dirname p))];
      eexists; (split; [reflexivity|]); set_solver.
Qed.

Lemma hash_file_reads_only_witness :
  ∃ h w', hash_file (VStr (s2l "/data/foo.txt")) (Example.toy_hash 2) None
            Example.world0 = (Ok (s2l "bf40"), w') ∧
          w_handles w' = <[0 := h]> ∅ ∧ h_closed h = true ∧
          w_inodes w' = w_inodes Example.world0.
Proof.
  pose proof (hash_file_reads_only (s2l "/data/foo.txt") (Example.toy_hash 2)
                Example.world0) as H.
  change (w_files Example.world0 !! s2l "/data/foo.txt") with (Some 1) in H.
  destruct H as (h & w' & Heq & _ & Hh & Hc & _ & _ & _ & Hi).
  exists h, w'. split; [exact Heq|]. split; [exact Hh|]. split; [exact Hc|].
  exact Hi.
Defined.

Lemma mismatch_same self w w' p :
  w_files w' = w_files w → w_inodes w' = w_inodes w →
  mismatch self w' p = mismatch self w p.
Proof. intros Hf Hi. unfold mismatch, data_of. by rewrite Hf, Hi. Qed.

Lemma omap_pointwise {A B} (f g : A → option B) (l : list A) :
  (∀ x, f x = g x) → omap f l = omap g l.
Proof.
  intros H. induction l as [|x l IH]; [done|]. csimpl. by rewrite H, IH.
Qed.

Lemma corrupted_step_exact self p w ino :
  constructed self → hashlib_contract (algorithm self) →
  w_files w !! p = Some ino → length (basename p) = digestlen self →
  ∃ w', corrupted_step self p w = (Ok (mismatch self w p), w') ∧
        w_files w' = w_files w ∧ w_dirs w' = w_dirs w ∧
        w_inodes w' = w_inodes w.
Proof.
  intros Hc Halg Hp Hname.
  destruct (constructed_inv self Hc) as (_ & _ & Hdl).
  destruct (hash_file_plain p (algorithm self) w ino Hp)
    as (h & w' & Hhash & _ & _ & _ & _ & Hf & Hd & Hi).
  exists w'. split; [|done].
  unfold mismatch. rewrite Hp. simpl.
  set (d := hexdigest_of (algorithm self) (data_of w ino)) in *.
  assert (length d = digestlen self) as Hlen
    by (rewrite Hdl; apply Halg).
  unfold corrupted_step.
  erewrite bind_step; [|exact Hhash].
  erewrite bind_step; [|unfold lift; by rewrite last_item_basename].
  rewrite Hlen, Hname. rewrite bool_decide_true by done. simpl.
  assert (d ≠ []) as Hne.
  { intros E. rewrite E in Hlen. simpl in Hlen.
    pose proof (constructed_digestlen_pos self Hc Halg). lia. }
  assert (valid_digest self d) as Hvalid.
  { split; [done|]. apply lower_hex_all, Halg. }
  erewrite bind_step; [|unfold lift; by rewrite (digestpath_valid _ _ Hne)].
  by case_bool_decide.
Qed.

Lemma corrupted_loop_exact self paths w :
  constructed self → hashlib_contract (algorithm self) →
  (∀ p, p ∈ paths → is_Some (w_files w !! p)) →
  Forall (λ p, length (basename p) = digestlen self) paths →
  ∃ w', corrupted_loop self paths w
        = (omap (mismatch self w) paths, Ok tt, w') ∧
        w_files w' = w_files w ∧ w_dirs w' = w_dirs w ∧
        w_inodes w' = w_inodes w.
Proof.
  intros Hc Halg. revert w.
  induction paths as [|p paths IH]; intros w Hfiles Hnames; simpl.
  { by exists w. }
  apply Forall_cons in Hnames as [Hname Hnames].
  destruct (Hfiles p ltac:(left)) as [ino Hp].
  destruct (corrupted_step_exact self p w ino Hc Halg Hp Hname)
    as (w1 & -> & Hf1 & Hd1 & Hi1).
  destruct (IH w1) as (w2 & -> & Hf2 & Hd2 & Hi2); [|done|].
  { intros q Hq. rewrite Hf1. apply Hfiles. by right. }
  exists w2. split; [|by rewrite Hf2, Hd2, Hi2].
  f_equal. f_equal.
  rewrite (omap_pointwise (mismatch self w1) (mismatch self w));
    [|intros; by apply mismatch_same].
  by destruct (mismatch self w p).
Qed.

End ReadOnly.

(** ** The scan and the integrity of the store *)

Section Integrity.
Import Py PosixPath.

Lemma walk_files_file top w p :
  p ∈ OS.walk_files top w → is_Some (w_files w !! p).
Proof.
  intros [_ Hp]%list_elem_of_filter.
  apply list_elem_of_fmap in Hp as ([q ino] & -> & Hq).
  apply elem_of_map_to_list in Hq. by exists ino.
Qed.

Lemma names_checked (l : list str) n :
  forallb (λ p, length (basename p) =? n) l = true →
  ∀ p, p ∈ l → length (basename p) = n.
Proof.
  rewrite forallb_forall. intros H p Hp%list_elem_of_In.
  by apply Nat.eqb_eq, H.
Qed.

Lemma files_checked w :
  forallb (λ x, bool_decide (is_Some (w_inodes w !! x.2)))
    (map_to_list (w_files w)) = true →
  ∀ p ino, w_files w !! p = Some ino → is_Some (w_inodes w !! ino).
Proof.
  rewrite forallb_forall. intros H p ino Hp%elem_of_map_to_list.
  apply list_elem_of_In in Hp. by apply H, bool_decide_eq_true in Hp.
Qed.

(** X11.  What the scan reports.  On a constructed store where every
    name under the root has the length of a digest, [corrupted] runs to
    its end and yields, in the order of the walk, exactly the files that
    are not at the path of the digest of their bytes, each with the
    address its bytes belong at; it changes no file, directory or byte. *)
Theorem corrupted_yields_mismatches self w :
  constructed self → hashlib_contract (algorithm self) →
  (∀ p, p ∈ OS.walk_files (root self) w →
        length (basename p) = digestlen self) →
  ∃ w', corrupted self w
        = (omap (mismatch self w) (OS.walk_files (root self) w), Ok tt, w') ∧
        w_files w' = w_files w ∧ w_dirs w' = w_dirs w ∧
        w_inodes w' = w_inodes w.
Proof.
  intros Hc Halg Hnames. unfold corrupted.
  apply corrupted_loop_exact; [done..| |].
  - intros p Hp. by eapply walk_files_file.
  - by apply Forall_forall.
Qed.

Lemma corrupted_yields_mismatches_witness :
  (corrupted Example.store Example.world_bad).1.1
  = [(s2l "/srv/store/0/0/0/0000",
      {| digest := s2l "bf40"; fs := Example.store;
         abspath := Example.final; is_duplicate := false |})].
Proof.
  destruct (corrupted_yields_mismatches Example.store Example.world_bad)
    as (w' & Heq & _).
  - reflexivity.
  - apply toy_hash_contract. simpl. lia.
  - apply names_checked. vm_compute. reflexivity.
  - rewrite Heq. vm_compute. reflexivity.
Defined.

Lemma omap_pointwise_in {A B} (f g : A → option B) (l : list A) :
  (∀ x, x ∈ l → f x = g x) → omap f l = omap g l.
Proof.
  induction l as [|x l IH]; intros H; [done|]. csimpl.
  rewrite H by left. rewrite IH; [done|]. intros y Hy. apply H. by right.
Qed.

Lemma basename_digestpath self d p :
  constructed self → digestpath self d = Ok p → basename p = d.
Proof.
  intros (Hdepth & Hwidth & _)%constructed_inv Hdp.
  pose proof Hdp as (_ & Hsep & ->)%digestpath_Ok.
  assert (d ≠ []) as Hne.
  { unfold digestpath in Hdp. case_bool_decide; [|done]. simpl in Hdp.
    destruct (int16 d) eqn:E; [|done]. by eapply int16_nonempty. }
  destruct (join_shard_last self d Hdepth Hwidth Hne Hsep) as [y Hy].
  pose proof (unshard_app_sep y d Hsep) as Hun. rewrite <- Hy in Hun.
  unfold unshard in Hun. destruct (negb _); [done|].
  rewrite last_item_basename in Hun. by injection Hun.
Qed.

Lemma digestpath_below self d p :
  constructed self → digestpath self d = Ok p →
  startswith p (OS.below (root self)) = true.
Proof.
  intros (Hdepth & Hwidth & _)%constructed_inv Hdp.
  pose proof Hdp as (_ & Hsep & ->)%digestpath_Ok.
  apply final_below_root; try done.
  unfold digestpath in Hdp. case_bool_decide; [|done]. simpl in Hdp.
  destruct (int16 d) eqn:E; [|done]. by eapply int16_nonempty.
Qed.

(** A put on a store without dangling names leaves the verdict of the
    scan on every file that was there, and the file it adds passes. *)
Lemma effect_integrity self content a w w' :
  constructed self → hashlib_contract (algorithm self) →
  (∀ p ino, w_files w !! p = Some ino → is_Some (w_inodes w !! ino)) →
  (∀ p, p ∈ OS.walk_files (root self) w →
        length (basename p) = digestlen self) →
  put_effect self content a w w' →
  (∀ p, p ∈ OS.walk_files (root self) w' →
        length (basename p) = digestlen self) ∧
  omap (mismatch self w') (OS.walk_files (root self) w')
  ≡ₚ omap (mismatch self w) (OS.walk_files (root self) w).
Proof.
  intros Hc Halg Hwf Hnames (_ & Hdig & Hdp & _ & Hin & H).
  assert (∀ p, is_Some (w_files w !! p) → w_files w' !! p = w_files w !! p →
               mismatch self w' p = mismatch self w p) as Hsame.
  { intros p [ino Hp] Hp'. unfold mismatch. rewrite Hp', Hp. simpl.
    unfold data_of. by rewrite (Hin ino (Hwf p ino Hp)). }
  destruct (is_duplicate a).
  - assert (OS.walk_files (root self) w' = OS.walk_files (root self) w)
      as Hwalk by (unfold OS.walk_files; by rewrite H).
    rewrite Hwalk. split; [done|].
    rewrite (omap_pointwise_in (mismatch self w') (mismatch self w));
      [done|].
    intros p Hp%walk_files_file. apply Hsame; [done|]. by rewrite H.
  - destruct H as ((Hnone & _)%path_exists_false & ino & _ & Hf & Hdata & _).
    pose proof (walk_files_insert (root self) w w' (abspath a) ino Hf Hnone
                  (digestpath_below _ _ _ Hc Hdp)) as Hwalk.
    split.
    + intros p Hp. rewrite Hwalk in Hp.
      apply elem_of_cons in Hp as [->|Hp]; [|by apply Hnames].
      rewrite (basename_digestpath _ _ _ Hc Hdp).
      by apply digestpath_Ok in Hdp as (? & _).
    + rewrite Hwalk. csimpl.
      assert (mismatch self w' (abspath a) = None) as ->.
      { unfold mismatch. rewrite Hf, lookup_insert_eq. simpl.
        rewrite Hdata, <- Hdig.
        apply digestpath_Ok in Hdp as (_ & _ & <-).
        by rewrite bool_decide_false by (by intros ?). }
      rewrite (omap_pointwise_in (mismatch self w') (mismatch self w));
        [done|].
      intros p Hp%walk_files_file. apply Hsame; [done|].
      rewrite Hf, lookup_insert_ne; [done|]. intros <-.
      destruct Hp as [? ?]. congruence.
Qed.

(** X12.  A put keeps the store intact.  On a constructed store whose
    names under the root have the length of a digest and whose names all
    have a file behind them, the scan after a [putstr] or a [putfile]
    that returned runs to its end and reports the files it reported
    before the put: what a put adds is at the path of its digest, and
    what was there is not touched. *)
Theorem put_keeps_integrity :
  (∀ self src name content w a w',
     constructed self → hashlib_contract (algorithm self) →
     (∀ p ino, w_files w !! p = Some ino → is_Some (w_inodes w !! ino)) →
     (∀ p, p ∈ OS.walk_files (root self) w →
           length (basename p) = digestlen self) →
     source_bytes src = Some content →
     putstr self src name w = (Ok a, w') →
     (corrupted self w').1.2 = Ok tt ∧
     (corrupted self w').1.1 ≡ₚ (corrupted self w).1.1) ∧
  (∀ resolve self file name content w a w',
     constructed self → hashlib_contract (algorithm self) →
     (∀ p ino, w_files w !! p = Some ino → is_Some (w_inodes w !! ino)) →
     (∀ p, p ∈ OS.walk_files (root self) w →
           length (basename p) = digestlen self) →
     file_bytes w file = Some content →
     putfile resolve self file name w = (Ok a, w') →
     (corrupted self w').1.2 = Ok tt ∧
     (corrupted self w').1.1 ≡ₚ (corrupted self w).1.1).
Proof.
  assert (∀ self content a w w',
     constructed self → hashlib_contract (algorithm self) →
     (∀ p ino, w_files w !! p = Some ino → is_Some (w_inodes w !! ino)) →
     (∀ p, p ∈ OS.walk_files (root self) w →
           length (basename p) = digestlen self) →
     put_effect self content a w w' →
     (corrupted self w').1.2 = Ok tt ∧
     (corrupted self w').1.1 ≡ₚ (corrupted self w).1.1) as Hgen.
  { intros self content a w w' Hc Halg Hwf Hnames Heff.
    destruct (effect_integrity _ _ _ _ _ Hc Halg Hwf Hnames Heff)
      as [Hnames' Hperm].
    destruct (corrupted_loop_exact self (OS.walk_files (root self) w) w
                Hc Halg) as (w1 & Heq & _).
    { intros p Hp. by eapply walk_files_file. }
    { by apply Forall_forall. }
    destruct (corrupted_loop_exact self (OS.walk_files (root self) w') w'
                Hc Halg) as (w2 & Heq' & _).
    { intros p Hp. by eapply walk_files_file. }
    { by apply Forall_forall. }
    unfold corrupted. rewrite Heq, Heq'. done. }
  split.
  - intros * Hc Halg Hwf Hnames Hs Hp. eapply Hgen; try done.
    by eapply putstr_effect.
  - intros * Hc Halg Hwf Hnames Hs Hp. eapply Hgen; try done.
    by eapply putfile_effect.
Qed.

Lemma put_keeps_integrity_witness :
  let r := putstr Example.store (VStr (s2l "foo")) Example.name1
             Example.world_bad in
  (corrupted Example.store r.2).1.2 = Ok tt ∧
  (corrupted Example.store r.2).1.1
  ≡ₚ (corrupted Example.store Example.world_bad).1.1.
Proof.
  intros r.
  pose (a := {| digest := s2l "bf40"; fs := Example.store;
                abspath := Example.final; is_duplicate := false |}).
  assert (r = (Ok a, r.2)) as Hr by (vm_compute; reflexivity).
  apply (proj1 put_keeps_integrity Example.store (VStr (s2l "foo"))
           Example.name1 Example.foo Example.world_bad a r.2).
  - reflexivity.
  - apply toy_hash_contract. simpl. lia.
  - apply files_checked. vm_compute. reflexivity.
  - apply names_checked. vm_compute. reflexivity.
  - reflexivity.
  - exact Hr.
Defined.

End Integrity.

(** ** How the commit and the staging end *)

Section Outcomes.
Import Py PosixPath.

Lemma unlink_Raise p w e w' :
  OS.unlink p w = (Raise e, w') → w' = w ∧ w_files w !! p = None.
Proof.
  unfold OS.unlink. destruct (w_files w !! p); [done|].
  repeat case_match; by intros [= _ <-].
Qed.

(** When [_mvtemp] raises, at most directories were made. *)
Lemma mvtemp_Raise self tmp filepath w e w' :
  _mvtemp self tmp filepath w = (Raise e, w') → grows w w'.
Proof.
  unfold _mvtemp. intros [Htry|(returned & w1 & Htry & Hrest)]%bind_Raise.
  - unfold try_except in Htry.
    destruct (bind (OS.link tmp filepath) _ w) as [[a|e0] w0] eqn:Hlink;
      [done|].
    apply bind_Raise in Hlink as [Hlink|([] & ? & _ & [=])].
    pose proof (link_Raise _ _ _ _ _ Hlink) as ->.
    destruct e0; try (injection Htry as _ <-; apply grows_refl).
    + apply bind_Raise in Htry as [Hun|([] & ? & _ & [=])].
      apply unlink_Raise in Hun as [-> _]. apply grows_refl.
    + apply bind_Raise in Htry as [Hmk|([] & w2 & Hmk & Htry)].
      * by apply makedirs_grows in Hmk.
      * apply makedirs_grows in Hmk.
        apply bind_Raise in Htry as [Hl|([] & ? & _ & [=])].
        by apply link_Raise in Hl as ->.
  - exfalso. destruct returned as [b|]; [done|].
    apply bind_Raise in Hrest as [Hun|([] & ? & _ & [=])].
    apply unlink_Raise in Hun as [-> Hnone].
    assert (∀ w0 w2, OS.link tmp filepath w0 = (Ok tt, w2) →
                     is_Some (w_files w2 !! tmp)) as Hlinked.
    { intros w0 w2 (ino & Hino & _ & Hdst & ->)%link_Ok. simpl.
      exists ino. rewrite lookup_insert_ne; [done|]. intros <-.
      apply path_exists_false in Hdst as (? & _). congruence. }
    unfold try_except in Htry.
    destruct (bind (OS.link tmp filepath) _ w) as [[a|e0] w0] eqn:Hlink.
    + injection Htry as -> ->.
      apply bind_Ok in Hlink as ([] & w2 & Hlink & [= <-]).
      apply Hlinked in Hlink as [? ?]. congruence.
    + apply bind_Raise in Hlink as [Hlink|([] & ? & _ & [=])].
      destruct e0; try done.
      * by apply bind_Ok in Htry as ([] & w2 & _ & [=]).
      * apply bind_Ok in Htry as ([] & w2 & _ & Htry).
        apply bind_Ok in Htry as ([] & w3 & Hlink2 & [= <-]).
        apply Hlinked in Hlink2 as [? ?]. congruence.
Qed.

(** X13.  [_mvtemp] touches two names at most, whatever its outcome.  It
    never changes the bytes of a file or a file object, it removes no
    directory, and it removes or redirects no name but the staged one: a
    file that is at the final path stays as it is.  When it raises, the
    names of the files are as before (the staged file is still there);
    directories may have been made. *)
Theorem mvtemp_touches_two_names self tmp filepath w r w' :
  _mvtemp self tmp filepath w = (r, w') →
  w_inodes w' = w_inodes w ∧ w_handles w' = w_handles w ∧
  w_dirs w ⊆ w_dirs w' ∧
  (∀ p ino, p ≠ tmp → w_files w !! p = Some ino →
            w_files w' !! p = Some ino) ∧
  (∀ p, p ≠ tmp → p ≠ filepath → w_files w' !! p = w_files w !! p) ∧
  (is_ok r = false → w_files w' = w_files w).
Proof.
  destruct r as [b|e]; intros H.
  - apply mvtemp_inv in H
      as [(_ & _ & _ & ->)|(_ & Hex & ino & w1 & Hg & _ & _ & ->)]; simpl.
    + split; [done|]. split; [done|]. split; [done|].
      split; [|split; [|done]].
      * intros p i Hp Hi. by rewrite lookup_delete_ne.
      * intros p Hp _. by rewrite lookup_delete_ne.
    + destruct Hg as (_ & Hi & Hh & Hd).
      apply path_exists_false in Hex as (Hnone & _).
      split; [done|]. split; [done|]. split; [done|].
      split; [|split; [|done]].
      * intros p i Hp Hi'. rewrite lookup_delete_ne by done.
        rewrite lookup_insert_ne; [done|]. congruence.
      * intros p Hp Hp'. rewrite lookup_delete_ne by done.
        by rewrite lookup_insert_ne.
  - apply mvtemp_Raise in H as (Hf & Hi & Hh & Hd).
    split; [done|]. split; [done|]. split; [done|]. rewrite Hf. done.
Qed.

Lemma mvtemp_touches_two_names_witness :
  let r := _mvtemp Example.store (s2l "/srv/tmp/missing") Example.final
             Example.world0 in
  r.1 = Raise FileNotFoundError ∧
  w_files r.2 = w_files Example.world0 ∧
  is_dir Example.world0 (s2l "/srv/store/b/f/4") = false ∧
  is_dir r.2 (s2l "/srv/store/b/f/4") = true.
Proof.
  intros r.
  destruct (mvtemp_touches_two_names Example.store (s2l "/srv/tmp/missing")
              Example.final Example.world0 r.1 r.2)
    as (_ & _ & _ & _ & _ & Hf).
  - apply surjective_pairing.
  - split; [vm_compute; reflexivity|]. split; [|split].
    + apply Hf. vm_compute. reflexivity.
    + vm_compute. reflexivity.
    + vm_compute. reflexivity.
Defined.

Lemma chmod_file_Ok p mode w ino :
  w_files w !! p = Some ino → ∃ w', OS.chmod p mode w = (Ok tt, w').
Proof. intros H. unfold OS.chmod. rewrite H. by eexists. Qed.

(** When [_mktemp] raises, at most directories were made. *)
Lemma mktemp_Raise self name w e w' :
  _mktemp self name w = (Raise e, w') → grows w w'.
Proof.
  unfold _mktemp. intros [Htry|(tmp & w1 & Htry & Hrest)]%bind_Raise.
  - unfold try_except in Htry.
    destruct (Tempfile.NamedTemporaryFile _ _ _ w) as [[t|e0] w0] eqn:Hntf;
      [done|].
    apply ntf_Raise in Hntf as ->.
    destruct e0; try (injection Htry as _ <-; apply grows_refl).
    apply bind_Raise in Htry as [Hmk|([] & w2 & Hmk & Hntf)].
    + by apply makedirs_grows in Hmk.
    + apply makedirs_grows in Hmk. by apply ntf_Raise in Hntf as ->.
  - exfalso.
    assert (is_Some (w_files w1 !! tmp_name tmp)) as [ino Hino].
    { unfold try_except in Htry.
      destruct (Tempfile.NamedTemporaryFile _ _ _ w) as [[t|e0] w0] eqn:Hntf.
      - injection Htry as -> ->. apply ntf_Ok in Hntf as [_ Hopen].
        apply open_excl_staged in Hopen as (_ & _ & ino & -> & _).
        rewrite lookup_insert_eq. by eexists.
      - destruct e0; try done.
        apply bind_Ok in Htry as ([] & w2 & _ & Hntf2).
        apply ntf_Ok in Hntf2 as [_ Hopen].
        apply open_excl_staged in Hopen as (_ & _ & ino & -> & _).
        rewrite lookup_insert_eq. by eexists. }
    apply bind_Raise in Hrest as [Hch|([] & ? & _ & [=])].
    destruct (fmode self) as [mode|]; [|done].
    destruct (chmod_file_Ok (tmp_name tmp) mode w1 ino Hino) as [? Hok].
    congruence.
Qed.

(** X14.  What [_mktemp] leaves.  When it returns, the staged file is a
    new name in the staging root, [_tmp] followed by the random part, for
    a new and empty file with the mode of the store (0o600 when [fmode]
    is [None]), and the file object is new, binary, open and at offset 0;
    the directory of the staged file exists afterwards, nothing else has
    changed but for directories that were made.  When it raises, no file
    and no file object was made. *)
Theorem mktemp_outcomes self name w r w' :
  _mktemp self name w = (r, w') →
  match r with
  | Ok tmp =>
      tmp_name tmp = tmppath self name ∧
      path_exists w (tmp_name tmp) = false ∧
      is_dir w' (dirname (tmp_name tmp)) = true ∧
      w_dirs w ⊆ w_dirs w' ∧
      w_handles w !! tmp_fd tmp = None ∧
      ∃ ino, w_inodes w !! ino = None ∧
        w_files w' = <[tmp_name tmp := ino]> (w_files w) ∧
        w_inodes w'
        = <[ino := {| i_data := [];
                      i_mode := default 384%Z (fmode self) |}]> (w_inodes w) ∧
        w_handles w'
        = <[tmp_fd tmp := {| h_name := tmp_name tmp; h_ino := ino;
                             h_pos := 0; h_binary := true;
                             h_closed := false |}]> (w_handles w)
  | Raise e => grows w w'
  end.
Proof.
  destruct r as [tmp|e]; intros H; [|by eapply mktemp_Raise].
  pose proof (mktemp_inv _ _ _ _ _ H)
    as (Hname & w1 & ino' & Hg & Hdir & Hex & _ & Hd & _).
  pose proof (mktemp_staging _ _ _ _ _ H)
    as (ino & Hst & Hnew & Hi1 & Hold & Hnone & Hfiles & Hfd & Hhs & Hdirs
        & Hh).
  split; [done|]. split; [|split; [|split; [done|split; [done|]]]].
  - destruct (path_exists w (tmp_name tmp)) eqn:E; [|done].
    by rewrite (grows_path_exists _ _ _ Hg E) in Hex.
  - unfold is_dir in *. by rewrite Hd.
  - exists ino. split; [done|]. split; [done|]. split.
    + apply map_eq. intros i. destruct (decide (i = ino)) as [->|Hne].
      * by rewrite lookup_insert_eq.
      * rewrite lookup_insert_ne by done. by apply Hold.
    + apply map_eq. intros fd.
      destruct (decide (fd = tmp_fd tmp)) as [->|Hne].
      * by rewrite lookup_insert_eq.
      * rewrite lookup_insert_ne by done. by apply Hhs.
Qed.

Lemma mktemp_outcomes_witness :
  let r := _mktemp Example.store Example.name1 Example.world0 in
  ∃ tmp ino, r.1 = Ok tmp ∧
    tmp_name tmp = s2l "/srv/tmp/_tmpk3x9ab12" ∧
    w_files r.2 = <[tmp_name tmp := ino]> (w_files Example.world0) ∧
    w_inodes r.2
    = <[ino := {| i_data := []; i_mode := 436 |}]>
        (w_inodes Example.world0).
Proof.
  intros r.
  pose proof (mktemp_outcomes Example.store Example.name1 Example.world0
                r.1 r.2 (surjective_pairing _)) as H.
  assert (r.1 = Ok {| tmp_fd := 0; tmp_name := s2l "/srv/tmp/_tmpk3x9ab12" |})
    as Hr by (vm_compute; reflexivity).
  rewrite Hr in H.
  destruct H as (_ & _ & _ & _ & _ & ino & _ & Hf & Hi & _).
  eexists _, ino. split; [exact Hr|]. split; [reflexivity|].
  split; [exact Hf|exact Hi].
Defined.

End Outcomes.

(** ** Deleting, the empty digest and the guard *)

Section MoreOutcomes.
Import Py PosixPath.

(** X15.  How [delete] ends.  It never returns [False]: it returns
    [True], and then the path of the digest was a file and the only
    change is that this name is gone (directories and bytes stay), or it
    raises and nothing has changed: [ValueError] for a digest that
    [digestpath] refuses, and the error of [os.remove] when the path of
    the digest is no file. *)
Theorem delete_outcomes self d w r w' :
  delete self d w = (r, w') →
  match r with
  | Ok b =>
      b = true ∧
      ∃ p, digestpath self d = Ok p ∧ is_file w p = true ∧
           w' = set_files (base.delete p (w_files w)) w
  | Raise e =>
      w' = w ∧
      match digestpath self d with
      | Ok p =>
          is_file w p = false ∧
          e ∈ [IsADirectoryError; NotADirectoryError; FileNotFoundError]
      | Raise _ => e = ValueError
      end
  end.
Proof.
  unfold delete, lift. unfold bind at 1.
  destruct (digestpath self d) as [p|e0] eqn:Hdp.
  2:{ intros [= <- <-]. split; [done|].
      unfold digestpath in Hdp. destruct (negb _); [congruence|].
      destruct (int16 d); congruence. }
  rewrite (digestpath_startswith _ _ _ Hdp). simpl.
  unfold bind, OS.unlink, is_file.
  destruct (w_files w !! p) as [ino|] eqn:Hp.
  - intros [= <- <-]. split; [done|]. exists p.
    split; [done|]. split; [|done]. by apply bool_decide_eq_true.
  - assert (bool_decide (is_Some (None : option nat)) = false) as Hno.
    { apply bool_decide_eq_false. by intros [? ?]. }
    destruct (is_dir w p);
      [|destruct (bool_decide (is_Some (w_files w !! dirname p)))];
      simpl; intros [= <- <-]; (split; [done|]); (split; [done|]);
      set_solver.
Qed.

Lemma delete_outcomes_witness :
  let w := Example.committed Example.name1 Example.world0 in
  ∃ p, digestpath Example.store (s2l "bf40") = Ok p ∧ is_file w p = true ∧
       (delete Example.store (s2l "bf40") w).2
       = set_files (base.delete p (w_files w)) w.
Proof.
  intros w.
  assert (delete Example.store (s2l "bf40") w
          = (Ok true, (delete Example.store (s2l "bf40") w).2)) as Hdel
    by (vm_compute; reflexivity).
  destruct (delete_outcomes Example.store (s2l "bf40") w _ _ Hdel)
    as (_ & p & Hp & Hfile & Hw).
  exists p. split; [exact Hp|]. split; [exact Hfile|exact Hw].
Defined.

Lemma constructed_emptydigest self :
  constructed self → emptydigest self = hexdigest_of (algorithm self) [].
Proof.
  unfold constructed, attrs_post_init. repeat case_match; try done.
  intros [= Hself]. by apply (f_equal emptydigest) in Hself.
Qed.

(** X16.  Putting nothing gives the empty digest.  On a constructed
    store a [putstr] of the empty string or of no bytes, and a [putfile]
    of an empty file or of a file object at its end, return the address
    of [emptydigest], the digest the constructor computed of [b'']. *)
Theorem put_empty :
  (∀ self src name w a w',
     constructed self → source_bytes src = Some [] →
     putstr self src name w = (Ok a, w') →
     digest a = emptydigest self ∧
     digestpath self (emptydigest self) = Ok (abspath a)) ∧
  (∀ resolve self file name w a w',
     constructed self → file_bytes w file = Some [] →
     putfile resolve self file name w = (Ok a, w') →
     digest a = emptydigest self ∧
     digestpath self (emptydigest self) = Ok (abspath a)).
Proof.
  split.
  - intros * Hc Hs Hp.
    destruct (putstr_effect _ _ _ _ _ _ _ Hs Hp) as (_ & Hd & Hdp & _).
    rewrite (constructed_emptydigest _ Hc), <- Hd. done.
  - intros * Hc Hs Hp.
    destruct (putfile_effect _ _ _ _ _ _ _ _ Hs Hp) as (_ & Hd & Hdp & _).
    rewrite (constructed_emptydigest _ Hc), <- Hd. done.
Qed.

Lemma put_empty_witness :
  let r := putstr Example.store (VStr []) Example.name1 Example.world0 in
  ∃ a, r.1 = Ok a ∧ digest a = s2l "0007" ∧
       abspath a = s2l "/srv/store/0/0/0/0007".
Proof.
  intros r.
  pose (a := {| digest := s2l "0007"; fs := Example.store;
                abspath := s2l "/srv/store/0/0/0/0007";
                is_duplicate := false |}).
  assert (r = (Ok a, r.2)) as Hr by (vm_compute; reflexivity).
  destruct (proj1 put_empty Example.store (VStr []) Example.name1
              Example.world0 a r.2 eq_refl eq_refl Hr) as [Hd Hp].
  exists a. split; [rewrite Hr; reflexivity|]. split; reflexivity.
Defined.

(** X17.  [path_is_parent] orders the absolute resolved paths by their
    segments: every path is its own parent, a parent of a parent is a
    parent, and two paths that are parents of each other have the same
    segments. *)
Theorem path_is_parent_order resolve a b c :
  isabs (resolve a) = true → isabs (resolve b) = true →
  isabs (resolve c) = true →
  path_is_parent resolve a a = Ok true ∧
  (path_is_parent resolve a b = Ok true →
   path_is_parent resolve b c = Ok true →
   path_is_parent resolve a c = Ok true) ∧
  (path_is_parent resolve a b = Ok true →
   path_is_parent resolve b a = Ok true →
   segments (resolve a) = segments (resolve b)).
Proof.
  intros Ha Hb Hc.
  rewrite !path_is_parent_spec by done.
  split; [|split].
  - by rewrite bool_decide_true.
  - intros [= H1%bool_decide_eq_true] [= H2%bool_decide_eq_true].
    rewrite bool_decide_true; [done|]. by etrans.
  - intros [= H1%bool_decide_eq_true] [= H2%bool_decide_eq_true].
    by apply (anti_symm prefix).
Qed.

Lemma path_is_parent_order_witness :
  path_is_parent Example.resolve (s2l "/srv") (s2l "/srv") = Ok true ∧
  path_is_parent Example.resolve (s2l "/srv") Example.final = Ok true.
Proof.
  destruct (path_is_parent_order Example.resolve (s2l "/srv")
              (s2l "/srv/store") Example.final eq_refl eq_refl eq_refl)
    as (Hrefl & Htrans & _).
  split; [exact Hrefl|]. apply Htrans; reflexivity.
Defined.

Lemma endswith_sep_snoc path :
  endswith_sep path = true → ∃ p, path = p ++ [sep].
Proof.
  unfold endswith_sep. destruct (last path) as [c|] eqn:Hl; [|done].
  intros ->%is_sep_true. apply last_Some in Hl as [p ->]. by exists p.
Qed.

Lemma segments_app_sep p d : segments (p ++ sep :: d) = segments p ++ segments d.
Proof. unfold segments. by rewrite split_app_sep, filter_app. Qed.

Lemma segments_nil : segments [] = [].
Proof. done. Qed.

Lemma segments_join_step path b :
  contains_sep b = false →
  segments (join_step path b) = segments path ++ segments b.
Proof.
  intros Hb. unfold join_step.
  assert (bool_decide (path = []) || endswith_sep path = true →
          segments (path ++ b) = segments path ++ segments b) as Hglue.
  { intros [->%bool_decide_eq_true|[p ->]%endswith_sep_snoc]%orb_true_iff.
    - done.
    - rewrite <- app_assoc. simpl.
      by rewrite !segments_app_sep, segments_nil, app_nil_r. }
  destruct b as [|c b].
  - destruct (bool_decide (path = []) || endswith_sep path) eqn:E.
    + rewrite <- (app_nil_r path) at 1. by apply Hglue.
    + by rewrite segments_app_sep.
  - assert (is_sep c = false) as ->.
    { unfold contains_sep in Hb. simpl in Hb.
      by apply orb_false_iff in Hb as [? _]. }
    destruct (bool_decide (path = []) || endswith_sep path) eqn:E.
    + by apply Hglue.
    + by rewrite segments_app_sep.
Qed.

Lemma segments_join a ps :
  Forall (λ b, contains_sep b = false) ps →
  segments a `prefix_of` segments (join a ps).
Proof.
  unfold join. revert a. induction ps as [|b ps IH]; intros a Hps; [done|].
  apply Forall_cons in Hps as [Hb Hps]. simpl.
  etrans; [|by apply IH]. rewrite segments_join_step by done.
  by apply prefix_app_r.
Qed.

(** X18.  No self-storage.  The path of every digest lies inside the
    tree of the root, so [putfile] of a path that [digestpath] gives
    (with an absolute root, and no links on the way) is refused with the
    validation error before anything is staged: a stored file cannot be
    put again under its own path. *)
Theorem stored_path_refused resolve self d p name w :
  digestpath self d = Ok p →
  isabs (root self) = true →
  resolve (root self) = root self → resolve p = p →
  within resolve (root self) p ∧
  putfile resolve self (VStr p) name w = (Raise ValueError, w).
Proof.
  intros Hdp Habs Hr Hp.
  pose proof Hdp as (_ & Hsep & Hjoin)%digestpath_Ok.
  assert (within resolve (root self) p) as Hin.
  { unfold within. rewrite Hr, Hp, Hjoin.
    apply segments_join. by apply shard_no_sep. }
  split; [done|].
  assert (isabs p = true) as Habs'.
  { apply digestpath_startswith, startswith_prefix in Hdp as [k ->].
    by destruct (root self). }
  unfold putfile, source_name.
  erewrite bind_step; [|reflexivity].
  erewrite bind_step; cycle 1.
  { unfold lift. rewrite path_is_parent_spec by (by rewrite ?Hr, ?Hp).
    reflexivity. }
  by rewrite bool_decide_true.
Qed.

Lemma stored_path_refused_witness :
  putfile Example.resolve Example.store (VStr Example.final) Example.name2
    Example.world0
  = (Raise ValueError, Example.world0).
Proof.
  apply (stored_path_refused Example.resolve Example.store (s2l "bf40")
           Example.final Example.name2 Example.world0); reflexivity.
Defined.

End MoreOutcomes.

(** ** A staging root that is missing *)

Section StagingRoot.
Import Py PosixPath.

Lemma cut_last_sep_head p h t :
  cut_last_sep p = Some (h, t) → endswith_sep h = true.
Proof.
  revert h t. induction p as [|c p IH]; intros h t; simpl; [done|].
  destruct (cut_last_sep p) as [[h' t']|].
  - intros [= <- <-]. specialize (IH h' t' eq_refl).
    unfold endswith_sep in *. destruct h' as [|x h']; [done|]. done.
  - destruct (is_sep c) eqn:Hc; [|done]. intros [= <- <-].
    unfold endswith_sep. done.
Qed.

Lemma path_split_tail t :
  endswith_sep t = false → t ≠ [] → (path_split t).2 ≠ [].
Proof.
  intros Hend Hne. unfold path_split.
  destruct (cut_last_sep t) as [[h tl]|] eqn:E; simpl; [|done].
  intros ->. pose proof (cut_last_sep_app _ _ _ E) as Ht.
  rewrite app_nil_r in Ht. subst h.
  apply cut_last_sep_head in E. congruence.
Qed.

Lemma not_endswith_sep t :
  endswith_sep t = false → t ≠ [] →
  ∃ t' c, t = t' ++ [c] ∧ is_sep c = false.
Proof.
  unfold endswith_sep. intros Hend Hne.
  destruct (last t) as [c|] eqn:Hl.
  - apply last_Some in Hl as [t' ->]. by exists t', c.
  - by apply last_None in Hl.
Qed.

(** The directory of a name right below [t] is [t]. *)
Lemma dirname_child t x :
  endswith_sep t = false → t ≠ [] → contains_sep x = false →
  dirname (t ++ sep :: x) = t.
Proof.
  intros Hend Hne Hx. unfold dirname, path_split.
  rewrite (cut_last_sep_last t x Hx). simpl.
  destruct (not_endswith_sep t Hend Hne) as (t' & c & -> & Hc).
  rewrite !forallb_app. simpl. rewrite Hc. simpl.
  rewrite andb_false_r. simpl.
  unfold rstrip_sep. rewrite !reverse_app. simpl. rewrite Hc.
  rewrite reverse_cons, reverse_involutive. done.
Qed.

(** [os.makedirs] of a missing directory whose parent is there makes
    that one directory. *)
Lemma makedirs_child t mode w :
  endswith_sep t = false → t ≠ [] →
  is_dir w (dirname t) = true → path_exists w t = false →
  OS.makedirs t mode w = (Ok tt, set_dirs (<[t := mode]> (w_dirs w)) w).
Proof.
  intros Hend Hne Hdir Hex. unfold OS.makedirs. cbn [OS.makedirs_rec].
  pose proof (path_split_tail t Hend Hne) as Htail.
  unfold dirname in Hdir.
  destruct (path_split t) as [head tail] eqn:E. simpl in *.
  rewrite (bool_decide_false (tail = [])) by done.
  rewrite (bind_step get_world _ w w w eq_refl).
  assert (path_exists w head = true) as ->.
  { unfold path_exists. by rewrite Hdir, orb_true_r. }
  rewrite !andb_false_r.
  unfold OS.mkdir. rewrite bool_decide_false by done.
  assert (OS.check_parent t w = (Ok tt, w)) as ->.
  { apply check_parent_Ok. split; [|done]. unfold dirname. by rewrite E. }
  by rewrite Hex.
Qed.

(** X19.  The staging root is made on demand.  When the staging root is
    missing and the directory above it is there, [_mktemp] makes the
    staging root, with the default mode of [os.makedirs] (0o777) and not
    with [dmode], and then stages the file in it. *)
Theorem mktemp_makes_staging_root self name w :
  endswith_sep (tmproot self) = false → tmproot self ≠ [] →
  contains_sep name = false →
  path_exists w (tmproot self) = false →
  is_dir w (dirname (tmproot self)) = true →
  path_exists w (tmppath self name) = false →
  ∃ tmp w', _mktemp self name w = (Ok tmp, w') ∧
    tmp_name tmp = tmppath self name ∧
    w_dirs w' = <[tmproot self := 511%Z]> (w_dirs w) ∧
    is_file w' (tmp_name tmp) = true.
Proof.
  intros Hend Hne Hname Hroot Hparent Hfree.
  set (t := tmproot self) in *.
  assert (tmppath self name = t ++ sep :: s2l "_tmp" ++ name) as Hp.
  { unfold tmppath, join. simpl. fold t.
    rewrite bool_decide_false by done. by rewrite Hend. }
  assert (dirname (tmppath self name) = t) as Hdn.
  { rewrite Hp. by apply dirname_child. }
  set (p := tmppath self name) in *.
  set (w2 := set_dirs (<[t := 511%Z]> (w_dirs w)) w).
  assert (Tempfile.NamedTemporaryFile t (s2l "_tmp") name w
          = (Raise FileNotFoundError, w)) as Hfirst.
  { unfold Tempfile.NamedTemporaryFile.
    change (join t [s2l "_tmp" ++ name]) with p.
    unfold bind, File.open_excl, OS.check_parent. rewrite Hdn.
    apply orb_false_iff in Hroot as [-> ->]. done. }
  assert (is_dir w2 t = true) as Hdir2.
  { unfold is_dir. simpl. rewrite lookup_insert_eq.
    rewrite bool_decide_true by by eexists. apply orb_true_r. }
  assert (path_exists w2 p = false) as Hfree2.
  { apply path_exists_false in Hfree as (Hf & Hs & Hd).
    apply path_exists_false. split; [done|]. split; [done|]. simpl.
    rewrite lookup_insert_ne; [done|]. intros E.
    apply (f_equal length) in E. rewrite Hp in E.
    rewrite length_app in E. simpl in E. lia. }
  assert (∃ t2 w3, Tempfile.NamedTemporaryFile t (s2l "_tmp") name w2
                   = (Ok t2, w3)) as (t2 & w3 & Hsecond).
  { eexists {| tmp_fd := _; tmp_name := p |}, _. apply ntf_Ok.
    split; [reflexivity|]. simpl. apply open_excl_Ok.
    rewrite Hdn. by repeat split. }
  assert (_mktemp self name w = _mktemp self name w2) as Hsame.
  { unfold _mktemp. fold t.
    erewrite (bind_step _ _ w); cycle 1.
    { unfold try_except. rewrite Hfirst.
      erewrite bind_step; [|by apply makedirs_child]. exact Hsecond. }
    erewrite (bind_step _ _ w2); [done|].
    unfold try_except. by rewrite Hsecond. }
  destruct (mktemp_ready self name w2) as (tmp & w' & ino & Heq & Hn & Hf & Hd
                                             & _).
  { change (join (tmproot self) [s2l "_tmp" ++ name]) with p.
    by rewrite Hdn. }
  { done. }
  exists tmp, w'. split; [by rewrite Hsame|]. split; [done|].
  split; [done|].
  unfold is_file. rewrite Hn, Hf.
  rewrite lookup_insert_eq. by apply bool_decide_eq_true.
Qed.

Lemma mktemp_makes_staging_root_witness :
  let w := set_dirs (base.delete (s2l "/srv/tmp") (w_dirs Example.world0))
             Example.world0 in
  is_dir w (s2l "/srv/tmp") = false ∧
  ∃ tmp w', _mktemp Example.store Example.name1 w = (Ok tmp, w') ∧
    w_dirs w' = <[s2l "/srv/tmp" := 511%Z]> (w_dirs w).
Proof.
  intros w. split; [vm_compute; reflexivity|].
  destruct (mktemp_makes_staging_root Example.store Example.name1 w)
    as (tmp & w' & Heq & _ & Hd & _); try (vm_compute; reflexivity).
  - vm_compute. discriminate.
  - exists tmp, w'. split; [exact Heq|exact Hd].
Defined.

End StagingRoot.

(** ** A put that fails *)

Section Failure.
Import Py PosixPath.

(** X20.  What a [putstr] that raises leaves behind.  No directory is
    removed and no file that was there is changed or renamed; nothing is
    added under the path of a digest.  Either the names of the files are
    as before, or the one new name is the staged file, which holds the
    bytes of the source: [putstr] does not clean up when the commit
    fails. *)
Theorem putstr_failure self src name w e w' :
  putstr self src name w = (Raise e, w') →
  w_dirs w ⊆ w_dirs w' ∧
  (∀ i, is_Some (w_inodes w !! i) → w_inodes w' !! i = w_inodes w !! i) ∧
  (w_files w' = w_files w ∨
   ∃ ino, w_inodes w !! ino = None ∧
          w_files w !! tmppath self name = None ∧
          w_files w' = <[tmppath self name := ino]> (w_files w) ∧
          ∀ content, source_bytes src = Some content →
                     data_of w' ino = content).
Proof.
  unfold putstr.
  intros [H|(s & w0 & Hs & H)]%bind_Raise.
  { unfold lift in H. injection H as _ <-. by repeat split; [|left]. }
  unfold lift in Hs. injection Hs as Hs <-.
  apply bind_Raise in H as [H|(tmp & w1 & Hmk & H)].
  { apply mktemp_Raise in H as (Hf & Hi & _ & Hd).
    split; [done|]. split; [by rewrite Hi|by left]. }
  pose proof (mktemp_inv _ _ _ _ _ Hmk) as (Hname & _).
  fold (tmppath self name) in Hname.
  apply mktemp_staging in Hmk
    as (ino & Hst & Hnew & Hi1 & Hold & Hnone & Hfiles & _ & _ & Hdirs & _).
  destruct (computehash_staging self s tmp ino w1 Hst)
    as (w2 & Heq & Hdata & (Hf2 & Hd2) & Hin2 & _ & _).
  rewrite Hname in *.
  assert (∀ w3, grows w2 w3 →
    w_dirs w ⊆ w_dirs w3 ∧
    (∀ i, is_Some (w_inodes w !! i) → w_inodes w3 !! i = w_inodes w !! i) ∧
    (w_files w3 = w_files w ∨
     ∃ ino, w_inodes w !! ino = None ∧
            w_files w !! tmppath self name = None ∧
            w_files w3 = <[tmppath self name := ino]> (w_files w) ∧
            ∀ content, source_bytes src = Some content →
                       data_of w3 ino = content)) as Hleak.
  { intros w3 (Hf3 & Hi3 & _ & Hd3). split; [|split].
    - etrans; [exact Hdirs|]. by rewrite <- Hd2.
    - intros i [x Hx]. assert (i ≠ ino) as Hne by congruence.
      rewrite Hi3, Hin2, Hold by congruence. done.
    - right. exists ino. split; [done|]. split; [done|].
      split; [by rewrite Hf3, Hf2|].
      intros content (s' & Hs' & <-)%source_stream.
      rewrite Hs in Hs'. injection Hs' as <-.
      unfold data_of. rewrite Hi3. fold (data_of w2 ino).
      rewrite Hdata. unfold data_of. by rewrite Hi1. }
  apply bind_Raise in H as [H|(d & w2' & Hch & H)]; [congruence|].
  rewrite Heq in Hch. injection Hch as _ <-.
  apply bind_Raise in H as [H|(fp & w3 & Hdp & H)].
  { unfold lift in H. injection H as _ <-. apply Hleak, grows_refl. }
  unfold lift in Hdp. injection Hdp as _ <-.
  apply bind_Raise in H as [H|(b & w4 & _ & [=])].
  apply mvtemp_Raise in H. by apply Hleak.
Qed.

Lemma putstr_failure_witness :
  let r := putstr Example.store (VStr (s2l "foo")) Example.name1
             Example.world_blocked in
  r.1 = Raise NotADirectoryError ∧
  ∃ ino, w_files r.2
         = <[s2l "/srv/tmp/_tmpk3x9ab12" := ino]>
             (w_files Example.world_blocked) ∧
         data_of r.2 ino = Example.foo.
Proof.
  intros r.
  assert (r = (Raise NotADirectoryError, r.2)) as Hr
    by (vm_compute; reflexivity).
  destruct (putstr_failure Example.store (VStr (s2l "foo")) Example.name1
              Example.world_blocked _ _ Hr)
    as (_ & _ & [Hsame|(ino & _ & _ & Hf & Hd)]).
  - exfalso. apply (f_equal (λ m, m !! s2l "/srv/tmp/_tmpk3x9ab12")) in Hsame.
    vm_compute in Hsame. discriminate Hsame.
  - split; [rewrite Hr; reflexivity|]. exists ino.
    split; [exact Hf|]. exact (Hd Example.foo eq_refl).
Defined.

End Failure.
